(** * Lynkr: policy, tool registry, prompt cache, workspace and MCP client

    A shallow embedding of the parts of the proxy that its specification
    makes testable promises about:

    - [src/cache/prompt.js]      the content-addressed LRU prompt cache;
    - the policy engine          ([evaluateToolCall] and its helpers);
    - [src/tools/index.js]       the tool registry and [executeToolCall];
    - [src/workspace/index.js]   [resolveWorkspacePath];
    - [src/mcp/client.js]        the JSON-RPC client life cycle.

    The file first gives the definitions, module by module, and then the
    properties. *)

From Stdlib Require Import ZArith String Ascii List Bool Lia DecimalString.
From stdpp Require Import base option list gmap strings.

Set Warnings "-register-all".

Local Open Scope string_scope.
Local Open Scope list_scope.
Local Open Scope Z_scope.

(* ===================================================================== *)
(** ** JavaScript values *)
(* ===================================================================== *)

(** JSON-shaped JavaScript values.  Strings are sequences of code units
    below 256 (Latin-1 text): the string functions below are those of
    JavaScript on such text, and nothing is said of strings that hold other
    code units (where, for one, [toLowerCase] turns the Kelvin sign U+212A
    into [k]).  Numbers are the integral ones, which is what the modelled
    code inspects (HTTP statuses, counters, clock readings); objects list
    their own enumerable properties in enumeration order. *)
Inductive value : Type :=
| VUndefined
| VNull
| VBool (b : bool)
| VNum (n : Z)
| VStr (s : string)
| VArr (items : list value)
| VObj (fields : list (string * value)).

(** Outcome of code that may throw. *)
Inductive result (A : Type) : Type :=
| Ok (a : A)
| Throw (err : value).
Arguments Ok {A} a.
Arguments Throw {A} err.

Definition bind {A B} (r : result A) (k : A -> result B) : result B :=
  match r with
  | Ok a => k a
  | Throw e => Throw e
  end.

Notation "'let*' x ':=' r 'in' k" := (bind r (fun x => k))
  (at level 10, x name, r at level 100, k at level 200).

Module JS.

Definition dquote : ascii := "034"%char.
Definition squote : ascii := "039"%char.

(** [new Error(msg)], [new TypeError(msg)]: only [message] is observed. *)
Definition Error (msg : string) : value := VObj [("message", VStr msg)].
Definition TypeError (msg : string) : value := VObj [("message", VStr msg)].

(** ToBoolean. *)
Definition truthy (v : value) : bool :=
  match v with
  | VUndefined | VNull => false
  | VBool b => b
  | VNum n => negb (n =? 0)
  | VStr s => negb (String.eqb s "")
  | VArr _ | VObj _ => true
  end.

Definition nullish (v : value) : bool :=
  match v with
  | VUndefined | VNull => true
  | _ => false
  end.

(** [typeof v === "object"] (true of [null] as well). *)
Definition typeof_object (v : value) : bool :=
  match v with
  | VNull | VArr _ | VObj _ => true
  | _ => false
  end.

Definition typeof_string (v : value) : bool :=
  match v with VStr _ => true | _ => false end.

Definition typeof_number (v : value) : bool :=
  match v with VNum _ => true | _ => false end.

Definition isArray (v : value) : bool :=
  match v with VArr _ => true | _ => false end.

(** [a ?? b]. *)
Definition coalesce (a b : value) : value :=
  if nullish a then b else a.

Fixpoint assoc {A} (k : string) (l : list (string * A)) : option A :=
  match l with
  | [] => None
  | (k', v) :: r => if String.eqb k k' then Some v else assoc k r
  end.

Definition decimal (n : Z) : string := NilZero.string_of_int (Z.to_int n).

Definition digit_of (c : ascii) : option Z :=
  let n := Z.of_nat (nat_of_ascii c) in
  if (48 <=? n) && (n <=? 57) then Some (n - 48) else None.

Fixpoint parse_digits (acc : Z) (s : string) : option Z :=
  match s with
  | EmptyString => Some acc
  | String c r =>
      match digit_of c with
      | Some d => parse_digits (10 * acc + d) r
      | None => None
      end
  end.

(** A property key that is an array index: a canonical numeric string
    below [2^32 - 1]. *)
Definition array_index (k : string) : option Z :=
  match k with
  | EmptyString => None
  | _ =>
      match parse_digits 0 k with
      | Some n =>
          if String.eqb (decimal n) k && (n <? 4294967295) then Some n
          else None
      | None => None
      end
  end.

Fixpoint string_nth (i : nat) (s : string) : option ascii :=
  match s, i with
  | EmptyString, _ => None
  | String c _, O => Some c
  | String _ r, S j => string_nth j r
  end.

(** [v[k]] for a receiver that is not [undefined] or [null].  Only own
    data properties of JSON-shaped values are modelled, plus [length] on
    arrays and strings. *)
Definition prop (v : value) (k : string) : value :=
  match v with
  | VObj fs => default VUndefined (assoc k fs)
  | VArr l =>
      if String.eqb k "length" then VNum (Z.of_nat (length l))
      else match array_index k with
           | Some i => nth (Z.to_nat i) l VUndefined
           | None => VUndefined
           end
  | VStr s =>
      if String.eqb k "length" then VNum (Z.of_nat (String.length s))
      else match array_index k with
           | Some i =>
               match string_nth (Z.to_nat i) s with
               | Some c => VStr (String c EmptyString)
               | None => VUndefined
               end
           | None => VUndefined
           end
  | _ => VUndefined
  end.

(** [v?.k] and [v?.[k]]. *)
Definition optProp (v : value) (k : string) : value :=
  if nullish v then VUndefined else prop v k.

(** [v.k]: throws on [undefined] and [null]. *)
Definition getProp (v : value) (k : string) : result value :=
  if nullish v
  then Throw (TypeError ("Cannot read properties of undefined or null (reading '" +:+ k +:+ "')"))
  else Ok (prop v k).

(** [Object.prototype.hasOwnProperty.call(v, k)] on JSON-shaped values. *)
Definition hasOwn (v : value) (k : string) : bool :=
  match v with
  | VObj fs => match assoc k fs with Some _ => true | None => false end
  | VArr l =>
      String.eqb k "length" ||
      match array_index k with
      | Some i => Z.to_nat i <? length l
      | None => false
      end%nat
  | VStr s =>
      String.eqb k "length" ||
      match array_index k with
      | Some i => Z.to_nat i <? String.length s
      | None => false
      end%nat
  | _ => false
  end.

Fixpoint join (sep : string) (l : list string) : string :=
  match l with
  | [] => ""
  | [x] => x
  | x :: r => x +:+ sep +:+ join sep r
  end.

(** ToString of a JSON-shaped value ([String(v)], a template literal, the
    argument of [new Error]).  An object is converted through its
    [toString] method: an object without an own [toString] inherits the one
    of [Object.prototype]; an own property [toString] of a JSON-shaped object
    is not callable, the inherited [valueOf] returns the object itself, and
    the conversion throws a [TypeError].  An array is converted by [join]. *)
Definition cannot_convert : value :=
  TypeError "Cannot convert object to primitive value".

Fixpoint toString (v : value) : result string :=
  match v with
  | VUndefined => Ok "undefined"
  | VNull => Ok "null"
  | VBool true => Ok "true"
  | VBool false => Ok "false"
  | VNum n => Ok (decimal n)
  | VStr s => Ok s
  | VArr l =>
      let* parts :=
        (fix elements (l : list value) : result (list string) :=
           match l with
           | [] => Ok []
           | x :: r =>
               let* s := if nullish x then Ok "" else toString x in
               let* rest := elements r in
               Ok (s :: rest)
           end) l in
      Ok (join "," parts)
  | VObj fs =>
      match assoc "toString" fs with
      | Some _ => Throw cannot_convert
      | None => Ok "[object Object]"
      end
  end.

(** The elements of [Array.prototype.join]: [undefined] and [null] are
    rendered as the empty string, the others by ToString, first to last. *)
Fixpoint join_elements (l : list value) : result (list string) :=
  match l with
  | [] => Ok []
  | x :: r =>
      let* s := if nullish x then Ok "" else toString x in
      let* rest := join_elements r in
      Ok (s :: rest)
  end.

(** [l.join(sep)]. *)
Definition array_join (sep : string) (l : list value) : result string :=
  let* parts := join_elements l in
  Ok (join sep parts).

(** WhiteSpace and LineTerminator code units below 256. *)
Definition is_space (c : ascii) : bool :=
  let n := nat_of_ascii c in
  ((9 <=? n) && (n <=? 13) || (n =? 32) || (n =? 160))%nat.

Definition is_upper (c : ascii) : bool :=
  let n := nat_of_ascii c in ((65 <=? n) && (n <=? 90))%nat.

Definition lower_ascii (c : ascii) : ascii :=
  if is_upper c then ascii_of_nat (nat_of_ascii c + 32) else c.

(** The lower case of a code unit below 256: the ASCII capitals and the
    capitals of Latin-1 (192 to 222, the multiplication sign apart). *)
Definition lower_code_unit (c : ascii) : ascii :=
  let n := nat_of_ascii c in
  if is_upper c || ((192 <=? n) && (n <=? 222) && negb (n =? 215))%nat
  then ascii_of_nat (n + 32) else c.

(** [String.prototype.toLowerCase] on text of code units below 256. *)
Fixpoint toLowerCase (s : string) : string :=
  match s with
  | EmptyString => EmptyString
  | String c r => String (lower_code_unit c) (toLowerCase r)
  end.

Fixpoint trimStart (s : string) : string :=
  match s with
  | EmptyString => EmptyString
  | String c r => if is_space c then trimStart r else s
  end.

Fixpoint all_space (s : string) : bool :=
  match s with
  | EmptyString => true
  | String c r => is_space c && all_space r
  end.

Fixpoint trimEnd (s : string) : string :=
  match s with
  | EmptyString => EmptyString
  | String c r => if all_space s then EmptyString else String c (trimEnd r)
  end.

Definition trim (s : string) : string := trimEnd (trimStart s).

(** [s.startsWith(p)]. *)
Fixpoint startsWith (p s : string) : bool :=
  match p, s with
  | EmptyString, _ => true
  | String a p', String b s' => Ascii.eqb a b && startsWith p' s'
  | String _ _, EmptyString => false
  end.

(** Own-property creation order of an ordinary object: array-index keys
    in ascending numeric order first, then the other keys in the order
    they were added; assigning an existing key keeps its place. *)
Fixpoint replace_field (k : string) (v : value) (o : list (string * value))
  : list (string * value) :=
  match o with
  | [] => []
  | (k', v') :: r =>
      if String.eqb k k' then (k, v) :: r else (k', v') :: replace_field k v r
  end.

Fixpoint insert_index (n : Z) (k : string) (v : value) (o : list (string * value))
  : list (string * value) :=
  match o with
  | [] => [(k, v)]
  | (k', v') :: r =>
      match array_index k' with
      | Some m => if m <? n then (k', v') :: insert_index n k v r
                  else (k, v) :: o
      | None => (k, v) :: o
      end
  end.

(** Defining the own property [k] of [o], as an object literal, a spread
    and [JSON.parse] do. *)
Definition obj_define (o : list (string * value)) (k : string) (v : value)
  : list (string * value) :=
  match assoc k o with
  | Some _ => replace_field k v o
  | None =>
      match array_index k with
      | Some n => insert_index n k v o
      | None => o ++ [(k, v)]
      end
  end.

(** The assignment [o[k] = v] on an ordinary object: the key [__proto__]
    reaches the setter of [Object.prototype], which creates no own
    property. *)
Definition obj_set (o : list (string * value)) (k : string) (v : value)
  : list (string * value) :=
  if String.eqb k "__proto__" then o else obj_define o k v.

End JS.

(* ===================================================================== *)
(** ** Library functions of the runtime *)
(* ===================================================================== *)

(** Functions of Node.js that the modelled code calls and whose results it
    treats as opaque: the SHA-256 hex digest, the two forms of
    [JSON.stringify] used ([JSON.stringify(v)] and
    [JSON.stringify(v, null, 2)], on values that are not [undefined]) and
    [JSON.parse] ([None] when it throws). *)
Class Platform : Type := {
  sha256_hex : string -> string;
  JSON_stringify : value -> string;
  JSON_stringify_pretty : value -> string;
  JSON_parse : string -> option value;
}.

(* ===================================================================== *)
(** ** The prompt cache: [src/cache/prompt.js] *)
(* ===================================================================== *)

Module PromptCache.

(** [structuredClone]: a deep copy; values of the model are immutable. *)
Definition cloneValue (v : value) : value := v.

Fixpoint insert_sorted {A} (k : string) (x : A) (l : list (string * A))
  : list (string * A) :=
  match l with
  | [] => [(k, x)]
  | (k', y) :: r =>
      if String.leb k k' then (k, x) :: l else (k', y) :: insert_sorted k x r
  end.

(** [Object.keys(value).sort()], each key carried with what the loop reads
    under it. *)
Definition sort_by_key {A} (l : list (string * A)) : list (string * A) :=
  fold_right (fun kv acc => insert_sorted (fst kv) (snd kv) acc) [] l.

(** One turn of the loop of [normaliseObject]: [candidate] is
    [value[key]] and [normalised] is [normaliseObject(candidate)]. *)
Definition normalise_step (sorted : list (string * value))
    (kv : string * (value * value)) : list (string * value) :=
  let '(key, (candidate, normalised)) := kv in
  match candidate with
  | VUndefined => sorted
  | _ => JS.obj_set sorted key normalised
  end.

Fixpoint normaliseObject (v : value) : value :=
  match v with
  | VArr items => VArr (map normaliseObject items)
  | VObj fields =>
      VObj (fold_left normalise_step
              (sort_by_key
                 (map (fun kv => (fst kv, (snd kv, normaliseObject (snd kv))))
                      fields))
              [])
  | _ => v
  end.

Record entry : Type := {
  cached : value;            (* [value] in the source *)
  createdAt : Z;
  expiresAt : option Z;      (* [None] is [null] *)
}.

(** The cache object.  [store] is the [Map], in insertion order. *)
Record t : Type := {
  enabled : bool;
  maxEntries : Z;
  ttlMs : Z;
  store : list (string * entry);
}.

Definition with_store (c : t) (s : list (string * entry)) : t :=
  {| enabled := enabled c; maxEntries := maxEntries c; ttlMs := ttlMs c;
     store := s |}.

(** [Map.prototype.get / delete / set / has] on an insertion-ordered map. *)
Definition map_get {A} (k : string) (m : list (string * A)) : option A :=
  JS.assoc k m.

Fixpoint map_delete {A} (k : string) (m : list (string * A))
  : list (string * A) :=
  match m with
  | [] => []
  | (k', v) :: r =>
      if String.eqb k k' then r else (k', v) :: map_delete k r
  end.

Fixpoint map_set {A} (k : string) (v : A) (m : list (string * A))
  : list (string * A) :=
  match m with
  | [] => [(k, v)]
  | (k', v') :: r =>
      if String.eqb k k' then (k, v) :: r else (k', v') :: map_set k v r
  end.

Definition map_has {A} (k : string) (m : list (string * A)) : bool :=
  match map_get k m with Some _ => true | None => false end.

(** [new PromptCache(options)]. *)
Definition new (options : value) : t :=
  {| enabled :=
       match JS.prop options "enabled" with VBool true => true | _ => false end;
     maxEntries :=
       match JS.prop options "maxEntries" with
       | VNum n => if 0 <? n then n else 64
       | _ => 64
       end;
     ttlMs :=
       match JS.prop options "ttlMs" with
       | VNum n => if 0 <? n then n else 300000
       | _ => 300000
       end;
     store := [] |}.

Definition isEnabled (c : t) : bool := enabled c.

Section WithPlatform.
Context `{Platform}.

Definition stableStringify (v : value) : string :=
  JSON_stringify (normaliseObject v).

(** [buildKey(payload)]; [None] is [null].  The [try] block cannot
    throw on JSON-shaped values. *)
Definition buildKey (c : t) (payload : value) : option string :=
  if negb (enabled c) then None
  else if negb (JS.truthy payload) || negb (JS.typeof_object payload) then None
  else
    let canonical := VObj [
      ("model", JS.coalesce (JS.prop payload "model") VNull);
      ("input", JS.coalesce (JS.prop payload "input") VNull);
      ("messages",
        if JS.truthy (JS.prop payload "messages")
        then normaliseObject (JS.prop payload "messages") else VNull);
      ("tools",
        if JS.truthy (JS.prop payload "tools")
        then normaliseObject (JS.prop payload "tools") else VNull);
      ("tool_choice",
        if JS.truthy (JS.prop payload "tool_choice")
        then normaliseObject (JS.prop payload "tool_choice") else VNull);
      ("temperature", JS.coalesce (JS.prop payload "temperature") VNull);
      ("top_p", JS.coalesce (JS.prop payload "top_p") VNull);
      ("max_tokens", JS.coalesce (JS.prop payload "max_tokens") VNull)
    ] in
    let serialised := stableStringify canonical in
    Some (sha256_hex serialised).

(** [entry.expiresAt && entry.expiresAt <= now]. *)
Definition expired (now : Z) (e : entry) : bool :=
  match expiresAt e with
  | Some t => negb (t =? 0) && (t <=? now)
  | None => false
  end.

(** [pruneExpired()], with the reading of [Date.now()] it makes. *)
Definition pruneExpired (c : t) (now : Z) : t :=
  if negb (enabled c) then c
  else if ttlMs c <=? 0 then c
  else with_store c
         (List.filter (fun kv => negb (expired now (snd kv))) (store c)).

(** [typeof payloadOrKey === "string" ? payloadOrKey
     : this.buildKey(payloadOrKey)] followed by the test [!key]. *)
Definition keyOf (c : t) (payloadOrKey : value) : option string :=
  let key :=
    match payloadOrKey with
    | VStr s => Some s
    | _ => buildKey c payloadOrKey
    end in
  match key with
  | Some k => if String.eqb k "" then None else Some k
  | None => None
  end.

Record lookup_result : Type := {
  key : option string;
  found : option entry;      (* [entry] in the source *)
}.

(** [lookup(payloadOrKey)]; [t_prune] and [t_check] are the two
    readings of the clock, in the order they are made. *)
Definition lookup (c : t) (payloadOrKey : value) (t_prune t_check : Z)
  : lookup_result * t :=
  if negb (enabled c) then ({| key := None; found := None |}, c)
  else
    match keyOf c payloadOrKey with
    | None => ({| key := None; found := None |}, c)
    | Some k =>
        let c1 := pruneExpired c t_prune in
        match map_get k (store c1) with
        | None => ({| key := Some k; found := None |}, c1)
        | Some e =>
            if expired t_check e
            then ({| key := Some k; found := None |},
                  with_store c1 (map_delete k (store c1)))
            else ({| key := Some k; found := Some e |},
                  with_store c1 (map_set k e (map_delete k (store c1))))
        end
    end.

(** [fetch(payload)]; [None] is [null]. *)
Definition fetch (c : t) (payload : value) (t_prune t_check : Z)
  : option (option string * value) * t :=
  let '(r, c') := lookup c payload t_prune t_check in
  match found r with
  | None => (None, c')
  | Some e => (Some (key r, cloneValue (cached e)), c')
  end.

(** [shouldCacheResponse(response)].  Every property read has a
    receiver that the preceding tests made non-nullish. *)
Definition shouldCacheResponse (response : value) : bool :=
  if negb (JS.truthy response) then false
  else if negb match JS.prop response "ok" with VBool true => true | _ => false end
  then false
  else if negb (JS.truthy (JS.prop response "json")) then false
  else if match JS.prop response "status" with
          | VNum n => negb (n =? 200)
          | _ => false
          end
  then false
  else
    let choice :=
      JS.optProp (JS.optProp (JS.prop response "json") "choices") "0" in
    if negb (JS.truthy choice) then false
    else if match JS.optProp choice "finish_reason" with
            | VStr s => String.eqb s "tool_calls"
            | _ => false
            end
    then false
    else
      let message := JS.coalesce (JS.prop choice "message") (VObj []) in
      if match JS.prop message "tool_calls" with
         | VArr l => (0 <? length l)%nat
         | _ => false
         end
      then false
      else true.

(** The loop [while (size > maxEntries) delete the first key]. *)
Fixpoint evict (max : Z) (s : list (string * entry)) : list (string * entry) :=
  match s with
  | [] => []
  | _ :: r => if max <? Z.of_nat (length s) then evict max r else s
  end.

(** [storeResponse(payloadOrKey, response)] with its three readings of
    the clock; [None] is [null]. *)
Definition storeResponse (c : t) (payloadOrKey response : value)
    (t_prune t_created t_expiry : Z) : option string * t :=
  if negb (enabled c) then (None, c)
  else if negb (shouldCacheResponse response) then (None, c)
  else
    match keyOf c payloadOrKey with
    | None => (None, c)
    | Some k =>
        let c1 := pruneExpired c t_prune in
        let e := {| cached := cloneValue response;
                    createdAt := t_created;
                    expiresAt := if 0 <? ttlMs c then Some (t_expiry + ttlMs c)
                                 else None |} in
        let s1 := if map_has k (store c1) then map_delete k (store c1)
                  else store c1 in
        let s2 := map_set k e s1 in
        (Some k, with_store c1 (evict (maxEntries c) s2))
    end.

End WithPlatform.

End PromptCache.

(* ===================================================================== *)
(** ** Regular expressions, as far as the policy patterns need them *)
(* ===================================================================== *)

Module Regex.

Inductive t : Type :=
| Fail                      (* matches nothing *)
| Eps                       (* the empty match, also the empty group *)
| Chr (c : ascii)           (* a literal character *)
| ChrI (c : ascii)          (* a literal character under the [i] flag *)
| Space                     (* \s *)
| Word                      (* \w *)
| EndOfInput                (* $ without the [m] flag *)
| Seq (a b : t)
| Alt (a b : t)
| Star (a : t).

Definition plus (a : t) : t := Seq a (Star a).

Fixpoint lit (s : string) : t :=
  match s with
  | EmptyString => Eps
  | String c EmptyString => Chr c
  | String c r => Seq (Chr c) (lit r)
  end.

Fixpoint lit_i (s : string) : t :=
  match s with
  | EmptyString => Eps
  | String c EmptyString => ChrI c
  | String c r => Seq (ChrI c) (lit_i r)
  end.

Fixpoint seqs (l : list t) : t :=
  match l with
  | [] => Eps
  | [a] => a
  | a :: r => Seq a (seqs r)
  end.

Definition is_word (c : ascii) : bool :=
  let n := nat_of_ascii c in
  ((48 <=? n) && (n <=? 57) || (65 <=? n) && (n <=? 90)
   || (97 <=? n) && (n <=? 122) || (n =? 95))%nat.

(** Can [r] match the empty string here?  [at_end] tells whether the
    position is the end of the input. *)
Fixpoint nullable (at_end : bool) (r : t) : bool :=
  match r with
  | Fail | Chr _ | ChrI _ | Space | Word => false
  | Eps | Star _ => true
  | EndOfInput => at_end
  | Seq a b => nullable at_end a && nullable at_end b
  | Alt a b => nullable at_end a || nullable at_end b
  end.

Definition seq' (a b : t) : t :=
  match a, b with
  | Fail, _ | _, Fail => Fail
  | Eps, _ => b
  | _, _ => Seq a b
  end.

Definition alt' (a b : t) : t :=
  match a, b with
  | Fail, _ => b
  | _, Fail => a
  | _, _ => Alt a b
  end.

(** What is left of [r] after it has read [c]. *)
Fixpoint deriv (c : ascii) (r : t) : t :=
  match r with
  | Fail | Eps | EndOfInput => Fail
  | Chr a => if Ascii.eqb a c then Eps else Fail
  | ChrI a => if Ascii.eqb (JS.lower_ascii a) (JS.lower_ascii c) then Eps else Fail
  | Space => if JS.is_space c then Eps else Fail
  | Word => if is_word c then Eps else Fail
  | Seq a b =>
      alt' (seq' (deriv c a) b) (if nullable false a then deriv c b else Fail)
  | Alt a b => alt' (deriv c a) (deriv c b)
  | Star a => seq' (deriv c a) (Star a)
  end.

(** Does [r] match a prefix of [s]? *)
Fixpoint match_here (r : t) (s : string) : bool :=
  match s with
  | EmptyString => nullable true r
  | String c s' => nullable false r || match_here (deriv c r) s'
  end.

(** [regex.test(s)]: a match starting anywhere. *)
Fixpoint test (r : t) (s : string) : bool :=
  match_here r s ||
  match s with
  | EmptyString => false
  | String _ s' => test r s'
  end.

End Regex.

(* ===================================================================== *)
(** ** The policy engine *)
(* ===================================================================== *)

Module Policy.

Import Regex.

(** The eight patterns, in the order of the source. *)
Definition SHELL_BLOCKLIST_PATTERNS : list Regex.t := [
  (* rm\s+-rf\s+/(?:\s|$)   with flag i *)
  seqs [lit_i "rm"; plus Space; lit_i "-rf"; plus Space; Chr "/";
        Alt Space EndOfInput];
  (* /shutdown/i *)
  lit_i "shutdown";
  (* /reboot/i *)
  lit_i "reboot";
  (* /systemctl\s+stop/i *)
  seqs [lit_i "systemctl"; plus Space; lit_i "stop"];
  (* /mkfs\w*/i *)
  seqs [lit_i "mkfs"; Star Word];
  (* /dd\s+if=\/dev\//i *)
  seqs [lit_i "dd"; plus Space; lit_i "if=/dev/"];
  (* /:(){:|:&};:/  the braces are literal, the bar is an alternation *)
  Alt (seqs [Chr ":"; Eps; lit "{:"]) (lit ":&};:");
  (* /chown\s+-R\s+root/i *)
  seqs [lit_i "chown"; plus Space; lit_i "-R"; plus Space; lit_i "root"]
].

(** The class of the two quote characters. *)
Definition quote_class : Regex.t := Alt (Chr JS.squote) (Chr JS.dquote).

Definition PYTHON_BLOCKLIST_PATTERNS : list Regex.t := [
  (* os.remove, an opening parenthesis, a quoted slash, a closing
     parenthesis, blanks allowed around the quotes; flag i *)
  seqs [lit_i "os.remove"; Star Space; Chr "("; Star Space; quote_class;
        Chr "/"; quote_class; Star Space; Chr ")"];
  (* subprocess.call or subprocess.run, an opening parenthesis, a quote,
     rm, blanks, -rf; flag i *)
  seqs [lit_i "subprocess."; Alt (lit_i "call") (lit_i "run"); Star Space;
        Chr "("; Star Space; quote_class; lit_i "rm"; plus Space; lit_i "-rf"];
  (* shutil.rmtree, then as for os.remove; flag i *)
  seqs [lit_i "shutil.rmtree"; Star Space; Chr "("; Star Space; quote_class;
        Chr "/"; quote_class; Star Space; Chr ")"]
].

Record git_policy : Type := {
  allowPush : bool;
  allowPull : bool;
  allowCommit : bool;
}.

(** [config.policy].  The disallow list is read from the environment,
    split at commas, trimmed, and stripped of empty items. *)
Record config : Type := {
  maxToolCallsPerTurn : Z;
  disallowedTools : list string;
  git : git_policy;
}.

(** [value.split(",")]. *)
Fixpoint split_comma (s : string) : list string :=
  match s with
  | EmptyString => [EmptyString]
  | String c r =>
      if Ascii.eqb c "," then EmptyString :: split_comma r
      else match split_comma r with
           | h :: t => String c h :: t
           | [] => [String c EmptyString]
           end
  end.

(** The disallow list of the configuration:
    [process.env.POLICY_DISALLOWED_TOOLS?.split(",").map((tool) =>
    tool.trim()).filter(Boolean) ?? []]; [None] is an unset variable. *)
Definition parseDisallowedTools (env : option string) : list string :=
  match env with
  | Some text =>
      List.filter (fun tool => JS.truthy (VStr tool))
                  (map JS.trim (split_comma text))
  | None => []
  end.

(** What [evaluateToolCall] returns; an absent field is [None]. *)
Record decision : Type := {
  allowed : bool;
  reason : option string;
  status : option Z;
  code : option string;
}.

Definition allow : decision :=
  {| allowed := true; reason := None; status := None; code := None |}.

Definition deny (why : string) (st : Z) (cd : string) : decision :=
  {| allowed := false; reason := Some why; status := Some st; code := Some cd |}.

(** [matchesAny(patterns, value)]. *)
Definition matchesAny (patterns : list Regex.t) (v : value) : bool :=
  match v with
  | VStr s => existsb (fun regex => Regex.test regex s) patterns
  | _ => false
  end.

(** The command the policy looks at; joining an array converts its
    elements to strings, which can throw. *)
Definition shellCommand (args : value) : result string :=
  match JS.prop args "command" with
  | VStr s => Ok s
  | _ =>
      match JS.prop args "cmd" with
      | VStr s => Ok s
      | _ =>
          match JS.prop args "run" with
          | VStr s => Ok s
          | _ =>
              match JS.prop args "command" with
              | VArr l => JS.array_join " " l
              | _ =>
                  match JS.prop args "args" with
                  | VArr l => JS.array_join " " l
                  | _ => Ok ""
                  end
              end
          end
      end
  end.

(** [evaluateShellCall(args)]; only [allowed] and [reason] are set.
    Reading [args.command] throws when [args] is [null]. *)
Definition evaluateShellCall (args : value) : result decision :=
  let* _ := JS.getProp args "command" in
  let* command := shellCommand args in
  if negb (JS.truthy (VStr command)) then Ok allow
  else if matchesAny SHELL_BLOCKLIST_PATTERNS (VStr command)
  then Ok {| allowed := false;
             reason := Some "Command matched restricted pattern";
             status := None; code := None |}
  else Ok allow.

Definition pythonCode (args : value) : string :=
  match JS.prop args "code" with
  | VStr s => s
  | _ =>
      match JS.prop args "script" with
      | VStr s => s
      | _ =>
          match JS.prop args "input" with
          | VStr s => s
          | _ => ""
          end
      end
  end.

Definition evaluatePythonCall (args : value) : result decision :=
  let* _ := JS.getProp args "code" in
  let code := pythonCode args in
  if negb (JS.truthy (VStr code)) then Ok allow
  else if matchesAny PYTHON_BLOCKLIST_PATTERNS (VStr code)
  then Ok {| allowed := false;
             reason := Some "Python code matched restricted pattern";
             status := None; code := None |}
  else Ok allow.

(** [toolName === "..."]. *)
Definition is_str (v : value) (s : string) : bool :=
  match v with VStr x => String.eqb x s | _ => false end.

(** [call?.function?.name ?? call?.name]. *)
Definition toolNameOf (call : value) : value :=
  JS.coalesce (JS.optProp (JS.optProp call "function") "name")
              (JS.optProp call "name").

Section WithConfig.
Context `{Platform}.
Variable cfg : config.

(** The policy's own [parseArguments(call)]. *)
Definition parseArguments (call : value) : value :=
  match JS.optProp (JS.optProp call "function") "arguments" with
  | VStr raw =>
      match JSON_parse raw with
      | Some v => v
      | None => VObj []
      end
  | _ => VObj []
  end.

Definition isToolAllowed (toolName : value) : bool :=
  if negb (JS.truthy toolName) then true
  else
    match toolName with
    | VStr s => negb (existsb (String.eqb s) (disallowedTools cfg))
    | _ => true
    end.

(** [evaluateToolCall({ call, toolCallsExecuted })]. *)
Definition evaluateToolCall (call : value) (toolCallsExecuted : Z)
  : result decision :=
  let toolName := toolNameOf call in
  if negb (isToolAllowed toolName)
  then
    let* shown := JS.toString toolName in
    Ok (deny ("Tool " +:+ shown +:+ " is disallowed by policy")
             403 "tool_disallowed")
  else
    let maxToolCalls := maxToolCallsPerTurn cfg in
    if maxToolCalls <=? toolCallsExecuted
    then Ok (deny ("Exceeded max tool calls (" +:+ JS.decimal maxToolCalls +:+ ")")
                  429 "tool_limit_reached")
    else
      let args := parseArguments call in
      let* gitVerdict :=
        if JS.truthy toolName then
          match toolName with
          | VStr name =>
              if JS.startsWith "workspace_git_" name then
                if String.eqb name "workspace_git_push" && negb (allowPush (git cfg))
                then Ok (Some (deny "Git push is disabled by policy."
                                    403 "git_push_disabled"))
                else if String.eqb name "workspace_git_pull" && negb (allowPull (git cfg))
                then Ok (Some (deny "Git pull is disabled by policy."
                                    403 "git_pull_disabled"))
                else if String.eqb name "workspace_git_commit" && negb (allowCommit (git cfg))
                then Ok (Some (deny "Git commit is disabled by policy."
                                    403 "git_commit_disabled"))
                else Ok None
              else Ok None
          | _ => Throw (JS.TypeError "toolName.startsWith is not a function")
          end
        else Ok None in
      match gitVerdict with
      | Some d => Ok d
      | None =>
          let* shellVerdict :=
            if is_str toolName "shell" then
              let* d := evaluateShellCall args in
              if negb (allowed d)
              then Ok (Some {| allowed := false; reason := reason d;
                               status := Some 403;
                               code := Some "unsafe_shell_command" |})
              else Ok None
            else Ok None in
          match shellVerdict with
          | Some d => Ok d
          | None =>
              let* pythonVerdict :=
                if is_str toolName "python_exec" then
                  let* d := evaluatePythonCall args in
                  if negb (allowed d)
                  then Ok (Some {| allowed := false; reason := reason d;
                                   status := Some 403;
                                   code := Some "unsafe_python_code" |})
                  else Ok None
                else Ok None in
              match pythonVerdict with
              | Some d => Ok d
              | None => Ok allow
              end
          end
      end.

End WithConfig.

End Policy.

(* ===================================================================== *)
(** ** The tool registry: [src/tools/index.js] *)
(* ===================================================================== *)

Module Tools.

Definition TOOL_ALIASES : list (string * string) := [
  ("bash", "shell"); ("shell", "shell"); ("sh", "shell"); ("terminal", "shell");
  ("grep", "workspace_search"); ("search", "workspace_search");
  ("find", "workspace_search");
  ("websearch", "web_search"); ("web_search", "web_search");
  ("Web Search", "web_search"); ("WebSearch", "web_search");
  ("web_fetch", "web_fetch"); ("webfetch", "web_fetch");
  ("task", "fs_write"); ("write", "fs_write"); ("filewrite", "fs_write");
  ("read", "fs_read"); ("fileread", "fs_read");
  ("patch", "edit_patch"); ("edit", "edit_patch");
  ("list", "workspace_list"); ("ls", "workspace_list"); ("dir", "workspace_list");
  ("summary", "project_summary"); ("projectsummary", "project_summary");
  ("overview", "project_summary");
  ("reindex", "workspace_index_rebuild"); ("index", "workspace_index_rebuild");
  ("scan", "workspace_index_rebuild");
  ("history", "workspace_edit_history"); ("edits", "workspace_edit_history");
  ("undo", "workspace_edit_revert"); ("revert", "workspace_edit_revert");
  ("diff", "workspace_diff");
  ("diffsummary", "workspace_diff_summary");
  ("summarizediff", "workspace_diff_summary");
  ("diffsum", "workspace_diff_summary");
  ("symbol", "workspace_symbol_search"); ("symbols", "workspace_symbol_search");
  ("findsymbol", "workspace_symbol_search");
  ("symbolsearch", "workspace_symbol_search");
  ("references", "workspace_symbol_references");
  ("ref", "workspace_symbol_references");
  ("findreferences", "workspace_symbol_references");
  ("usages", "workspace_symbol_references");
  ("status", "workspace_git_status"); ("stage", "workspace_git_stage");
  ("unstage", "workspace_git_unstage"); ("commit", "workspace_git_commit");
  ("push", "workspace_git_push"); ("pull", "workspace_git_pull");
  ("branches", "workspace_git_branches"); ("checkout", "workspace_git_checkout");
  ("branch", "workspace_git_checkout"); ("stash", "workspace_git_stash");
  ("review", "workspace_diff_review");
  ("releasenotes", "workspace_release_notes");
  ("diffstat", "workspace_diff_by_commit");
  ("merge", "workspace_git_merge"); ("rebase", "workspace_git_rebase");
  ("conflicts", "workspace_git_conflicts");
  ("patchplan", "workspace_git_patch_plan");
  ("changelog", "workspace_changelog_generate");
  ("prtemplate", "workspace_pr_template_generate");
  ("sandbox", "workspace_sandbox_sessions");
  ("mcpsessions", "workspace_sandbox_sessions");
  ("mcpservers", "workspace_mcp_servers");
  ("tests", "workspace_test_summary"); ("testrun", "workspace_test_run");
  ("runtests", "workspace_test_run"); ("testsummary", "workspace_test_summary");
  ("testhistory", "workspace_test_history")
].

(** A handler takes the call object and the context; [Throw] stands for
    a thrown exception and for a rejected promise alike. *)
Definition handler : Type := value -> value -> result value.

Record registered : Type := {
  run : handler;             (* [handler] in the source *)
  options : value;
}.

Record lowercase_entry : Type := {
  lc_run : handler;
  lc_options : value;
  original : string;
}.

(** The two module-level maps. *)
Record state : Type := {
  registry : gmap string registered;
  registryLowercase : gmap string lowercase_entry;
}.

Definition empty : state := {| registry := ∅; registryLowercase := ∅ |}.

(** [TOOL_ALIASES[key]] is read with [JS.assoc].  The inherited members of
    the table ([constructor] and the like) are not strings, no tool is
    registered under them, and both resolvers then go on as they do when
    the table has no entry. *)

(** [Map.prototype.get] with an arbitrary key: the keys are strings. *)
Definition map_get {A} (m : gmap string A) (k : value) : option A :=
  match k with
  | VStr s => m !! s
  | _ => None
  end.

(** [name.toLowerCase()] as a method call on an arbitrary value. *)
Definition call_toLowerCase (name : value) : result string :=
  match name with
  | VStr s => Ok (JS.toLowerCase s)
  | VUndefined | VNull =>
      Throw (JS.TypeError "Cannot read properties of undefined (reading 'toLowerCase')")
  | _ => Throw (JS.TypeError "name.toLowerCase is not a function")
  end.

(** [registerTool(name, handler, options)]; the handler is a function. *)
Definition registerTool (st : state) (name : string) (h : handler)
    (opts : value) : result state :=
  if String.eqb name ""
  then Throw (JS.Error "Tool name must be a non-empty string.")
  else Ok {| registry := <[name := {| run := h; options := opts |}]> (registry st);
             registryLowercase :=
               <[JS.toLowerCase name :=
                   {| lc_run := h; lc_options := opts; original := name |}]>
                 (registryLowercase st) |}.

Definition hasTool (st : state) (name : value) : bool :=
  match map_get (registry st) name with Some _ => true | None => false end.

(** [getTool(name)]; [None] is [undefined]. *)
Definition getTool (st : state) (name : value) : result (option registered) :=
  if negb (JS.truthy name) then Ok None
  else
    match map_get (registry st) name with
    | Some direct => Ok (Some direct)
    | None =>
        let* lowerName := call_toLowerCase name in
        match registryLowercase st !! lowerName with
        | Some lower => Ok (registry st !! original lower)
        | None =>
            match JS.assoc lowerName TOOL_ALIASES with
            | Some aliasTarget => Ok (registry st !! aliasTarget)
            | None => Ok None
            end
        end
    end.

(** The own enumerable properties that [{...v}] copies. *)
Definition spread (v : value) : list (string * value) :=
  match v with
  | VObj fs => fs
  | VArr l => combine (map (fun i => JS.decimal (Z.of_nat i)) (seq 0 (length l))) l
  | VStr s =>
      combine (map (fun i => JS.decimal (Z.of_nat i)) (seq 0 (String.length s)))
              (map (fun c => VStr (String c EmptyString)) (list_ascii_of_string s))
  | _ => []
  end.

Record formatted : Type := {
  f_ok : value;
  f_status : value;
  f_content : string;
  f_metadata : value;
}.

(** What [executeToolCall] resolves to. *)
Record tool_result : Type := {
  id : value;
  name : value;
  arguments : value;
  ok : value;
  status : value;
  content : string;
  metadata : value;
  error : option value;
}.

(** [call?.function?.name ?? call?.name]. *)
Definition toolNameOf (call : value) : value :=
  JS.coalesce (JS.optProp (JS.optProp call "function") "name")
              (JS.optProp call "name").

Record normalised_call : Type := {
  nc_id : value;
  nc_name : value;
  nc_arguments : value;
  nc_raw : value;
}.

Section WithPlatform.
Context `{Platform}.

Definition coerceString (v : value) : string :=
  match v with
  | VUndefined | VNull => ""
  | VStr s => s
  | _ => JSON_stringify_pretty v
  end.

Definition normalizeHandlerResult (r : value) : formatted :=
  match r with
  | VStr s =>
      {| f_ok := VBool true; f_status := VNum 200; f_content := s;
         f_metadata := VObj [] |}
  | VUndefined | VNull =>
      {| f_ok := VBool true; f_status := VNum 200; f_content := "";
         f_metadata := VObj [] |}
  | _ =>
      let ok := JS.coalesce (JS.prop r "ok") (VBool true) in
      let status :=
        JS.coalesce (JS.prop r "status")
                    (if JS.truthy ok then VNum 200 else VNum 500) in
      let content :=
        coerceString
          (JS.coalesce
             (JS.coalesce (JS.coalesce (JS.prop r "content") (JS.prop r "output"))
                          (JS.prop r "data"))
             (VStr "")) in
      let metadata := JS.coalesce (JS.prop r "metadata") (VObj []) in
      {| f_ok := ok; f_status := status; f_content := content;
         f_metadata := metadata |}
  end.

(** The registry's own [parseArguments(call)]. *)
Definition parseArguments (call : value) : value :=
  match JS.optProp (JS.optProp call "function") "arguments" with
  | VStr raw =>
      if (String.length (JS.trim raw) =? 0)%nat then VObj []
      else match JSON_parse raw with
           | Some v => v
           | None => VObj []
           end
  | _ => VObj []
  end.

(** [call?.id ?? `${name ?? "tool"}_${Date.now()}`]; [now] is the reading
    of [Date.now()].  The template literal is evaluated only when the call
    has no id, and converts the name to a string. *)
Definition callId (call : value) (now : Z) : result value :=
  if JS.nullish (JS.optProp call "id")
  then
    let* shown := JS.toString (JS.coalesce (toolNameOf call) (VStr "tool")) in
    Ok (VStr (shown +:+ "_" +:+ JS.decimal now))
  else Ok (JS.optProp call "id").

(** [normaliseToolCall(call)]. *)
Definition normaliseToolCall (call : value) (now : Z) : result normalised_call :=
  let name := toolNameOf call in
  let* id := callId call now in
  Ok {| nc_id := id; nc_name := name; nc_arguments := parseArguments call;
        nc_raw := call |}.

(** [executeToolCall(call, context)].  The function is [async]: [Throw]
    is a rejected promise, [Ok] the value it resolves to. *)
Definition executeToolCall (st : state) (call context : value) (now : Z)
  : result tool_result :=
  let* normalisedCall := normaliseToolCall call now in
  let registered0 := map_get (registry st) (nc_name normalisedCall) in
  (* if (!registered) { alias table } *)
  let* afterAlias :=
    match registered0 with
    | Some r => Ok (Some r, nc_name normalisedCall)
    | None =>
        let* lowerName := call_toLowerCase (nc_name normalisedCall) in
        match JS.assoc lowerName TOOL_ALIASES with
        | Some aliasTarget =>
            match registry st !! aliasTarget with
            | Some r => Ok (Some r, VStr aliasTarget)
            | None => Ok (None, nc_name normalisedCall)
            end
        | None => Ok (None, nc_name normalisedCall)
        end
    end in
  (* if (!registered) { lowercase map } *)
  let* afterLower :=
    match fst afterAlias with
    | Some r => Ok afterAlias
    | None =>
        let* lowerName := call_toLowerCase (snd afterAlias) in
        match registryLowercase st !! lowerName with
        | Some lowerEntry =>
            Ok (registry st !! original lowerEntry,
                VStr (original lowerEntry))
        | None => Ok afterAlias
        end
    end in
  let toolName := snd afterLower in
  match fst afterLower with
  | None =>
      Ok {| id := nc_id normalisedCall;
            name := toolName;
            arguments := nc_arguments normalisedCall;
            ok := VBool false;
            status := VNum 404;
            content := coerceString
                         (VObj [("error", VStr "tool_not_registered");
                                ("tool", toolName);
                                ("input", nc_arguments normalisedCall)]);
            metadata := VObj [("registered", VBool false)];
            error := None |}
  | Some r =>
      match run r (VObj [("id", nc_id normalisedCall);
                         ("name", toolName);
                         ("args", nc_arguments normalisedCall);
                         ("raw", nc_raw normalisedCall)])
                  context with
      | Ok res =>
          let f := normalizeHandlerResult res in
          Ok {| id := nc_id normalisedCall;
                name := toolName;
                arguments := nc_arguments normalisedCall;
                ok := f_ok f;
                status := f_status f;
                content := f_content f;
                metadata :=
                  VObj (JS.obj_define
                          (spread (JS.coalesce (f_metadata f) (VObj [])))
                          "registered" (VBool true));
                error := None |}
      | Throw err =>
          (* the catch block reads [err.message] *)
          let* message := JS.getProp err "message" in
          Ok {| id := nc_id normalisedCall;
                name := toolName;
                arguments := nc_arguments normalisedCall;
                ok := VBool false;
                status := VNum 500;
                content := coerceString
                             (VObj [("error", VStr "tool_execution_failed");
                                    ("tool", toolName);
                                    ("message", message)]);
                metadata := VObj [("registered", VBool true);
                                  ("error", VBool true)];
                error := Some err |}
      end
  end.

End WithPlatform.

(** The id that [normaliseToolCall] gives a call whose name is the
    string [s]. *)
Definition namedCallId (call : value) (now : Z) (s : string) : value :=
  JS.coalesce (JS.optProp call "id") (VStr (s +:+ "_" +:+ JS.decimal now)).

End Tools.

(* ===================================================================== *)
(** ** Workspace paths: [src/workspace/index.js] *)
(* ===================================================================== *)

(** [path.resolve] of Node.js on a POSIX host. *)
Module Path.

Definition is_slash (c : ascii) : bool := Ascii.eqb c "/".

(** The segments between the slashes. *)
Fixpoint segments (s : string) : list string :=
  match s with
  | EmptyString => [EmptyString]
  | String c r =>
      if is_slash c then EmptyString :: segments r
      else match segments r with
           | h :: t => String c h :: t
           | [] => [String c EmptyString]
           end
  end.

(** One segment against the segments kept so far (innermost first). *)
Definition push_segment (allowAboveRoot : bool) (kept : list string)
    (seg : string) : list string :=
  if String.eqb seg "" || String.eqb seg "." then kept
  else if String.eqb seg ".." then
    match kept with
    | top :: below =>
        if String.eqb top ".." then seg :: kept else below
    | [] => if allowAboveRoot then [seg] else []
    end
  else seg :: kept.

(** [normalizeString(path, allowAboveRoot, "/")]. *)
Definition normalizeString (path : string) (allowAboveRoot : bool) : string :=
  JS.join "/" (rev (fold_left (push_segment allowAboveRoot) (segments path) [])).

Definition isAbsolute (p : string) : bool :=
  match p with
  | String c _ => is_slash c
  | EmptyString => false
  end.

(** The right-to-left scan of [resolve]: the arguments come last first,
    the working directory after them. *)
Fixpoint scan (from_right : list string) (resolvedPath : string) : string * bool :=
  match from_right with
  | [] => (resolvedPath, false)
  | p :: r =>
      if String.eqb p "" then scan r resolvedPath
      else
        let resolvedPath' := p +:+ "/" +:+ resolvedPath in
        if isAbsolute p then (resolvedPath', true) else scan r resolvedPath'
  end.

Definition resolve (cwd : string) (args : list string) : string :=
  let '(resolvedPath, resolvedAbsolute) := scan (rev args ++ [cwd]) "" in
  let normalised := normalizeString resolvedPath (negb resolvedAbsolute) in
  if resolvedAbsolute then "/" +:+ normalised
  else if String.eqb normalised "" then "." else normalised.

End Path.

Module Workspace.

Section WithRoot.
(** [process.cwd()] and [config.workspace.root]. *)
Variable cwd : string.
Variable configRoot : string.

Definition workspaceRoot : string := Path.resolve cwd [configRoot].

(** [resolveWorkspacePath(targetPath)]. *)
Definition resolveWorkspacePath (targetPath : value) : result string :=
  match targetPath with
  | VStr p =>
      if String.eqb p ""
      then Throw (JS.Error "Path must be a non-empty string.")
      else
        let resolved := Path.resolve cwd [workspaceRoot; p] in
        if negb (JS.startsWith workspaceRoot resolved)
        then Throw (JS.Error "Access outside workspace is not permitted.")
        else Ok resolved
  | _ => Throw (JS.Error "Path must be a non-empty string.")
  end.

End WithRoot.

(** A normalised absolute path lies within the directory [root] when it is
    [root] itself or continues it after a separator. *)
Definition within (root p : string) : bool :=
  String.eqb p root
  || JS.startsWith (if String.eqb root "/" then "/" else root +:+ "/") p.

End Workspace.

(* ===================================================================== *)
(** ** The MCP client: [src/mcp/client.js] *)
(* ===================================================================== *)

Module Mcp.

(** How the promise returned by a [request] ended. *)
Inductive outcome : Type :=
| Resolved (v : value)
| Rejected (e : value).

(** The fields of the client, and what it did to the outside: the
    promises it settled (by request id), the lines it wrote to the
    child's stdin and the events it emitted. *)
Record client : Type := {
  server : value;
  process : bool;                    (* [this.process] is not [null] *)
  readInterface : bool;              (* [this.readInterface] is not [null] *)
  nextId : Z;
  pending : gmap Z unit;             (* id to { resolve, reject } *)
  started : bool;
  closed : bool;
  settled : gmap Z outcome;
  written : list string;
  emitted : list (string * value);
}.

(** [new McpClient(serverConfig)]. *)
Definition new (serverConfig : value) : result client :=
  if negb (JS.truthy serverConfig) || negb (JS.typeof_object serverConfig)
  then Throw (JS.Error "McpClient requires a server configuration object.")
  else Ok {| server := serverConfig;
             process := false; readInterface := false; nextId := 1;
             pending := ∅; started := false; closed := false;
             settled := ∅; written := []; emitted := [] |}.

(** A promise is settled once; later calls of its functions do nothing. *)
Definition settle (id : Z) (o : outcome) (s : gmap Z outcome) : gmap Z outcome :=
  match s !! id with
  | Some _ => s
  | None => <[id := o]> s
  end.

(** [normaliseError(error)].  [new Error(message)] converts the message
    to a string, which can throw.  An [Error] is modelled by the object of
    its [message], [code] and [data], so that returning an instance of
    [Error] as it is and building one from its fields give the same value. *)
Definition normaliseError (error : value) : result value :=
  match error with
  | VObj _ | VArr _ =>
      let* message :=
        JS.toString (JS.coalesce (JS.prop error "message")
                                 (VStr "MCP request failed")) in
      Ok (VObj ([("message", VStr message)]
                ++ match JS.prop error "code" with
                   | VUndefined => []
                   | c => [("code", c)]
                   end
                ++ match JS.prop error "data" with
                   | VUndefined => []
                   | d => [("data", d)]
                   end))
  | VStr s => Ok (JS.Error s)
  | _ => Ok (JS.Error "MCP request failed")
  end.

Definition newline : string := String "010"%char EmptyString.

(** [new Error(`MCP server "${this.server.id}"<rest>`)], or what the
    conversion of the id throws. *)
Definition server_error (c : client) (rest : string) : value :=
  match JS.toString (JS.prop (server c) "id") with
  | Ok id =>
      JS.Error ("MCP server " +:+ String JS.dquote id
                +:+ String JS.dquote EmptyString +:+ rest)
  | Throw e => e
  end.

(** A parameter with the default [{}]: [undefined] takes the default. *)
Definition or_empty_object (params : value) : value :=
  match params with
  | VUndefined => VObj []
  | _ => params
  end.

Definition with_pending (c : client) (next : Z) (p : gmap Z unit)
    (s : gmap Z outcome) (w : list string) : client :=
  {| server := server c; process := process c;
     readInterface := readInterface c; nextId := next; pending := p;
     started := started c; closed := closed c; settled := s;
     written := w; emitted := emitted c |}.

(** What [this.process.stdin.write(...)] throws, if anything:
    [write_error] is the exception of the stream, if it raises one. *)
Definition write_failure (c : client) (write_error : option value)
  : option value :=
  if process c then write_error
  else Some (JS.TypeError "Cannot read properties of null (reading 'stdin')").

Section WithPlatform.
Context `{Platform}.

(** [request(method, params = {})].  [Throw] is the synchronous
    exception; [Ok id] returns the promise of request [id].  When the write
    to the child's stdin throws, the executor removes the request and
    rejects the promise. *)
Definition request (c : client) (method params : value) (write_error : option value)
  : result Z * client :=
  if negb (started c)
  then (Throw (server_error c " is not started."), c)
  else if closed c
  then (Throw (server_error c " connection is closed."), c)
  else
    let id := nextId c in
    let payload := VObj [("jsonrpc", VStr "2.0"); ("id", VNum id);
                         ("method", method);
                         ("params", or_empty_object params)] in
    match write_failure c write_error with
    | None =>
        (Ok id,
         with_pending c (id + 1) (<[id := tt]> (pending c)) (settled c)
           (written c ++ [JSON_stringify payload +:+ newline]))
    | Some err =>
        (Ok id,
         with_pending c (id + 1) (delete id (<[id := tt]> (pending c)))
           (settle id (Rejected err) (settled c))
           (written c))
    end.

(** [handleMessage(message)]: the client after the call.  A response
    removes its request from [pending] before it settles the promise; when
    [normaliseError] throws, the exception leaves [handleMessage] there,
    with the request removed and its promise not settled. *)
Definition handleMessage (c : client) (message : value) : client :=
  if negb (JS.typeof_object message) || negb (JS.truthy message) then c
  else if JS.hasOwn message "id" then
    match JS.prop message "id" with
    | VNum id =>
        match pending c !! id with
        | None => c
        | Some _ =>
            let removed := delete id (pending c) in
            if JS.hasOwn message "error" && JS.truthy (JS.prop message "error")
            then
              match normaliseError (JS.prop message "error") with
              | Ok err =>
                  with_pending c (nextId c) removed
                    (settle id (Rejected err) (settled c)) (written c)
              | Throw _ =>
                  with_pending c (nextId c) removed (settled c) (written c)
              end
            else
              with_pending c (nextId c) removed
                (settle id (Resolved (JS.prop message "result")) (settled c))
                (written c)
        end
    | _ => c
    end
  else
    {| server := server c; process := process c;
       readInterface := readInterface c;
       nextId := nextId c; pending := pending c;
       started := started c; closed := closed c;
       settled := settled c; written := written c;
       emitted := emitted c ++ [("notification", message)] |}.

(** [initialize()]: the request, with any exception caught and logged. *)
Definition initialize (c : client) (write_error : option value) : client :=
  snd (request c (VStr "initialize")
         (VObj [("capabilities", VObj []);
                ("clientInfo", VObj [("name", VStr "claude-code-proxy");
                                     ("version", VStr "0.1.0")])])
         write_error).

(** [start()].  [spawn_error] is what [spawn] throws, if anything (it does
    on a command that is not a string); [write_error] is for the write of
    [initialize]. *)
Definition start (c : client) (spawn_error write_error : option value)
  : result unit * client :=
  if started c then (Ok tt, c)
  else if negb (JS.truthy (JS.prop (server c) "command"))
  then (Throw (server_error c " is missing a command."), c)
  else
    match spawn_error with
    | Some err => (Throw err, c)
    | None =>
        let c1 :=
          {| server := server c; process := true; readInterface := true;
             nextId := nextId c; pending := pending c;
             started := true; closed := closed c;
             settled := settled c; written := written c;
             emitted := emitted c |} in
        (Ok tt, initialize c1 write_error)
    end.

(** [notify(method, params = {})]. *)
Definition notify (c : client) (method params : value) (write_error : option value)
  : client :=
  if negb (started c) || closed c then c
  else
    match write_failure c write_error with
    | None =>
        with_pending c (nextId c) (pending c) (settled c)
          (written c ++
           [JSON_stringify (VObj [("jsonrpc", VStr "2.0"); ("method", method);
                                  ("params", or_empty_object params)])
            +:+ newline])
    | Some _ => c
    end.

(** The argument of the [close] event: [err ? normaliseError(err) : null];
    [None] when [normaliseError] throws. *)
Definition close_event (err : value) : option value :=
  if JS.truthy err
  then match normaliseError err with
       | Ok e => Some e
       | Throw _ => None
       end
  else Some VNull.

(** [close(err)]: the client after the call; [err] is [VUndefined] when
    the call has no argument.  The event is emitted last: when
    [normaliseError] throws, the promise of [close] is rejected and the
    client is closed without a [close] event. *)
Definition close (c : client) (err : value) : client :=
  if closed c then c
  else
    let reason := JS.coalesce err (JS.Error "MCP connection closed") in
    {| server := server c; process := false; readInterface := false;
       nextId := nextId c;
       pending := ∅;
       started := started c; closed := true;
       (* every pending [reject] is called; a promise that is already
          settled stays as it is *)
       settled := settled c ∪ ((fun _ => Rejected reason) <$> pending c);
       written := written c;
       emitted := emitted c ++
         match close_event err with
         | Some e => [("close", e)]
         | None => []
         end |}.

(** What can happen to a client. *)
Inductive event : Type :=
| EStart (spawn_error write_error : option value)
| ERequest (method params : value) (write_error : option value)
| ENotify (method params : value) (write_error : option value)
| EMessage (message : value)       (* a line of the child's stdout *)
| EClose (err : value).            (* [close], child exit or error *)

Definition step (c : client) (e : event) : client :=
  match e with
  | EStart s w => snd (start c s w)
  | ERequest m p w => snd (request c m p w)
  | ENotify m p w => notify c m p w
  | EMessage msg => handleMessage c msg
  | EClose err => close c err
  end.

Definition run (c : client) (es : list event) : client :=
  fold_left step es c.

End WithPlatform.

End Mcp.

(* ===================================================================== *)
(** ** A platform to run the model on examples *)
(* ===================================================================== *)

(** A concrete [Platform]: a compact JSON printer and a reader for
    the JSON texts that tool calls carry (integers, strings with the
    backslash escapes of the quote, the backslash and the slash, arrays,
    objects), and a digest that keeps its input.  The properties below
    hold for every platform; this one serves to evaluate the definitions on
    concrete calls. *)
Module Demo.

Definition q : string := String JS.dquote EmptyString.

Definition quoted (s : string) : string := q +:+ s +:+ q.

Fixpoint escape (s : string) : string :=
  match s with
  | EmptyString => EmptyString
  | String c r =>
      if Ascii.eqb c JS.dquote || Ascii.eqb c "\"
      then String "\" (String c (escape r))
      else String c (escape r)
  end.

Fixpoint render (v : value) : string :=
  match v with
  | VUndefined | VNull => "null"
  | VBool true => "true"
  | VBool false => "false"
  | VNum n => JS.decimal n
  | VStr s => quoted (escape s)
  | VArr l => "[" +:+ JS.join "," (map render l) +:+ "]"
  | VObj fs =>
      "{" +:+
      JS.join ","
        (omap (fun x => x)
           (map (fun kv =>
                   match snd kv with
                   | VUndefined => None
                   | _ => Some (quoted (escape (fst kv)) +:+ ":"
                                +:+ render (snd kv))
                   end) fs))
      +:+ "}"
  end.

Fixpoint skip_ws (s : string) : string :=
  match s with
  | String c r => if JS.is_space c then skip_ws r else s
  | EmptyString => s
  end.

(** The text of a string literal after its opening quote, and the rest. *)
Fixpoint parse_string_body (s : string) : option (string * string) :=
  match s with
  | EmptyString => None
  | String c r =>
      if Ascii.eqb c JS.dquote then Some (EmptyString, r)
      else if Ascii.eqb c "\" then
        match r with
        | String e r' =>
            if Ascii.eqb e JS.dquote || Ascii.eqb e "\" || Ascii.eqb e "/"
            then match parse_string_body r' with
                 | Some (x, rest) => Some (String e x, rest)
                 | None => None
                 end
            else None
        | EmptyString => None
        end
      else match parse_string_body r with
           | Some (x, rest) => Some (String c x, rest)
           | None => None
           end
  end.

Fixpoint parse_digits_prefix (acc : Z) (s : string) : Z * string :=
  match s with
  | String c r =>
      match JS.digit_of c with
      | Some d => parse_digits_prefix (10 * acc + d) r
      | None => (acc, s)
      end
  | EmptyString => (acc, s)
  end.

Fixpoint drop (n : nat) (s : string) : string :=
  match n, s with
  | S m, String _ r => drop m r
  | _, _ => s
  end.

Fixpoint parse_value (fuel : nat) (s : string) : option (value * string) :=
  match fuel with
  | O => None
  | S fuel' =>
      match skip_ws s with
      | EmptyString => None
      | String c r =>
          if Ascii.eqb c "{" then
            match skip_ws r with
            | String "}" r' => Some (VObj [], r')
            | _ => parse_members fuel' r []
            end
          else if Ascii.eqb c "[" then
            match skip_ws r with
            | String "]" r' => Some (VArr [], r')
            | _ => parse_elements fuel' r []
            end
          else if Ascii.eqb c JS.dquote then
            match parse_string_body r with
            | Some (x, rest) => Some (VStr x, rest)
            | None => None
            end
          else if JS.startsWith "null" (String c r) then Some (VNull, drop 3 r)
          else if JS.startsWith "true" (String c r) then Some (VBool true, drop 3 r)
          else if JS.startsWith "false" (String c r) then Some (VBool false, drop 4 r)
          else if Ascii.eqb c "-" then
            match r with
            | String d _ =>
                match JS.digit_of d with
                | Some _ => let '(n, rest) := parse_digits_prefix 0 r in
                            Some (VNum (- n), rest)
                | None => None
                end
            | EmptyString => None
            end
          else match JS.digit_of c with
               | Some _ => let '(n, rest) := parse_digits_prefix 0 (String c r) in
                           Some (VNum n, rest)
               | None => None
               end
      end
  end
with parse_elements (fuel : nat) (s : string) (acc : list value)
  : option (value * string) :=
  match fuel with
  | O => None
  | S fuel' =>
      match parse_value fuel' s with
      | Some (v, rest) =>
          match skip_ws rest with
          | String "," r => parse_elements fuel' r (acc ++ [v])
          | String "]" r => Some (VArr (acc ++ [v]), r)
          | _ => None
          end
      | None => None
      end
  end
with parse_members (fuel : nat) (s : string) (acc : list (string * value))
  : option (value * string) :=
  match fuel with
  | O => None
  | S fuel' =>
      match skip_ws s with
      | String c r =>
          if Ascii.eqb c JS.dquote then
            match parse_string_body r with
            | Some (k, rest) =>
                match skip_ws rest with
                | String ":" r2 =>
                    match parse_value fuel' r2 with
                    | Some (v, rest2) =>
                        match skip_ws rest2 with
                        | String "," r3 =>
                            parse_members fuel' r3 (JS.obj_define acc k v)
                        | String "}" r3 =>
                            Some (VObj (JS.obj_define acc k v), r3)
                        | _ => None
                        end
                    | None => None
                    end
                | _ => None
                end
            | None => None
            end
          else None
      | EmptyString => None
      end
  end.

Definition parse (s : string) : option value :=
  match parse_value (2 * String.length s + 2) s with
  | Some (v, rest) =>
      match skip_ws rest with
      | EmptyString => Some v
      | _ => None
      end
  | None => None
  end.

Definition platform : Platform :=
  {| sha256_hex := fun s => "sha256:" +:+ s;
     JSON_stringify := render;
     JSON_stringify_pretty := render;
     JSON_parse := parse |}.

End Demo.


(* ===================================================================== *)
(** ** Vocabulary of the properties *)
(* ===================================================================== *)

Module CacheSpec.

Import PromptCache.

(** The keys of the store are distinct, the capacity is positive and
    respected.  [new] establishes this and every method keeps it. *)
Definition cache_inv (c : t) : Prop :=
  NoDup (map fst (store c)) /\
  0 < maxEntries c /\
  Z.of_nat (length (store c)) <= maxEntries c.

(** No entry of the store has expired at [now]. *)
Definition unexpired (now : Z) (s : list (string * entry)) : Prop :=
  Forall (fun kv => expired now (snd kv) = false) s.

(** One call of [storeResponse] with a key given as a string. *)
Record write : Type := {
  w_key : string;
  w_response : value;
  w_prune : Z;
  w_created : Z;
  w_expiry : Z;
}.

(** [response.json?.choices?.[0]] and [choice.message ?? {}]. *)
Definition first_choice (response : value) : value :=
  JS.optProp (JS.optProp (JS.prop response "json") "choices") "0".

Definition choice_message (response : value) : value :=
  JS.coalesce (JS.prop (first_choice response) "message") (VObj []).

(** The admission rule in the words of the specification: [ok] is true,
    the status is 200, the first choice's message has no tool-call list. *)
Definition spec_admissible (response : value) : Prop :=
  JS.prop response "ok" = VBool true /\
  JS.prop response "status" = VNum 200 /\
  ~ (exists l, JS.prop (JS.prop (first_choice response) "message") "tool_calls"
               = VArr l).

(** The admission rule that [shouldCacheResponse] applies. *)
Definition admissible (response : value) : Prop :=
  JS.prop response "ok" = VBool true /\
  JS.truthy (JS.prop response "json") = true /\
  (forall n, JS.prop response "status" = VNum n -> n = 200) /\
  JS.truthy (first_choice response) = true /\
  JS.optProp (first_choice response) "finish_reason" <> VStr "tool_calls" /\
  (forall l, JS.prop (choice_message response) "tool_calls" = VArr l -> l = []).

(** The loop of [normaliseObject] on keys paired with normalised values:
    a value is [undefined] exactly when its normal form is. *)
Definition store_normalised (sorted : list (string * value))
    (kv : string * value) : list (string * value) :=
  match snd kv with
  | VUndefined => sorted
  | _ => JS.obj_set sorted (fst kv) (snd kv)
  end.

(** The eight fields of a request that the key is built from. *)
Definition KEY_FIELDS : list string :=
  ["model"; "input"; "messages"; "tools"; "tool_choice"; "temperature";
   "top_p"; "max_tokens"].

(** A request body: an object (or array), the only payloads [buildKey]
    gives a key to. *)
Definition is_body (payload : value) : Prop :=
  JS.truthy payload = true /\ JS.typeof_object payload = true.

Section WithPlatform.
Context `{Platform}.

(** [storeResponse] admitted the response: it returned a key under which
    the store now holds the response. *)
Definition admitted (c : t) (payloadOrKey response : value)
    (t_prune t_created t_expiry : Z) : Prop :=
  let r := storeResponse c payloadOrKey response t_prune t_created t_expiry in
  exists k e, fst r = Some k /\ map_get k (store (snd r)) = Some e /\
              cached e = response.

(** A sequence of writes, one after the other. *)
Definition store_all (c : t) (ws : list write) : t :=
  fold_left
    (fun c w => snd (storeResponse c (VStr (w_key w)) (w_response w)
                       (w_prune w) (w_created w) (w_expiry w)))
    ws c.

End WithPlatform.

End CacheSpec.

Module PolicySpec.

(** The disallow list as the configuration builds it: no empty names. *)
Definition config_ok (cfg : Policy.config) : Prop :=
  Forall (fun tool => tool <> "") (Policy.disallowedTools cfg).

End PolicySpec.

Module McpSpec.

(** What holds of every client that [new] and the methods produce: a
    closed client has nothing pending, a pending request has an unsettled
    promise, and the ids in use are below [nextId]. *)
Definition client_inv (c : Mcp.client) : Prop :=
  (Mcp.closed c = true -> Mcp.pending c = ∅) /\
  (forall id, is_Some (Mcp.pending c !! id) ->
              Mcp.settled c !! id = None /\ id < Mcp.nextId c) /\
  (forall id, is_Some (Mcp.settled c !! id) -> id < Mcp.nextId c).

(** After a close nothing moves: the client stays closed, nothing is
    pending, no promise is settled and no request id is issued. *)
Definition frozen (c c' : Mcp.client) : Prop :=
  Mcp.closed c' = true /\ Mcp.pending c' = ∅ /\
  Mcp.settled c' = Mcp.settled c /\ Mcp.nextId c' = Mcp.nextId c.

End McpSpec.

(* ===================================================================== *)
(** ** Concrete caches, responses and calls *)
(* ===================================================================== *)

Module Examples.

(** [new PromptCache({ enabled: true, maxEntries: 2 })] and
    [new PromptCache({})]. *)
Definition cache_on : PromptCache.t :=
  PromptCache.new (VObj [("enabled", VBool true); ("maxEntries", VNum 2)]).

Definition cache_off : PromptCache.t := PromptCache.new (VObj []).

(** An upstream reply with text only. *)
Definition response_text : value :=
  VObj [("ok", VBool true); ("status", VNum 200);
        ("json", VObj [("choices",
           VArr [VObj [("finish_reason", VStr "stop");
                       ("message", VObj [("role", VStr "assistant");
                                         ("content", VStr "hello")])]])])].

(** The same reply, but finished for tool calls; its message has no
    [tool_calls] field. *)
Definition response_finish_tool_calls : value :=
  VObj [("ok", VBool true); ("status", VNum 200);
        ("json", VObj [("choices",
           VArr [VObj [("finish_reason", VStr "tool_calls");
                       ("message", VObj [("role", VStr "assistant");
                                         ("content", VStr "hello")])]])])].

(** Two requests that agree on the fields of the key up to the order of
    object keys and [undefined] fields, and differ elsewhere. *)
Definition body_one : value :=
  VObj [("model", VStr "m");
        ("messages", VArr [VObj [("role", VStr "user");
                                 ("content", VStr "hello")]]);
        ("temperature", VNum 0);
        ("tool_choice", VObj [("type", VStr "auto"); ("name", VUndefined)]);
        ("session_id", VStr "session-1");
        ("stream", VBool false)].

Definition body_two : value :=
  VObj [("stream", VBool true);
        ("tool_choice", VObj [("type", VStr "auto")]);
        ("messages", VArr [VObj [("content", VStr "hello");
                                 ("name", VUndefined);
                                 ("role", VStr "user")]]);
        ("metadata", VObj [("trace", VStr "t-2")]);
        ("temperature", VNum 0);
        ("model", VStr "m")].

(** Three writes of the text reply under the keys a, b and c. *)
Definition three_writes : list CacheSpec.write :=
  [ {| CacheSpec.w_key := "a"; CacheSpec.w_response := response_text;
       CacheSpec.w_prune := 1000; CacheSpec.w_created := 1000;
       CacheSpec.w_expiry := 1000 |};
    {| CacheSpec.w_key := "b"; CacheSpec.w_response := response_text;
       CacheSpec.w_prune := 2000; CacheSpec.w_created := 2000;
       CacheSpec.w_expiry := 2001 |};
    {| CacheSpec.w_key := "c"; CacheSpec.w_response := response_text;
       CacheSpec.w_prune := 3000; CacheSpec.w_created := 3001;
       CacheSpec.w_expiry := 3001 |} ].

(** The same three writes more than a time to live apart (the default
    time to live is 300000 ms), and the first two of [three_writes]. *)
Definition spread_writes : list CacheSpec.write :=
  [ {| CacheSpec.w_key := "a"; CacheSpec.w_response := response_text;
       CacheSpec.w_prune := 1000; CacheSpec.w_created := 1000;
       CacheSpec.w_expiry := 1000 |};
    {| CacheSpec.w_key := "b"; CacheSpec.w_response := response_text;
       CacheSpec.w_prune := 401000; CacheSpec.w_created := 401000;
       CacheSpec.w_expiry := 401000 |};
    {| CacheSpec.w_key := "c"; CacheSpec.w_response := response_text;
       CacheSpec.w_prune := 801000; CacheSpec.w_created := 801000;
       CacheSpec.w_expiry := 801000 |} ].

Definition two_writes : list CacheSpec.write := firstn 2 three_writes.

(** The policy of a default configuration, and one that disallows the
    shell. *)
Definition policy_default : Policy.config :=
  {| Policy.maxToolCallsPerTurn := 12;
     Policy.disallowedTools := [];
     Policy.git := {| Policy.allowPush := false; Policy.allowPull := false;
                      Policy.allowCommit := false |} |}.

Definition policy_no_shell : Policy.config :=
  {| Policy.maxToolCallsPerTurn := 12;
     Policy.disallowedTools := ["shell"];
     Policy.git := {| Policy.allowPush := false; Policy.allowPull := false;
                      Policy.allowCommit := false |} |}.

(** The JSON text of an object with the single field [command]. *)
Definition raw_rm_rf : string :=
  "{" +:+ Demo.quoted "command" +:+ ":" +:+ Demo.quoted "rm -rf /" +:+ "}".

(** A [shell] call with its arguments as a JSON string, and the same call
    with its arguments as an object. *)
Definition shell_call_string : value :=
  VObj [("id", VStr "toolu_1");
        ("function", VObj [("name", VStr "shell");
                           ("arguments", VStr raw_rm_rf)])].




(** A registry with a tool named [Grep] and the tool [workspace_search]. *)
Definition handler_grep : Tools.handler :=
  fun _ _ => Ok (VStr "result of Grep").

Definition handler_search : Tools.handler :=
  fun _ _ => Ok (VStr "result of workspace_search").

Definition two_tools : result Tools.state :=
  let* st := Tools.registerTool Tools.empty "Grep" handler_grep
               (VObj [("category", VStr "custom")]) in
  Tools.registerTool st "workspace_search" handler_search
    (VObj [("category", VStr "indexing")]).

(** A call that has an id and arguments but no name. *)
Definition nameless_call : value :=
  VObj [("id", VStr "toolu_2");
        ("function", VObj [("arguments", VStr "{}")])].

(** A client that was started, sent two requests and got the answer to the
    first of them. *)
Definition demo_server : value :=
  VObj [("id", VStr "demo"); ("command", VStr "./stub_server")].

Definition client_history : list Mcp.event :=
  [Mcp.EStart None None;
   Mcp.ERequest (VStr "tools/list") (VObj []) None;
   Mcp.ERequest (VStr "tools/call") (VObj [("name", VStr "echo")]) None;
   Mcp.EMessage (VObj [("jsonrpc", VStr "2.0"); ("id", VNum 2);
                       ("result", VObj [("tools", VArr [])])])].

End Examples.

(* ===================================================================== *)
(** * More of the code *)
(* ===================================================================== *)

(* ===================================================================== *)
(** ** The sandbox permissions: [src/mcp/permissions.js] *)

Module Permissions.

(** [normaliseValue(value)]. *)
Definition normaliseValue (v : value) : string :=
  match v with
  | VStr s => JS.toLowerCase (JS.trim s)
  | _ => ""
  end.

(** [pattern.endsWith("*")] and [pattern.slice(0, -1)]. *)
Fixpoint endsWith_star (s : string) : bool :=
  match s with
  | EmptyString => false
  | String c EmptyString => Ascii.eqb c "*"
  | String _ r => endsWith_star r
  end.

Fixpoint slice_but_last (s : string) : string :=
  match s with
  | EmptyString => EmptyString
  | String _ EmptyString => EmptyString
  | String c r => String c (slice_but_last r)
  end.

(** [matchesPattern(pattern, target)]. *)
Definition matchesPattern (pattern target : string) : bool :=
  if String.eqb pattern "" then false
  else if String.eqb pattern "*" then true
  else if endsWith_star pattern
  then JS.startsWith (slice_but_last pattern) target
  else String.eqb pattern target.

(** The object that [evaluateSandboxRequest] returns; [reason] is absent
    from the last one. *)
Record verdict : Type := {
  allowed : bool;
  reason : option string;
  source : string;
}.

Definition mode_of (permissions : value) : string :=
  match JS.prop permissions "mode" with
  | VStr m => m
  | _ => "auto"
  end.

Definition list_of (permissions : value) (field : string) : list string :=
  match JS.prop permissions field with
  | VArr l => map normaliseValue l
  | _ => []
  end.

(** The text [Command "<command>"] of two of the reasons; the template
    literal converts the command to a string. *)
Definition quoted_command (command : value) : result string :=
  let* shown := JS.toString command in
  Ok ("Command " +:+ String JS.dquote shown +:+ String JS.dquote EmptyString).

(** [evaluateSandboxRequest({ sessionId, command })]; [configured] is
    [config.mcp?.permissions]. *)
Definition evaluateSandboxRequest (configured : value) (command : value)
  : result verdict :=
  let permissions := JS.coalesce configured (VObj []) in
  let mode := mode_of permissions in
  let allowList := list_of permissions "allow" in
  let denyList := list_of permissions "deny" in
  let target := normaliseValue command in
  if existsb (fun pattern => matchesPattern pattern target) denyList
  then
    let* quoted := quoted_command command in
    Ok {| allowed := false;
          reason := Some (quoted +:+ " denied by sandbox deny list.");
          source := "deny_list" |}
  else if String.eqb mode "deny"
  then Ok {| allowed := false;
             reason := Some "Sandbox execution disabled by configuration.";
             source := "mode_deny" |}
  else if String.eqb mode "require"
  then
    if (length allowList =? 0)%nat
    then Ok {| allowed := false;
               reason := Some ("Sandbox permission mode 'require' is set but no "
                               +:+ "allow list entries are configured.");
               source := "mode_require" |}
    else if negb (existsb (fun pattern => matchesPattern pattern target) allowList)
    then
      let* quoted := quoted_command command in
      Ok {| allowed := false;
            reason := Some (quoted +:+ " is not permitted by sandbox allow list.");
            source := "mode_require" |}
    else Ok {| allowed := true; reason := Some "Allow list match";
               source := "allow_list" |}
  else Ok {| allowed := true; reason := None;
             source := if String.eqb mode "auto" then "auto"
                       else "implicit_allow" |}.

End Permissions.

(* ===================================================================== *)
(** ** Names of remote tools: [sanitiseName] of the MCP tool loader *)

Module RemoteTools.

Definition REMOTE_TOOL_PREFIX : string := "mcp".

Definition is_underscore (c : ascii) : bool := Ascii.eqb c "_".

Definition starts_underscore (s : string) : bool :=
  match s with
  | String c _ => is_underscore c
  | EmptyString => false
  end.

(** [.replace(/[^A-Za-z0-9_]/g, "_")]. *)
Fixpoint replace_unsafe (s : string) : string :=
  match s with
  | EmptyString => EmptyString
  | String c r =>
      String (if Regex.is_word c then c else "_"%char) (replace_unsafe r)
  end.

(** [.replace(/_+/g, "_")]: every run of underscores becomes one. *)
Fixpoint collapse_runs (s : string) : string :=
  match s with
  | EmptyString => EmptyString
  | String c r =>
      if is_underscore c && starts_underscore r then collapse_runs r
      else String c (collapse_runs r)
  end.

(** [.replace(/^_+|_+$/g, "")]: the run at the start and the run at the
    end are removed. *)
Fixpoint strip_leading (s : string) : string :=
  match s with
  | EmptyString => EmptyString
  | String c r => if is_underscore c then strip_leading r else s
  end.

Fixpoint all_underscore (s : string) : bool :=
  match s with
  | EmptyString => true
  | String c r => is_underscore c && all_underscore r
  end.

Fixpoint strip_trailing (s : string) : string :=
  match s with
  | EmptyString => EmptyString
  | String c r =>
      if all_underscore s then EmptyString else String c (strip_trailing r)
  end.

(** The three replacements of [sanitiseName], on a string. *)
Definition sanitise (s : string) : string :=
  strip_trailing (strip_leading (collapse_runs (replace_unsafe s))).

(** [sanitiseName(value)]: [String(value)], which can throw, then the
    replacements. *)
Definition sanitiseName (v : value) : result string :=
  let* s := JS.toString v in
  Ok (sanitise s).

(** The local name under which a remote tool is registered. *)
Definition localName (serverId remoteName : value) : result string :=
  let* server := sanitiseName serverId in
  let* tool := sanitiseName remoteName in
  Ok (REMOTE_TOOL_PREFIX +:+ "_" +:+ server +:+ "_" +:+ tool).

End RemoteTools.

Module RemoteToolsSpec.

Import RemoteTools.

Fixpoint all_word (s : string) : bool :=
  match s with
  | EmptyString => true
  | String c r => Regex.is_word c && all_word r
  end.

Fixpoint no_run (s : string) : bool :=
  match s with
  | EmptyString => true
  | String c r => negb (is_underscore c && starts_underscore r) && no_run r
  end.

Fixpoint ends_underscore (s : string) : bool :=
  match s with
  | EmptyString => false
  | String c EmptyString => is_underscore c
  | String _ r => ends_underscore r
  end.

(** Letters, digits and single underscores, none of them at either end. *)
Definition clean (s : string) : bool :=
  all_word s && no_run s && negb (starts_underscore s) && negb (ends_underscore s).

End RemoteToolsSpec.

(* ===================================================================== *)
(** ** Running a process: [src/tools/process.js] *)

Module Process.

Definition DEFAULT_TIMEOUT_MS : Z := 15000.
Definition MAX_TIMEOUT_MS : Z := 900000.
Definition MAX_BUFFER_BYTES : nat := 1024 * 1024.

(** [normaliseTimeout(timeoutMs)]; the numbers of the model are the
    integers, which are all finite. *)
Definition normaliseTimeout (timeoutMs : value) : Z :=
  match timeoutMs with
  | VNum n => if n <=? 0 then DEFAULT_TIMEOUT_MS else Z.min n MAX_TIMEOUT_MS
  | _ => DEFAULT_TIMEOUT_MS
  end.

(** [normaliseSandboxPreference(value)]. *)
Definition normaliseSandboxPreference (v : value) : string :=
  match v with
  | VStr s =>
      if String.eqb s "always" || String.eqb s "never" || String.eqb s "auto"
      then s else "never"
  | _ => "never"
  end.

Record appended : Type := {
  value_of : string;       (* [value] *)
  overflow : bool;
}.

(** [appendBuffer(current, chunk)], with the [maxBuffer] of the call of
    [runProcess]; [runSandboxProcess] has the same function. *)
Definition appendBuffer (maxBuffer : nat) (current chunk : string) : appended :=
  if (maxBuffer <=? String.length current)%nat
  then {| value_of := current; overflow := true |}
  else
    let next := current +:+ chunk in
    if (maxBuffer <? String.length next)%nat
    then {| value_of := substring 0 maxBuffer next; overflow := true |}
    else {| value_of := next; overflow := false |}.

(** The [data] handler of a stream: the buffer and its overflow flag. *)
Definition on_data (maxBuffer : nat) (st : string * bool) (chunk : string)
  : string * bool :=
  let r := appendBuffer maxBuffer (fst st) chunk in
  (value_of r, if overflow r then true else snd st).

(** The buffer and the flag once the chunks have arrived in order. *)
Definition collect (maxBuffer : nat) (chunks : list string) : string * bool :=
  fold_left (on_data maxBuffer) chunks ("", false).

End Process.

Module ProcessSpec.

(** All that a stream delivered. *)
Definition delivered (chunks : list string) : string :=
  fold_right String.append "" chunks.

End ProcessSpec.

(* ===================================================================== *)
(** ** The registry of MCP servers: [src/mcp/registry.js] *)

Module McpRegistry.

(** The two maps of the module.  A client is an object that the callers
    share; the model hands out its key in [clients]. *)
Record state : Type := {
  servers : gmap string value;
  clients : gmap string Mcp.client;
}.

Definition empty : state := {| servers := ∅; clients := ∅ |}.

(** [entry.id ?? entry.name ?? entry.label]. *)
Definition id_of (entry : value) : value :=
  JS.coalesce (JS.coalesce (JS.prop entry "id") (JS.prop entry "name"))
              (JS.prop entry "label").

Definition object_or_empty (v : value) : value :=
  if JS.truthy v && JS.typeof_object v then v else VObj [].

(** [entry.args.map(String)]. *)
Fixpoint map_String (l : list value) : result (list value) :=
  match l with
  | [] => Ok []
  | x :: r =>
      let* s := JS.toString x in
      let* rest := map_String r in
      Ok (VStr s :: rest)
  end.

(** [normaliseServer(entry)]; [None] is [null].  The fields of the object
    literal are evaluated in order, and [String(id)] and [String] on the
    arguments can throw. *)
Definition normaliseServer (entry : value) : result (option value) :=
  if negb (JS.truthy entry) || negb (JS.typeof_object entry) then Ok None
  else
    let id := id_of entry in
    if negb (JS.truthy id) then Ok None
    else
      let* shown := JS.toString id in
      let* args :=
        match JS.prop entry "args" with
        | VArr l => let* strings := map_String l in Ok (VArr strings)
        | _ => Ok (VArr [])
        end in
      Ok (Some (VObj
        [("id", VStr shown);
         ("name", JS.coalesce (JS.prop entry "name") (VStr shown));
         ("description", JS.coalesce (JS.prop entry "description") VNull);
         ("command", JS.coalesce (JS.prop entry "command") VNull);
         ("args", args);
         ("env", object_or_empty (JS.prop entry "env"));
         ("transport", JS.coalesce (JS.prop entry "transport") (VStr "stdio"));
         ("metadata", object_or_empty (JS.prop entry "metadata"));
         ("raw", entry)])).

(** The key of a server: its [id], which [normaliseServer] made a string. *)
Definition key_of (server : value) : string :=
  match JS.prop server "id" with
  | VStr s => s
  | _ => ""
  end.

(** [registerServer(entry)]: what it returns or throws, and the registry
    afterwards. *)
Definition registerServer (st : state) (entry : value)
  : result (option value) * state :=
  match normaliseServer entry with
  | Throw e => (Throw e, st)
  | Ok None => (Ok None, st)
  | Ok (Some server) =>
      (Ok (Some server),
       {| servers := <[key_of server := server]> (servers st);
          clients := clients st |})
  end.

(** [getServer(id)]. *)
Definition getServer (st : state) (id : value) : result (option value) :=
  if negb (JS.truthy id) then Ok None
  else
    let* key := JS.toString id in
    Ok (servers st !! key).

(** [loadServersFromEntries(entries)]: the count it returns, or what a
    [registerServer] throws out of the [forEach], and the registry
    afterwards (the entries before the one that throws are registered). *)
Fixpoint load_entries (st : state) (entries : list value) (registeredCount : Z)
  : result Z * state :=
  match entries with
  | [] => (Ok registeredCount, st)
  | entry :: rest =>
      match registerServer st entry with
      | (Throw e, st') => (Throw e, st')
      | (Ok (Some _), st') => load_entries st' rest (registeredCount + 1)
      | (Ok None, st') => load_entries st' rest registeredCount
      end
  end.

Definition loadServersFromEntries (st : state) (entries : list value)
  : result Z * state :=
  load_entries st entries 0.

Definition is_stdio (transport : value) : bool :=
  match transport with
  | VStr s => String.eqb s "stdio"
  | _ => false
  end.

Section WithPlatform.
Context `{Platform}.

(** [ensureClient(serverId)] for a string [serverId]: the key of the
    client, [None] for [null], or the exception of [start].  [spawn_error]
    and [write_error] are what [spawn] and the write of [initialize] throw,
    if anything. *)
Definition ensureClient (st : state) (serverId : string)
    (spawn_error write_error : option value) : result (option string) * state :=
  if String.eqb serverId "" then (Ok None, st)
  else
    match clients st !! serverId with
    | Some _ => (Ok (Some serverId), st)
    | None =>
        match getServer st (VStr serverId) with
        | Throw e => (Throw e, st)
        | Ok None => (Ok None, st)
        | Ok (Some server) =>
            let transport := JS.prop server "transport" in
            if JS.truthy transport && negb (is_stdio transport)
            then (Ok None, st)
            else
              match Mcp.new server with
              | Throw e => (Throw e, st)
              | Ok client =>
                  let registered := <[serverId := client]> (clients st) in
                  match Mcp.start client spawn_error write_error with
                  | (Ok _, client') =>
                      (Ok (Some serverId),
                       {| servers := servers st;
                          clients := <[serverId := client']> registered |})
                  | (Throw e, _) =>
                      (Throw e,
                       {| servers := servers st;
                          clients := delete serverId registered |})
                  end
              end
        end
    end.

End WithPlatform.

End McpRegistry.

(* ===================================================================== *)
(** ** Vocabulary and examples for the further properties *)

Module RegexSpec.

Import Regex.

(** No [$] occurs in the expression. *)
Fixpoint anchor_free (r : Regex.t) : bool :=
  match r with
  | EndOfInput => false
  | Seq a b | Alt a b => anchor_free a && anchor_free b
  | Star a => anchor_free a
  | _ => true
  end.

(** The 256 code units of the model. *)
Definition all_code_units : list ascii := map ascii_of_nat (seq 0 256).

(** A literal whose match does not change when the text is lower-cased. *)
Definition blind_literal (test_on : ascii -> bool) : bool :=
  forallb (fun c => Bool.eqb (test_on (JS.lower_code_unit c)) (test_on c))
          all_code_units.

(** The expression matches a text exactly when it matches the lower-cased
    text, literal by literal. *)
Fixpoint case_blind (r : Regex.t) : bool :=
  match r with
  | Chr a => blind_literal (Ascii.eqb a)
  | ChrI a =>
      blind_literal (fun c => Ascii.eqb (JS.lower_ascii a) (JS.lower_ascii c))
  | Seq a b | Alt a b => case_blind a && case_blind b
  | Star a => case_blind a
  | _ => true
  end.

End RegexSpec.

Module MoreExamples.

(** A [python_exec] call whose code removes the root, a push, and a
    [shell] call whose arguments are the JSON text [null]. *)
Definition python_call : value :=
  VObj [("function",
         VObj [("name", VStr "python_exec");
               ("arguments",
                VStr ("{" +:+ Demo.quoted "code" +:+ ":"
                      +:+ Demo.quoted "import shutil; shutil.rmtree('/')"
                      +:+ "}"))])].

Definition git_push_call : value :=
  VObj [("function", VObj [("name", VStr "workspace_git_push");
                           ("arguments", VStr "{}")])].

Definition shell_call_null : value :=
  VObj [("function", VObj [("name", VStr "shell");
                           ("arguments", VStr "null")])].

(** A harmless [shell] call, and one whose command is an array with an
    element that has an own [toString]. *)
Definition shell_call_ls : value :=
  VObj [("function",
         VObj [("name", VStr "shell");
               ("arguments",
                VStr ("{" +:+ Demo.quoted "command" +:+ ":"
                      +:+ Demo.quoted "ls -la" +:+ "}"))])].

Definition shell_call_unprintable : value :=
  VObj [("function",
         VObj [("name", VStr "shell");
               ("arguments",
                VStr ("{" +:+ Demo.quoted "command" +:+ ":["
                      +:+ Demo.quoted "rm -rf /" +:+ ",{"
                      +:+ Demo.quoted "toString" +:+ ":null}]}"))])].

(** The registry of [two_tools], and one that holds [shell] only. *)
Definition two_tools_state : Tools.state :=
  match Examples.two_tools with
  | Ok st => st
  | Throw _ => Tools.empty
  end.

Definition handler_shell : Tools.handler :=
  fun _ _ => Ok (VStr "ran the command").

Definition shell_registry : Tools.state :=
  match Tools.registerTool Tools.empty "shell" handler_shell
          (VObj [("category", VStr "execution")]) with
  | Ok st => st
  | Throw _ => Tools.empty
  end.

(** A registry that holds [fs_read] only; no alias is spelt that way. *)
Definition fs_registry : Tools.state :=
  match Tools.registerTool Tools.empty "fs_read" handler_shell (VObj []) with
  | Ok st => st
  | Throw _ => Tools.empty
  end.

(** The [shell] call of the examples under the name [Bash]. *)
Definition bash_call : value :=
  VObj [("id", VStr "toolu_3");
        ("function", VObj [("name", VStr "Bash");
                           ("arguments", VStr Examples.raw_rm_rf)])].

(** The client that [new McpClient(demo_server)] builds, and that client
    once started. *)
Definition demo_client : Mcp.client :=
  {| Mcp.server := Examples.demo_server;
     Mcp.process := false; Mcp.readInterface := false; Mcp.nextId := 1;
     Mcp.pending := ∅; Mcp.started := false; Mcp.closed := false;
     Mcp.settled := ∅; Mcp.written := []; Mcp.emitted := [] |}.

Definition started_client : Mcp.client :=
  @Mcp.run Demo.platform demo_client [Mcp.EStart None None].

(** The answer of the server to request 2, and an error for it. *)
Definition reply_two : value :=
  VObj [("jsonrpc", VStr "2.0"); ("id", VNum 2);
        ("result", VObj [("tools", VArr [])])].

(** A reply whose error has a message that cannot be converted to a
    string. *)
Definition reply_two_unconvertible : value :=
  VObj [("jsonrpc", VStr "2.0"); ("id", VNum 2);
        ("error", VObj [("message", VObj [("toString", VNum 1)])])].

Definition reply_two_error : value :=
  VObj [("jsonrpc", VStr "2.0"); ("id", VNum 2);
        ("error", VObj [("code", VNum (-32601));
                        ("message", VStr "Method not found")])].

End MoreExamples.

Module PolicyMoreSpec.

(** The array that [evaluateShellCall] joins, if it joins one: none of
    [command], [cmd], [run] is a string, and [command] is an array, or else
    [args] is. *)
Definition joined_array (args : value) : option (list value) :=
  match JS.prop args "command", JS.prop args "cmd", JS.prop args "run" with
  | VStr _, _, _ | _, VStr _, _ | _, _, VStr _ => None
  | VArr l, _, _ => Some l
  | _, _, _ =>
      match JS.prop args "args" with
      | VArr l => Some l
      | _ => None
      end
  end.

(** An element that [join] cannot convert to a string. *)
Definition unprintable (x : value) : Prop :=
  JS.nullish x = false /\ exists e, JS.toString x = Throw e.

End PolicyMoreSpec.

Module ToolsSpec.

(** The two maps agree: every registered name has an entry under its
    lower-cased form, and every entry of the lowercase map is filed under
    the lower-cased name of a tool that the registry holds. *)
Definition registry_inv (st : Tools.state) : Prop :=
  (forall name, is_Some (Tools.registry st !! name) ->
                is_Some (Tools.registryLowercase st !! JS.toLowerCase name)) /\
  (forall k e, Tools.registryLowercase st !! k = Some e ->
               k = JS.toLowerCase (Tools.original e) /\
               is_Some (Tools.registry st !! Tools.original e)).

(** The object that [executeToolCall] hands to the handler of [toolName]
    for a call whose own name is the string [callName]. *)
Definition handler_call `{Platform} (call : value) (now : Z)
    (callName toolName : string) : value :=
  VObj [("id", Tools.namedCallId call now callName);
        ("name", VStr toolName);
        ("args", Tools.parseArguments call);
        ("raw", call)].

(** The result for a handler that returned the string [text]. *)
Definition text_result `{Platform} (call : value) (now : Z)
    (callName toolName text : string) : Tools.tool_result :=
  {| Tools.id := Tools.namedCallId call now callName;
     Tools.name := VStr toolName;
     Tools.arguments := Tools.parseArguments call;
     Tools.ok := VBool true;
     Tools.status := VNum 200;
     Tools.content := text;
     Tools.metadata := VObj [("registered", VBool true)];
     Tools.error := None |}.

End ToolsSpec.

Module McpMoreSpec.

(** The request ids the client has handed out. *)
Definition issued (c : Mcp.client) (id : Z) : Prop :=
  1 <= id < Mcp.nextId c.

(** The ids that are pending or settled were handed out, and none is
    both. *)
Definition ids_tracked (c : Mcp.client) : Prop :=
  1 <= Mcp.nextId c /\
  forall id,
    (is_Some (Mcp.pending c !! id) \/ is_Some (Mcp.settled c !! id) ->
     issued c id) /\
    (is_Some (Mcp.pending c !! id) -> Mcp.settled c !! id = None).

(** No request is lost: every id handed out is pending or settled. *)
Definition ids_complete (c : Mcp.client) : Prop :=
  forall id, issued c id ->
             is_Some (Mcp.pending c !! id) \/ is_Some (Mcp.settled c !! id).

(** A message whose error, if it is a response with one, can be turned
    into an [Error]; every other event. *)
Definition normalisable (e : Mcp.event) : bool :=
  match e with
  | Mcp.EMessage message =>
      negb (JS.hasOwn message "error" && JS.truthy (JS.prop message "error"))
      || match Mcp.normaliseError (JS.prop message "error") with
         | Ok _ => true
         | Throw _ => false
         end
  | _ => true
  end.

(** A [close] whose argument, if it has one, can be turned into an
    [Error]: every call of [close] in the repository passes an [Error] or
    nothing. *)
Definition close_argument_ok (e : Mcp.event) : bool :=
  match e with
  | Mcp.EClose err =>
      match Mcp.close_event err with Some _ => true | None => false end
  | _ => true
  end.

(** How many [close] events the client has emitted. *)
Definition close_events (c : Mcp.client) : nat :=
  length (List.filter (fun ev => String.eqb (fst ev) "close") (Mcp.emitted c)).

(** The outcome that a response settles its request with; [None] when
    the error of the response cannot be turned into an [Error], and the
    promise is left unsettled. *)
Definition outcome_of (message : value) : option Mcp.outcome :=
  if JS.hasOwn message "error" && JS.truthy (JS.prop message "error")
  then match Mcp.normaliseError (JS.prop message "error") with
       | Ok err => Some (Mcp.Rejected err)
       | Throw _ => None
       end
  else Some (Mcp.Resolved (JS.prop message "result")).

End McpMoreSpec.

Module WorkspaceSpec.

Fixpoint has_slash (s : string) : bool :=
  match s with
  | EmptyString => false
  | String c r => Path.is_slash c || has_slash r
  end.

(** A segment of a normalised path: it holds no slash and is not empty,
    [.] or [..]. *)
Definition plain_segment (seg : string) : Prop :=
  has_slash seg = false /\ seg <> "" /\ seg <> "." /\ seg <> "..".

End WorkspaceSpec.

Module RegistrySpec.

(** The entries that [registerServer] registers. *)
Definition registers (entry : value) : bool :=
  match McpRegistry.normaliseServer entry with
  | Ok (Some _) => true
  | _ => false
  end.

End RegistrySpec.

Module RegistryExamples.

(** Two entries for the same server id, and one with no id at all. *)
Definition entry_files : value :=
  VObj [("id", VStr "files"); ("command", VStr "./files_server")].

Definition entry_files_again : value :=
  VObj [("name", VStr "files"); ("command", VStr "./other_server")].

(** An entry whose id cannot be converted to a string. *)
Definition entry_unconvertible : value :=
  VObj [("id", VObj [("toString", VNum 1)]); ("command", VStr "./server")].

Definition entry_nameless : value :=
  VObj [("command", VStr "./nameless")].

Definition registry_with_files : McpRegistry.state :=
  snd (McpRegistry.registerServer McpRegistry.empty entry_files).

(** The registry after the client of [files] was closed. *)
Definition registry_with_closed_client : McpRegistry.state :=
  {| McpRegistry.servers := McpRegistry.servers registry_with_files;
     McpRegistry.clients :=
       {[ "files" := Mcp.close MoreExamples.started_client VUndefined ]} |}.

End RegistryExamples.

(* ===================================================================== *)
(** * Properties *)
(* ===================================================================== *)

(** ** Insertion-ordered maps *)

Section OrderedMaps.
Context {A : Type}.
Implicit Types (m : list (string * A)) (k : string) (v : A).

Lemma map_get_None_notin k m :
  PromptCache.map_get k m = None <-> k ∉ map fst m.
Proof.
  unfold PromptCache.map_get.
  induction m as [|[k' v'] m IH]; simpl.
  - split; [intros _; apply not_elem_of_nil | reflexivity].
  - rewrite not_elem_of_cons. destruct (String.eqb k k') eqn:E.
    + apply String.eqb_eq in E. subst. split; [discriminate | tauto].
    + apply String.eqb_neq in E. rewrite IH. tauto.
Qed.

Lemma map_get_Some_in k v m :
  PromptCache.map_get k m = Some v -> k ∈ map fst m.
Proof.
  intros Hg. destruct (decide (k ∈ map fst m)) as [|Hn]; [assumption|].
  apply map_get_None_notin in Hn. congruence.
Qed.

Lemma map_set_absent k v m :
  PromptCache.map_get k m = None -> PromptCache.map_set k v m = m ++ [(k, v)].
Proof.
  unfold PromptCache.map_get.
  induction m as [|[k' v'] m IH]; simpl; [reflexivity|].
  destruct (String.eqb k k'); [discriminate|].
  intros Hg. now rewrite IH.
Qed.

Lemma map_delete_absent k m :
  PromptCache.map_get k m = None -> PromptCache.map_delete k m = m.
Proof.
  unfold PromptCache.map_get.
  induction m as [|[k' v'] m IH]; simpl; [reflexivity|].
  destruct (String.eqb k k'); [discriminate|].
  intros Hg. now rewrite IH.
Qed.

Lemma map_delete_keys_incl k m x :
  x ∈ map fst (PromptCache.map_delete k m) -> x ∈ map fst m.
Proof.
  induction m as [|[k' v'] m IH]; simpl; [tauto|].
  destruct (String.eqb k k'); simpl; rewrite !elem_of_cons; tauto.
Qed.

Lemma map_delete_NoDup k m :
  NoDup (map fst m) -> NoDup (map fst (PromptCache.map_delete k m)).
Proof.
  induction m as [|[k' v'] m IH]; simpl; intros Hnd; [constructor|].
  apply NoDup_cons in Hnd as [Hn Hnd].
  destruct (String.eqb k k'); simpl; [assumption|].
  apply NoDup_cons. split; [|auto].
  intros Hin. apply Hn. eapply map_delete_keys_incl; eassumption.
Qed.

Lemma map_delete_gone k m :
  NoDup (map fst m) -> PromptCache.map_get k (PromptCache.map_delete k m) = None.
Proof.
  intros Hnd. apply map_get_None_notin.
  induction m as [|[k' v'] m IH]; simpl; [apply not_elem_of_nil|].
  apply NoDup_cons in Hnd as [Hn Hnd]. simpl in Hn.
  destruct (String.eqb k k') eqn:E.
  - apply String.eqb_eq in E. now subst.
  - apply String.eqb_neq in E. simpl. apply not_elem_of_cons. auto.
Qed.

Lemma map_delete_length k v m :
  PromptCache.map_get k m = Some v ->
  S (length (PromptCache.map_delete k m)) = length m.
Proof.
  unfold PromptCache.map_get.
  induction m as [|[k' v'] m IH]; simpl; [discriminate|].
  destruct (String.eqb k k'); simpl; [reflexivity|].
  intros Hg. now rewrite IH.
Qed.

Lemma map_get_app_fresh k v m :
  k ∉ map fst m -> PromptCache.map_get k (m ++ [(k, v)]) = Some v.
Proof.
  unfold PromptCache.map_get.
  induction m as [|[k' v'] m IH]; simpl; intros Hn.
  - now rewrite String.eqb_refl.
  - apply not_elem_of_cons in Hn as [Hne Hn].
    destruct (String.eqb k k') eqn:E.
    + apply String.eqb_eq in E. congruence.
    + now apply IH.
Qed.

Lemma filter_keys_incl (f : string * A -> bool) m x :
  x ∈ map fst (List.filter f m) -> x ∈ map fst m.
Proof.
  induction m as [|kv m IH]; simpl; [tauto|].
  destruct (f kv); simpl; rewrite !elem_of_cons; tauto.
Qed.

Lemma filter_NoDup (f : string * A -> bool) m :
  NoDup (map fst m) -> NoDup (map fst (List.filter f m)).
Proof.
  induction m as [|kv m IH]; simpl; intros Hnd; [constructor|].
  apply NoDup_cons in Hnd as [Hn Hnd].
  destruct (f kv); simpl; [|auto].
  apply NoDup_cons. split; [|auto].
  intros Hin. apply Hn. eapply filter_keys_incl; eassumption.
Qed.

Lemma NoDup_keys_snoc k v m :
  NoDup (map fst m) -> k ∉ map fst m -> NoDup (map fst (m ++ [(k, v)])).
Proof.
  intros Hnd Hn. rewrite map_app. simpl.
  apply NoDup_app. split; [assumption|]. split.
  - intros x Hx Hin. apply list_elem_of_singleton in Hin. congruence.
  - apply NoDup_singleton.
Qed.

End OrderedMaps.

(** ** The prompt cache *)

Section CacheLemmas.
Import PromptCache CacheSpec.

Lemma evict_skipn (max : Z) (s : list (string * entry)) :
  0 <= max -> evict max s = skipn (length s - Z.to_nat max) s.
Proof.
  intros Hmax. induction s as [|x s IH]; [reflexivity|].
  cbn [evict]. destruct (max <? Z.of_nat (length (x :: s))) eqn:E.
  - apply Z.ltb_lt in E. cbn [length] in *.
    replace (S (length s) - Z.to_nat max)%nat
      with (S (length s - Z.to_nat max)) by lia.
    exact IH.
  - apply Z.ltb_ge in E. cbn [length] in *.
    replace (S (length s) - Z.to_nat max)%nat with 0%nat by lia.
    reflexivity.
Qed.

Lemma evict_length (max : Z) (s : list (string * entry)) :
  0 <= max -> Z.of_nat (length (evict max s)) <= max.
Proof.
  intros Hmax. rewrite evict_skipn by assumption.
  rewrite length_skipn. lia.
Qed.

Lemma skipn_keys_incl {A} n (m : list (string * A)) x :
  x ∈ map fst (skipn n m) -> x ∈ map fst m.
Proof.
  revert n. induction m as [|kv m IH]; intros [|n]; simpl; try tauto.
  rewrite elem_of_cons. intros Hin. right. eapply IH; eassumption.
Qed.

Lemma skipn_NoDup {A} n (m : list (string * A)) :
  NoDup (map fst m) -> NoDup (map fst (skipn n m)).
Proof.
  revert n. induction m as [|kv m IH]; intros [|n]; simpl; try tauto.
  intros Hnd. apply NoDup_cons in Hnd as [_ Hnd]. auto.
Qed.

Lemma filter_unexpired now s :
  unexpired now s ->
  List.filter (fun kv => negb (expired now (snd kv))) s = s.
Proof.
  induction 1 as [|kv s Hkv _ IH]; simpl; [reflexivity|].
  rewrite Hkv. simpl. now rewrite IH.
Qed.

Lemma pruneExpired_store_eq c now :
  store (pruneExpired c now) = store c \/
  store (pruneExpired c now)
  = List.filter (fun kv => negb (expired now (snd kv))) (store c).
Proof.
  unfold pruneExpired.
  destruct (negb (enabled c)); [now left|].
  destruct (ttlMs c <=? 0); [now left | now right].
Qed.

Lemma pruneExpired_unexpired c now :
  unexpired now (store c) -> pruneExpired c now = c.
Proof.
  intros Hu. unfold pruneExpired.
  destruct (negb (enabled c)); [reflexivity|].
  destruct (ttlMs c <=? 0); [reflexivity|].
  rewrite filter_unexpired by assumption. now destruct c.
Qed.

Lemma pruneExpired_params c now :
  enabled (pruneExpired c now) = enabled c /\
  maxEntries (pruneExpired c now) = maxEntries c /\
  ttlMs (pruneExpired c now) = ttlMs c.
Proof.
  unfold pruneExpired.
  destruct (negb (enabled c)); [auto|].
  destruct (ttlMs c <=? 0); auto.
Qed.

Lemma filter_length_le {A} (f : A -> bool) (l : list A) :
  (length (List.filter f l) <= length l)%nat.
Proof.
  induction l as [|x l IH]; simpl; [lia|]. destruct (f x); simpl; lia.
Qed.

Lemma pruneExpired_inv c now : cache_inv c -> cache_inv (pruneExpired c now).
Proof.
  intros (Hnd & Hmax & Hlen).
  destruct (pruneExpired_params c now) as (_ & Hm & _).
  unfold cache_inv. rewrite Hm.
  destruct (pruneExpired_store_eq c now) as [-> | ->]; [auto|].
  split; [now apply filter_NoDup|]. split; [assumption|].
  pose proof (filter_length_le (fun kv => negb (expired now (snd kv))) (store c)).
  lia.
Qed.

Lemma new_inv options : cache_inv (new options).
Proof.
  unfold cache_inv, new; cbn [store maxEntries length map].
  split; [constructor|]. split; [|].
  - destruct (JS.prop options "maxEntries"); try lia.
    destruct (0 <? n) eqn:E; [apply Z.ltb_lt in E|]; lia.
  - destruct (JS.prop options "maxEntries"); try (cbn; lia).
    destruct (0 <? n) eqn:E; [apply Z.ltb_lt in E|]; cbn; lia.
Qed.

Section WithPlatform.
Context `{Platform}.

Lemma keyOf_nonempty c p k : keyOf c p = Some k -> k <> "".
Proof.
  unfold keyOf.
  destruct (match p with VStr s => Some s | _ => buildKey c p end) as [k'|];
    [|discriminate].
  destruct (String.eqb k' "") eqn:E; [discriminate|].
  apply String.eqb_neq in E. congruence.
Qed.

Lemma keyOf_string c k : k <> "" -> keyOf c (VStr k) = Some k.
Proof.
  intros Hk. unfold keyOf. apply String.eqb_neq in Hk. now rewrite Hk.
Qed.

(** What [storeResponse] does once it is past its three guards. *)
Lemma storeResponse_stores c p r t1 t2 t3 k :
  cache_inv c ->
  fst (storeResponse c p r t1 t2 t3) = Some k ->
  enabled c = true /\ shouldCacheResponse r = true /\ keyOf c p = Some k /\
  let e := {| cached := r; createdAt := t2;
              expiresAt := if 0 <? ttlMs c then Some (t3 + ttlMs c) else None |} in
  let pruned := store (pruneExpired c t1) in
  store (snd (storeResponse c p r t1 t2 t3))
  = evict (maxEntries c) (map_delete k pruned ++ [(k, e)]).
Proof.
  intros Hinv. unfold storeResponse.
  destruct (enabled c) eqn:En; cbn [negb]; [|discriminate].
  destruct (shouldCacheResponse r) eqn:Sh; cbn [negb]; [|discriminate].
  destruct (keyOf c p) as [k'|] eqn:Hk; [|discriminate].
  cbn [fst snd]. intros [= ->].
  repeat split; cbn [store with_store cloneValue].
  apply pruneExpired_inv with (now := t1) in Hinv.
  destruct Hinv as (Hnd & _ & _).
  unfold map_has.
  destruct (map_get k (store (pruneExpired c t1))) eqn:Hg.
  - rewrite map_set_absent by (now apply map_delete_gone). reflexivity.
  - rewrite map_set_absent by assumption.
    now rewrite (map_delete_absent _ _ Hg).
Qed.

Lemma storeResponse_rejects c p r t1 t2 t3 :
  fst (storeResponse c p r t1 t2 t3) = None ->
  storeResponse c p r t1 t2 t3 = (None, c).
Proof.
  unfold storeResponse.
  destruct (negb (enabled c)); [reflexivity|].
  destruct (negb (shouldCacheResponse r)); [reflexivity|].
  destruct (keyOf c p); [discriminate | reflexivity].
Qed.

Lemma storeResponse_inv c p r t1 t2 t3 :
  cache_inv c -> cache_inv (snd (storeResponse c p r t1 t2 t3)).
Proof.
  intros Hinv.
  destruct (fst (storeResponse c p r t1 t2 t3)) as [k|] eqn:Hf.
  - pose proof (storeResponse_stores _ _ _ _ _ _ _ Hinv Hf) as (_ & _ & _ & Hs).
    cbv zeta in Hs.
    assert (Hm : maxEntries (snd (storeResponse c p r t1 t2 t3)) = maxEntries c).
    { unfold storeResponse.
      destruct (negb (enabled c)); [reflexivity|].
      destruct (negb (shouldCacheResponse r)); [reflexivity|].
      destruct (keyOf c p); [|reflexivity].
      cbn. unfold pruneExpired.
      destruct (negb (enabled c)); [reflexivity|].
      destruct (ttlMs c <=? 0); reflexivity. }
    pose proof (pruneExpired_inv c t1 Hinv) as (Hnd & _ & _).
    destruct Hinv as (_ & Hmax & _).
    unfold cache_inv. rewrite Hm, Hs. split; [|split; [assumption|]].
    + rewrite evict_skipn by lia. apply skipn_NoDup.
      apply NoDup_keys_snoc; [now apply map_delete_NoDup|].
      apply map_get_None_notin. now apply map_delete_gone.
    + apply evict_length. lia.
  - now rewrite (storeResponse_rejects _ _ _ _ _ _ Hf).
Qed.

(** What [lookup] does on a hit. *)
Lemma lookup_hit c p t1 t2 e :
  cache_inv c ->
  found (fst (lookup c p t1 t2)) = Some e ->
  exists k, key (fst (lookup c p t1 t2)) = Some k /\
            keyOf c p = Some k /\
            map_get k (store (pruneExpired c t1)) = Some e /\
            store (snd (lookup c p t1 t2))
            = map_delete k (store (pruneExpired c t1)) ++ [(k, e)].
Proof.
  intros Hinv. unfold lookup.
  destruct (negb (enabled c)); [discriminate|].
  destruct (keyOf c p) as [k|] eqn:Hk; [|discriminate].
  destruct (map_get k (store (pruneExpired c t1))) as [e'|] eqn:Hg;
    [|discriminate].
  destruct (expired t2 e'); [discriminate|].
  cbn. intros [= ->]. exists k. repeat split; try assumption.
  apply pruneExpired_inv with (now := t1) in Hinv.
  destruct Hinv as (Hnd & _ & _).
  apply map_set_absent. now apply map_delete_gone.
Qed.

Lemma lookup_inv c p t1 t2 :
  cache_inv c -> cache_inv (snd (lookup c p t1 t2)).
Proof.
  intros Hinv.
  pose proof (pruneExpired_inv c t1 Hinv) as Hp.
  destruct (pruneExpired_params c t1) as (_ & Hm & _).
  unfold lookup.
  destruct (negb (enabled c)); [assumption|].
  destruct (keyOf c p) as [k|]; [|assumption].
  destruct (map_get k (store (pruneExpired c t1))) as [e|] eqn:Hg; [|assumption].
  destruct Hp as (Hnd & Hmax & Hlen).
  pose proof (map_delete_length _ _ _ Hg) as Hl.
  destruct (expired t2 e); unfold cache_inv; cbn [snd with_store store maxEntries].
  - split; [now apply map_delete_NoDup|]. split; [assumption|]. lia.
  - rewrite map_set_absent by (now apply map_delete_gone).
    split; [|split; [assumption|]].
    + apply NoDup_keys_snoc; [now apply map_delete_NoDup|].
      apply map_get_None_notin. now apply map_delete_gone.
    + rewrite length_app. cbn [length]. lia.
Qed.

End WithPlatform.
End CacheLemmas.

Section CacheSequences.
Import PromptCache CacheSpec.

Lemma NoDup_skipn_app {A} n (l r : list A) :
  NoDup (l ++ r) -> NoDup (skipn n l ++ r).
Proof.
  revert n. induction l as [|x l IH]; intros [|n]; simpl; try tauto.
  intros Hnd. apply NoDup_cons in Hnd as [_ Hnd]. auto.
Qed.

Lemma Forall_skipn' {A} (P : A -> Prop) n (l : list A) :
  Forall P l -> Forall P (skipn n l).
Proof.
  intros Hl. revert n. induction Hl as [|x l Hx Hl IH]; intros [|n]; simpl;
    auto.
Qed.

Context `{Platform}.

Lemma storeResponse_params c p r t1 t2 t3 :
  enabled (snd (storeResponse c p r t1 t2 t3)) = enabled c /\
  maxEntries (snd (storeResponse c p r t1 t2 t3)) = maxEntries c /\
  ttlMs (snd (storeResponse c p r t1 t2 t3)) = ttlMs c.
Proof.
  unfold storeResponse.
  destruct (negb (enabled c)); [auto|].
  destruct (negb (shouldCacheResponse r)); [auto|].
  destruct (keyOf c p); [|auto].
  cbn. apply pruneExpired_params.
Qed.

(** Storing under a key that the store does not hold, when nothing has
    expired: the entry is appended and the oldest ones make room. *)
Lemma storeResponse_fresh c k r t1 t2 t3 :
  cache_inv c -> enabled c = true -> k <> "" ->
  shouldCacheResponse r = true ->
  k ∉ map fst (store c) ->
  unexpired t1 (store c) ->
  let e := {| cached := r; createdAt := t2;
              expiresAt := if 0 <? ttlMs c then Some (t3 + ttlMs c) else None |} in
  fst (storeResponse c (VStr k) r t1 t2 t3) = Some k /\
  store (snd (storeResponse c (VStr k) r t1 t2 t3))
  = skipn (length (store c) + 1 - Z.to_nat (maxEntries c)) (store c ++ [(k, e)]).
Proof.
  intros Hinv En Hk Sh Hfresh Hu e.
  assert (Hf : fst (storeResponse c (VStr k) r t1 t2 t3) = Some k).
  { unfold storeResponse. rewrite En, Sh, (keyOf_string c k Hk). reflexivity. }
  split; [assumption|].
  pose proof (storeResponse_stores _ _ _ _ _ _ _ Hinv Hf) as (_ & _ & _ & Hs).
  cbv zeta in Hs. rewrite Hs.
  rewrite (pruneExpired_unexpired c t1 Hu).
  rewrite map_delete_absent by (now apply map_get_None_notin).
  destruct Hinv as (_ & Hmax & _).
  rewrite evict_skipn by lia. rewrite length_app. reflexivity.
Qed.

Lemma store_all_keys (ws : list write) : forall c,
  cache_inv c -> enabled c = true ->
  NoDup (map fst (store c) ++ map w_key ws) ->
  Forall (fun w => w_key w <> "" /\ shouldCacheResponse (w_response w) = true) ws ->
  (forall w, w ∈ ws -> unexpired (w_prune w) (store c)) ->
  (forall w w', w ∈ ws -> w' ∈ ws -> w_prune w' < w_expiry w + ttlMs c) ->
  map fst (store (store_all c ws))
  = skipn (length (store c) + length ws - Z.to_nat (maxEntries c))
          (map fst (store c) ++ map w_key ws).
Proof.
  induction ws as [|w ws IH]; intros c Hinv En Hnd Hok Hold Hnew.
  - cbn. rewrite app_nil_r, Nat.add_0_r.
    destruct Hinv as (_ & Hmax & Hlen).
    replace (length (store c) - Z.to_nat (maxEntries c))%nat with 0%nat by lia.
    reflexivity.
  - apply Forall_cons in Hok as [[Hk Sh] Hok].
    assert (Hfresh : w_key w ∉ map fst (store c)).
    { apply NoDup_app in Hnd as (_ & Hd & _). intros Hin.
      apply (Hd _ Hin). cbn. apply elem_of_cons. now left. }
    assert (Hu : unexpired (w_prune w) (store c)).
    { apply Hold. apply elem_of_cons. now left. }
    destruct (storeResponse_fresh c (w_key w) (w_response w) (w_prune w)
                (w_created w) (w_expiry w) Hinv En Hk Sh Hfresh Hu) as [_ Hs].
    cbv zeta in Hs.
    destruct (storeResponse_params c (VStr (w_key w)) (w_response w) (w_prune w)
                (w_created w) (w_expiry w)) as (En1 & Hm1 & Ht1).
    pose proof (storeResponse_inv c (VStr (w_key w)) (w_response w) (w_prune w)
                  (w_created w) (w_expiry w) Hinv) as Hinv1.
    unfold store_all. cbn [fold_left]. fold (store_all
      (snd (storeResponse c (VStr (w_key w)) (w_response w) (w_prune w)
              (w_created w) (w_expiry w))) ws).
    set (c1 := snd (storeResponse c (VStr (w_key w)) (w_response w) (w_prune w)
                      (w_created w) (w_expiry w))) in *.
    set (n := (length (store c) + 1 - Z.to_nat (maxEntries c))%nat) in *.
    assert (Hkeys1 : map fst (store c1) = skipn n (map fst (store c) ++ [w_key w])).
    { rewrite Hs, <- skipn_map, map_app. reflexivity. }
    rewrite IH; try assumption.
    + rewrite Hkeys1, Hm1.
      assert (Hn : (n <= length (map fst (store c) ++ [w_key w]))%nat).
      { rewrite length_app, length_map. cbn. lia. }
      replace (skipn n (map fst (store c) ++ [w_key w]) ++ map w_key ws)
        with (skipn n ((map fst (store c) ++ [w_key w]) ++ map w_key ws)).
      2:{ rewrite skipn_app.
          replace (n - length (map fst (store c) ++ [w_key w]))%nat with 0%nat
            by lia.
          reflexivity. }
      rewrite skipn_skipn, <- app_assoc. cbn [app map].
      f_equal. rewrite Hs, length_skipn, length_app. cbn [length].
      destruct Hinv as (_ & Hmax & Hlen). lia.
    + congruence.
    + rewrite Hkeys1. apply NoDup_skipn_app.
      rewrite <- app_assoc. exact Hnd.
    + intros w' Hw'. unfold unexpired. rewrite Hs. apply Forall_skipn'.
      apply Forall_app. split.
      * apply Hold. apply elem_of_cons. now right.
      * constructor; [|constructor]. cbn [snd]. unfold expired. cbn [expiresAt].
        assert (w_prune w' < w_expiry w + ttlMs c).
        { apply Hnew; apply elem_of_cons; [now left | now right]. }
        destruct (0 <? ttlMs c); [|reflexivity].
        apply andb_false_iff. right. apply Z.leb_gt. assumption.
    + intros w1 w2 H1 H2. rewrite Ht1.
      apply Hnew; apply elem_of_cons; now right.
Qed.

End CacheSequences.

Section CacheAdmission.
Import PromptCache CacheSpec.

Lemma map_delete_length_le {A} (k : string) (m : list (string * A)) :
  (length (map_delete k m) <= length m)%nat.
Proof.
  induction m as [|[k' v] m IH]; simpl; [lia|].
  destruct (String.eqb k k'); simpl; lia.
Qed.

Lemma prop_ok_truthy r : JS.prop r "ok" = VBool true -> JS.truthy r = true.
Proof.
  destruct r as [ | | b | n | s | l | fs]; cbn; try discriminate; try reflexivity.
Qed.

Lemma shouldCacheResponse_admissible r :
  shouldCacheResponse r = true <-> admissible r.
Proof.
  unfold shouldCacheResponse, admissible, choice_message, first_choice.
  set (choice := JS.optProp (JS.optProp (JS.prop r "json") "choices") "0").
  set (message := JS.coalesce (JS.prop choice "message") (VObj [])).
  split.
  - intros Hs.
    destruct (JS.truthy r); cbn [negb] in Hs; [|discriminate].
    destruct (JS.prop r "ok") as [ | | [|] | | | | ]; cbn [negb] in Hs;
      try discriminate.
    destruct (JS.truthy (JS.prop r "json")); cbn [negb] in Hs; [|discriminate].
    destruct (JS.truthy choice); cbn [negb] in Hs;
      [|destruct (JS.prop r "status") as [ | | | n | | | ];
        try destruct (negb (n =? 200)); discriminate].
    repeat split.
    + intros n Hn. rewrite Hn in Hs.
      destruct (n =? 200) eqn:E; cbn [negb] in Hs; [|discriminate].
      now apply Z.eqb_eq.
    + intros Hf. rewrite Hf in Hs. cbn in Hs.
      destruct (JS.prop r "status") as [ | | | n | | | ];
        try destruct (negb (n =? 200)); discriminate.
    + intros l Hl. rewrite Hl in Hs.
      destruct l as [|x l]; [reflexivity|]. cbn in Hs.
      repeat case_match; discriminate.
  - intros (Hok & Hjson & Hstatus & Hchoice & Hfinish & Htools).
    rewrite (prop_ok_truthy r Hok), Hok, Hjson, Hchoice. cbn [negb].
    assert (Hst : match JS.prop r "status" with
                  | VNum n => negb (n =? 200)
                  | _ => false
                  end = false).
    { destruct (JS.prop r "status") as [ | | | n | | | ]; try reflexivity.
      rewrite (Hstatus n eq_refl). reflexivity. }
    rewrite Hst.
    assert (Hfr : match JS.optProp choice "finish_reason" with
                  | VStr s => String.eqb s "tool_calls"
                  | _ => false
                  end = false).
    { destruct (JS.optProp choice "finish_reason") as [ | | | | s | | ];
        try reflexivity.
      apply String.eqb_neq. congruence. }
    rewrite Hfr.
    destruct (JS.prop message "tool_calls") as [ | | | | | l | ]; try reflexivity.
    now rewrite (Htools l eq_refl).
Qed.

Lemma admissible_dec r : admissible r \/ ~ admissible r.
Proof.
  destruct (shouldCacheResponse r) eqn:E.
  - left. now apply shouldCacheResponse_admissible.
  - right. intros Ha. apply shouldCacheResponse_admissible in Ha. congruence.
Qed.

Context `{Platform}.

Lemma storeResponse_not_admissible c p r t1 t2 t3 :
  ~ admissible r -> storeResponse c p r t1 t2 t3 = (None, c).
Proof.
  intros Hn. unfold storeResponse.
  destruct (negb (enabled c)); [reflexivity|].
  destruct (shouldCacheResponse r) eqn:E; [|reflexivity].
  apply shouldCacheResponse_admissible in E. contradiction.
Qed.

(** C2. A response whose first choice carries a non-empty tool-call list
    leaves the cache as it is, whatever the state of the cache; and on an
    enabled cache, for a payload or key that yields a usable key,
    [storeResponse] admits the response if and only if [ok] is [true],
    [json] is truthy, [status] is not a number other than 200, the first
    choice is truthy, its [finish_reason] is not [tool_calls] and its
    message carries no non-empty [tool_calls] array; a response that fails
    the test leaves the cache as it is. *)
Theorem C2_storeResponse_admission (c : t) (p r : value) (t1 t2 t3 : Z) :
  (forall x l,
      JS.prop (choice_message r) "tool_calls" = VArr (x :: l) ->
      storeResponse c p r t1 t2 t3 = (None, c)) /\
  (cache_inv c -> enabled c = true -> (exists k, keyOf c p = Some k) ->
   (admitted c p r t1 t2 t3 <-> admissible r) /\
   (~ admissible r -> storeResponse c p r t1 t2 t3 = (None, c))).
Proof.
  split.
  - intros x l Hl. apply storeResponse_not_admissible.
    intros (_ & _ & _ & _ & _ & Ht). specialize (Ht _ Hl). discriminate.
  - intros Hinv En [k Hk]. split; [|apply storeResponse_not_admissible].
    split.
    + intros (k' & e & Hf & _ & _).
      destruct (storeResponse_stores _ _ _ _ _ _ _ Hinv Hf) as (_ & Sh & _).
      now apply shouldCacheResponse_admissible.
    + intros Ha. apply shouldCacheResponse_admissible in Ha.
      assert (Hf : fst (storeResponse c p r t1 t2 t3) = Some k).
      { unfold storeResponse. rewrite En, Ha, Hk. reflexivity. }
      destruct (storeResponse_stores _ _ _ _ _ _ _ Hinv Hf) as (_ & _ & _ & Hs).
      cbv zeta in Hs.
      unfold admitted. cbv zeta. exists k.
      exists {| cached := r; createdAt := t2;
                expiresAt := if 0 <? ttlMs c then Some (t3 + ttlMs c) else None |}.
      split; [exact Hf|].
      rewrite Hs. split; [|reflexivity].
      pose proof (pruneExpired_inv c t1 Hinv) as (Hnd & _ & Hlen).
      destruct (pruneExpired_params c t1) as (_ & Hm & _).
      destruct Hinv as (_ & Hmax & _).
      rewrite evict_skipn by lia.
      set (s := map_delete k (store (pruneExpired c t1))).
      assert (Hfresh : k ∉ map fst s).
      { apply map_get_None_notin. now apply map_delete_gone. }
      rewrite skipn_app.
      assert (Hle : (length s <= length (store (pruneExpired c t1)))%nat).
      { apply map_delete_length_le. }
      replace (length (s ++ [(k, _)]) - Z.to_nat (maxEntries c) - length s)%nat
        with 0%nat by (rewrite length_app; cbn; lia).
      cbn [skipn]. apply map_get_app_fresh.
      intros Hin. apply Hfresh. eapply skipn_keys_incl. exact Hin.
Qed.

End CacheAdmission.

Section CacheClaims.
Import PromptCache CacheSpec Examples.

(** C2, counterexample.  The reply [response_finish_tool_calls] has [ok]
    true, status 200 and a first choice whose message has no tool-call
    list, yet [storeResponse] does not admit it: the cache is unchanged. *)
Lemma C2_counterexample :
  spec_admissible response_finish_tool_calls /\
  @storeResponse Demo.platform cache_on (VStr "key-1")
    response_finish_tool_calls 1000 1000 1000 = (None, cache_on) /\
  ~ @admitted Demo.platform cache_on (VStr "key-1")
      response_finish_tool_calls 1000 1000 1000.
Proof.
  split; [|split].
  - repeat split; try reflexivity. intros [l Hl]. discriminate.
  - reflexivity.
  - intros (k & e & Hf & _). discriminate.
Qed.

Lemma C2_storeResponse_admission_witness :
  cache_inv cache_on /\
  (@admitted Demo.platform cache_on (VStr "key-1") response_text 1000 1000 1000
   <-> admissible response_text).
Proof.
  assert (Hinv : cache_inv cache_on).
  { split; [constructor | split; [reflexivity | discriminate]]. }
  split; [exact Hinv|].
  apply (@C2_storeResponse_admission Demo.platform cache_on (VStr "key-1")
           response_text 1000 1000 1000).
  - exact Hinv.
  - reflexivity.
  - exists "key-1". reflexivity.
Defined.

(** C10. A cache built with [enabled] false is inert: [buildKey], [fetch]
    and [storeResponse] return [null] and, like [lookup] and
    [pruneExpired], leave the cache exactly as it was. *)
Theorem C10_disabled_cache_inert `{Platform} (c : t) :
  enabled c = false ->
  forall (payload response : value) (t1 t2 t3 : Z),
    buildKey c payload = None /\
    fetch c payload t1 t2 = (None, c) /\
    storeResponse c payload response t1 t2 t3 = (None, c) /\
    lookup c payload t1 t2 = ({| key := None; found := None |}, c) /\
    pruneExpired c t1 = c.
Proof.
  intros En payload response t1 t2 t3.
  unfold fetch, lookup, storeResponse, buildKey, pruneExpired.
  rewrite En. cbn. repeat split; reflexivity.
Qed.

Lemma C10_disabled_cache_inert_witness :
  enabled cache_off = false /\
  @fetch Demo.platform cache_off response_text 1000 1000 = (None, cache_off) /\
  @storeResponse Demo.platform cache_off (VStr "key-1") response_text
    1000 1000 1000 = (None, cache_off).
Proof.
  split; [reflexivity|].
  pose proof (C10_disabled_cache_inert (H := Demo.platform) cache_off eq_refl
                response_text response_text 1000 1000 1000) as (_ & Hf & _).
  split; [exact Hf|].
  exact (proj1 (proj2 (proj2
    (C10_disabled_cache_inert (H := Demo.platform) cache_off eq_refl
       (VStr "key-1") response_text 1000 1000 1000)))).
Defined.

(** C9, as the code has it.  Under the invariant of the cache (distinct
    keys, a positive capacity that the store respects), which [new]
    establishes: [storeResponse] and [lookup] keep it, so the store never
    holds more than [maxEntries] entries; a lookup hit moves the entry to
    the tail; a store puts the entry at the tail, also when the key was
    present, and then drops entries from the head until [maxEntries] remain;
    writing distinct new keys while nothing expires keeps exactly the most
    recent ones, so that [maxEntries + 1] writes into an empty store, none
    of them expired before the last, leave the last [maxEntries] of them
    and evict the first. *)
Theorem C9_lru_capacity `{Platform} (c : t) :
  cache_inv c ->
  (forall p r t1 t2 t3, cache_inv (snd (storeResponse c p r t1 t2 t3))) /\
  (forall p t1 t2, cache_inv (snd (lookup c p t1 t2))) /\
  (forall p t1 t2 e,
      found (fst (lookup c p t1 t2)) = Some e ->
      exists k, key (fst (lookup c p t1 t2)) = Some k /\
                store (snd (lookup c p t1 t2))
                = map_delete k (store (pruneExpired c t1)) ++ [(k, e)]) /\
  (forall p r t1 t2 t3 k,
      fst (storeResponse c p r t1 t2 t3) = Some k ->
      exists e, cached e = r /\
        let s := map_delete k (store (pruneExpired c t1)) ++ [(k, e)] in
        store (snd (storeResponse c p r t1 t2 t3))
        = skipn (length s - Z.to_nat (maxEntries c)) s /\
        (is_Some (map_get k (store (pruneExpired c t1))) ->
         store (snd (storeResponse c p r t1 t2 t3)) = s)) /\
  (forall ws : list write,
      enabled c = true ->
      NoDup (map fst (store c) ++ map w_key ws) ->
      Forall (fun w => w_key w <> "" /\
                       shouldCacheResponse (w_response w) = true) ws ->
      Forall (fun w => unexpired (w_prune w) (store c)) ws ->
      Forall (fun w => Forall (fun w' => w_prune w' < w_expiry w + ttlMs c) ws) ws ->
      map fst (store (store_all c ws))
      = skipn (length (store c) + length ws - Z.to_nat (maxEntries c))
              (map fst (store c) ++ map w_key ws) /\
      (store c = [] -> length ws = S (Z.to_nat (maxEntries c)) ->
       map fst (store (store_all c ws)) = tl (map w_key ws) /\
       length (store (store_all c ws)) = Z.to_nat (maxEntries c))).
Proof.
  intros Hinv. split; [|split; [|split; [|split]]].
  - intros. now apply storeResponse_inv.
  - intros. now apply lookup_inv.
  - intros p t1 t2 e Hf.
    destruct (lookup_hit c p t1 t2 e Hinv Hf) as (k & Hk & _ & _ & Hs).
    exists k. split; assumption.
  - intros p r t1 t2 t3 k Hf.
    destruct (storeResponse_stores _ _ _ _ _ _ _ Hinv Hf) as (_ & _ & _ & Hs).
    cbv zeta in Hs.
    eexists {| cached := r |}. split; [reflexivity|]. cbv zeta.
    pose proof (pruneExpired_inv c t1 Hinv) as (Hnd & _ & Hlen).
    destruct (pruneExpired_params c t1) as (_ & Hm & _).
    destruct Hinv as (_ & Hmax & _).
    rewrite Hs, evict_skipn by lia. split; [reflexivity|].
    intros [e0 He0].
    pose proof (map_delete_length _ _ _ He0) as Hl.
    rewrite length_app. cbn [length].
    match goal with |- skipn ?n _ = _ => replace n with 0%nat by lia end.
    reflexivity.
  - intros ws En Hnd Hok Hold Hnew.
    assert (Hkeys : map fst (store (store_all c ws))
      = skipn (length (store c) + length ws - Z.to_nat (maxEntries c))
              (map fst (store c) ++ map w_key ws)).
    { apply store_all_keys; try assumption.
      - intros w Hw. rewrite Forall_forall in Hold. now apply Hold.
      - intros w w' Hw Hw'. rewrite Forall_forall in Hnew.
        specialize (Hnew w Hw). rewrite Forall_forall in Hnew. now apply Hnew. }
    split; [exact Hkeys|].
    intros Hempty Hlen.
    assert (Hk : map fst (store (store_all c ws)) = tl (map w_key ws)).
    { rewrite Hkeys, Hempty, Hlen. cbn [length map app].
      replace (0 + S (Z.to_nat (maxEntries c)) - Z.to_nat (maxEntries c))%nat
        with 1%nat by lia.
      destruct (map w_key ws); reflexivity. }
    split; [exact Hk|].
    rewrite <- (length_map fst), Hk.
    destruct ws as [|w ws]; [discriminate|].
    cbn [map tl length] in *. rewrite length_map. lia.
Qed.

(** C9, counterexample.  Three writes of distinct admissible keys into a
    cache of capacity two, each made after the entry before it expired,
    leave one entry, not two: [storeResponse] drops expired entries first. *)
Lemma C9_counterexample :
  maxEntries cache_on = 2 /\
  NoDup (map w_key spread_writes) /\
  Forall (fun w => w_key w <> "" /\
                   shouldCacheResponse (w_response w) = true) spread_writes /\
  length spread_writes = S (Z.to_nat (maxEntries cache_on)) /\
  map fst (store (@store_all Demo.platform cache_on spread_writes)) = ["c"] /\
  length (store (@store_all Demo.platform cache_on spread_writes))
  <> Z.to_nat (maxEntries cache_on).
Proof.
  split; [reflexivity|].
  split; [apply (bool_decide_unpack _); vm_compute; exact I|].
  split; [repeat constructor; discriminate|].
  split; [reflexivity|]. split; [vm_compute; reflexivity|].
  vm_compute. discriminate.
Qed.

Lemma C9_lru_capacity_witness :
  cache_inv cache_on /\
  map fst (store (@store_all Demo.platform cache_on three_writes)) = ["b"; "c"] /\
  length (store (@store_all Demo.platform cache_on three_writes)) = 2%nat /\
  let c_ab := @store_all Demo.platform cache_on two_writes in
  map fst (store c_ab) = ["a"; "b"] /\
  (exists k e,
      key (fst (@lookup Demo.platform c_ab (VStr "a") 2500 2500)) = Some k /\
      store (snd (@lookup Demo.platform c_ab (VStr "a") 2500 2500))
      = map_delete k (store (pruneExpired c_ab 2500)) ++ [(k, e)]) /\
  map fst (store (snd (@lookup Demo.platform c_ab (VStr "a") 2500 2500)))
  = ["b"; "a"] /\
  map fst
    (store (snd (@storeResponse Demo.platform
                   (snd (@lookup Demo.platform c_ab (VStr "a") 2500 2500))
                   (VStr "c") response_text 3000 3001 3001)))
  = ["a"; "c"].
Proof.
  assert (Hinv : cache_inv cache_on).
  { split; [constructor | split; [reflexivity | discriminate]]. }
  split; [exact Hinv|].
  pose proof (proj2 (proj2 (proj2 (proj2
    (C9_lru_capacity (H := Demo.platform) cache_on Hinv)))) three_writes)
    as Hseq.
  destruct Hseq as [_ Hfull].
  - reflexivity.
  - apply (bool_decide_unpack _). vm_compute. exact I.
  - repeat constructor; discriminate.
  - repeat constructor.
  - repeat constructor; cbn; lia.
  - destruct (Hfull eq_refl eq_refl) as [Hkeys Hlen].
    split; [exact Hkeys|]. split; [exact Hlen|]. cbv zeta.
    set (c_ab := @store_all Demo.platform cache_on two_writes).
    assert (Hinv_ab : cache_inv c_ab).
    { apply (proj1 (C9_lru_capacity (H := Demo.platform) _
                      (proj1 (C9_lru_capacity (H := Demo.platform) cache_on Hinv)
                         (VStr "a") response_text 1000 1000 1000))). }
    split; [vm_compute; reflexivity|]. split.
    + destruct (found (fst (@lookup Demo.platform c_ab (VStr "a") 2500 2500)))
        as [e|] eqn:Hf; [|vm_compute in Hf; discriminate Hf].
      destruct (proj1 (proj2 (proj2
                  (C9_lru_capacity (H := Demo.platform) c_ab Hinv_ab)))
                  (VStr "a") 2500 2500 e Hf) as (k & Hk & Hs).
      exists k, e. split; assumption.
    + split; vm_compute; reflexivity.
Defined.

End CacheClaims.

(** ** Cache keys *)

Section CacheKeys.
Import PromptCache CacheSpec Examples.

Lemma normaliseObject_undefined v :
  normaliseObject v = VUndefined <-> v = VUndefined.
Proof. destruct v; cbn; split; congruence. Qed.

Lemma normaliseObject_truthy v :
  JS.truthy (normaliseObject v) = JS.truthy v.
Proof. destruct v; reflexivity. Qed.

Lemma normaliseObject_nullish v :
  JS.nullish (normaliseObject v) = JS.nullish v.
Proof. destruct v; reflexivity. Qed.

Lemma normalise_step_normalised sorted k v :
  normalise_step sorted (k, (v, normaliseObject v))
  = store_normalised sorted (k, normaliseObject v).
Proof. destruct v; reflexivity. Qed.

Lemma insert_sorted_map {A B} (g : A -> B) k x (l : list (string * A)) :
  insert_sorted k (g x) (map (fun kv => (fst kv, g (snd kv))) l)
  = map (fun kv => (fst kv, g (snd kv))) (insert_sorted k x l).
Proof.
  induction l as [|[k' y] l IH]; cbn; [reflexivity|].
  destruct (String.leb k k'); cbn; [reflexivity|]. now rewrite IH.
Qed.

Lemma sort_by_key_map {A B} (g : A -> B) (l : list (string * A)) :
  sort_by_key (map (fun kv => (fst kv, g (snd kv))) l)
  = map (fun kv => (fst kv, g (snd kv))) (sort_by_key l).
Proof.
  unfold sort_by_key.
  induction l as [|[k x] l IH]; cbn [map fold_right fst snd]; [reflexivity|].
  rewrite IH. apply insert_sorted_map.
Qed.

(** The normal form of an object is a function of the keys and of the
    normal forms of the values. *)
Lemma normaliseObject_object fields :
  normaliseObject (VObj fields)
  = VObj (fold_left store_normalised
            (sort_by_key (map (fun kv => (fst kv, normaliseObject (snd kv))) fields))
            []).
Proof.
  cbn [normaliseObject]. f_equal.
  rewrite (sort_by_key_map (fun v => (v, normaliseObject v)) fields).
  rewrite (sort_by_key_map normaliseObject fields).
  generalize (@nil (string * value)).
  induction (sort_by_key fields) as [|[k v] l IH]; intros acc; cbn [map fold_left];
    [reflexivity|].
  cbn [fst snd]. rewrite normalise_step_normalised. apply IH.
Qed.

Lemma normaliseObject_coalesce_null a b :
  normaliseObject a = normaliseObject b ->
  normaliseObject (JS.coalesce a VNull) = normaliseObject (JS.coalesce b VNull).
Proof.
  intros Hab. unfold JS.coalesce.
  rewrite <- (normaliseObject_nullish a), <- (normaliseObject_nullish b), Hab.
  destruct (JS.nullish (normaliseObject b)); [reflexivity | assumption].
Qed.

Lemma normaliseObject_guarded a b :
  normaliseObject a = normaliseObject b ->
  normaliseObject (if JS.truthy a then normaliseObject a else VNull)
  = normaliseObject (if JS.truthy b then normaliseObject b else VNull).
Proof.
  intros Hab.
  rewrite <- (normaliseObject_truthy a), <- (normaliseObject_truthy b), Hab.
  reflexivity.
Qed.

(** C3. Two request bodies whose eight key fields have the same normal
    form (keys sorted recursively, [undefined] fields dropped) get the same
    cache key, whatever else the bodies contain. *)
Theorem C3_buildKey_deterministic `{Platform} (c : t) (p1 p2 : value) :
  is_body p1 -> is_body p2 ->
  Forall (fun f => normaliseObject (JS.prop p1 f) = normaliseObject (JS.prop p2 f))
         KEY_FIELDS ->
  buildKey c p1 = buildKey c p2.
Proof.
  intros [T1 O1] [T2 O2] Hfields.
  unfold buildKey. rewrite T1, O1, T2, O2. cbn [negb orb].
  destruct (negb (enabled c)); [reflexivity|].
  unfold KEY_FIELDS in Hfields.
  repeat match goal with
         | Hf : Forall _ (_ :: _) |- _ =>
             let E := fresh "E" in apply Forall_cons in Hf as [E Hf]
         end.
  do 2 f_equal. unfold stableStringify. f_equal.
  rewrite !normaliseObject_object. do 3 f_equal. cbn [map fst snd].
  repeat match goal with
         | E : normaliseObject _ = normaliseObject _ |- _ =>
             first [ rewrite (normaliseObject_coalesce_null _ _ E)
                   | rewrite (normaliseObject_guarded _ _ E) ];
             clear E
         end.
  reflexivity.
Qed.

Lemma C3_buildKey_deterministic_witness :
  is_body body_one /\ is_body body_two /\
  @buildKey Demo.platform cache_on body_one
  = @buildKey Demo.platform cache_on body_two.
Proof.
  split; [split; reflexivity|]. split; [split; reflexivity|].
  apply (@C3_buildKey_deterministic Demo.platform cache_on body_one body_two).
  - split; reflexivity.
  - split; reflexivity.
  - repeat constructor.
Defined.

End CacheKeys.

(** ** The policy engine *)

Section PolicyClaims.
Import Policy PolicySpec Examples.

(** The patterns on sample commands. *)
Example blocklist_samples :
  map (fun s => matchesAny SHELL_BLOCKLIST_PATTERNS (VStr s))
      ["rm -rf /"; "sudo RM  -RF / "; "rm -rf /tmp/build"; "shutdown -h now";
       "Reboot"; "systemctl  stop nginx"; "mkfs.ext4 /dev/sda1";
       "dd if=/dev/zero of=/dev/sda"; ":(){:|:&};:"; "chown -R root /srv";
       "ls -la"; ""]
  = [true; true; false; true; true; true; true; true; true; true; false; false].
Proof. vm_compute. reflexivity. Qed.

Lemma existsb_eqb_elem (name : string) (l : list string) :
  existsb (String.eqb name) l = true <-> name ∈ l.
Proof.
  rewrite existsb_exists, list_elem_of_In. split.
  - intros (x & Hin & Heq). apply String.eqb_eq in Heq. now subst.
  - intros Hin. exists name. split; [assumption | apply String.eqb_refl].
Qed.

(** The configuration builds a disallow list without empty names. *)
Lemma parseDisallowedTools_ok env max gitPolicy :
  config_ok {| maxToolCallsPerTurn := max;
               disallowedTools := parseDisallowedTools env;
               git := gitPolicy |}.
Proof.
  unfold config_ok, parseDisallowedTools. cbn [disallowedTools].
  destruct env as [text|]; [|constructor].
  apply Forall_forall. intros tool Hin.
  apply list_elem_of_In, filter_In in Hin as [_ Ht].
  intros ->. discriminate.
Qed.

Example parseDisallowedTools_sample :
  parseDisallowedTools (Some "shell, python_exec,,  ,web_fetch ")
  = ["shell"; "python_exec"; "web_fetch"].
Proof. reflexivity. Qed.


Section WithPlatform.
Context `{Platform}.

Lemma isToolAllowed_disallowed cfg name :
  config_ok cfg -> name ∈ disallowedTools cfg ->
  isToolAllowed cfg (VStr name) = false.
Proof.
  intros Hcfg Hin. unfold isToolAllowed.
  assert (Hne : name <> "").
  { unfold config_ok in Hcfg. rewrite Forall_forall in Hcfg. now apply Hcfg. }
  apply String.eqb_neq in Hne. cbn [JS.truthy]. rewrite Hne. cbn [negb].
  apply negb_false_iff. now apply existsb_eqb_elem.
Qed.

Lemma isToolAllowed_other cfg toolName :
  (forall name, toolName = VStr name -> name ∉ disallowedTools cfg) ->
  isToolAllowed cfg toolName = true.
Proof.
  intros Hn. unfold isToolAllowed.
  destruct (negb (JS.truthy toolName)); [reflexivity|].
  destruct toolName as [ | | | | name | | ]; try reflexivity.
  apply negb_true_iff. apply not_true_is_false. intros He.
  apply existsb_eqb_elem in He. now apply (Hn name eq_refl).
Qed.

(** C7. The disallow list comes before the quota: a call whose tool name
    is on the list is denied with 403 [tool_disallowed] whatever the number
    of calls executed so far; a call whose name is not on the list, once the
    quota is used up, is denied with 429 [tool_limit_reached]. *)
Theorem C7_disallow_before_quota (cfg : config) (call : value)
    (toolCallsExecuted : Z) :
  config_ok cfg ->
  (forall name,
      toolNameOf call = VStr name -> name ∈ disallowedTools cfg ->
      evaluateToolCall cfg call toolCallsExecuted
      = Ok (deny ("Tool " +:+ name +:+ " is disallowed by policy")
                 403 "tool_disallowed")) /\
  ((forall name, toolNameOf call = VStr name -> name ∉ disallowedTools cfg) ->
   maxToolCallsPerTurn cfg <= toolCallsExecuted ->
   evaluateToolCall cfg call toolCallsExecuted
   = Ok (deny ("Exceeded max tool calls ("
               +:+ JS.decimal (maxToolCallsPerTurn cfg) +:+ ")")
              429 "tool_limit_reached")).
Proof.
  intros Hcfg. split.
  - intros name Hname Hin. unfold evaluateToolCall. rewrite Hname.
    rewrite (isToolAllowed_disallowed cfg name Hcfg Hin). reflexivity.
  - intros Hother Hquota. unfold evaluateToolCall.
    rewrite (isToolAllowed_other cfg (toolNameOf call) Hother). cbn [negb].
    apply Z.leb_le in Hquota. rewrite Hquota. reflexivity.
Qed.


End WithPlatform.

Lemma C7_disallow_before_quota_witness :
  config_ok policy_no_shell /\
  @evaluateToolCall Demo.platform policy_no_shell shell_call_string 12
  = Ok (deny "Tool shell is disallowed by policy" 403 "tool_disallowed").
Proof.
  assert (Hcfg : config_ok policy_no_shell).
  { repeat constructor. discriminate. }
  split; [exact Hcfg|].
  apply (proj1 (@C7_disallow_before_quota Demo.platform policy_no_shell
                  shell_call_string 12 Hcfg) "shell").
  - reflexivity.
  - apply list_elem_of_singleton. reflexivity.
Defined.



End PolicyClaims.

(** ** The tool registry *)

Section ToolClaims.
Import Tools Examples.

(** C5. [executeToolCall] on a call without a name: the registry lookup
    fails and the alias lookup calls [toLowerCase] on [undefined], so the
    promise is rejected with a [TypeError] instead of resolving to a 404
    tool result.  ([getTool] returns early on a missing name.) *)
Theorem C5_executeToolCall_missing_name_rejects `{Platform}
    (st : state) (context : value) (now : Z) :
  toolNameOf nameless_call = VUndefined /\
  executeToolCall st nameless_call context now
  = Throw (JS.TypeError
             "Cannot read properties of undefined (reading 'toLowerCase')") /\
  getTool st (toolNameOf nameless_call) = Ok None.
Proof. repeat split. Qed.

Section WithPlatform.
Context `{Platform}.

Lemma normaliseToolCall_named call now s :
  toolNameOf call = VStr s ->
  normaliseToolCall call now
  = Ok {| nc_id := namedCallId call now s; nc_name := VStr s;
          nc_arguments := parseArguments call; nc_raw := call |}.
Proof.
  intros Hname. unfold normaliseToolCall, callId, namedCallId, JS.coalesce.
  rewrite Hname. destruct (JS.nullish (JS.optProp call "id")); reflexivity.
Qed.

(** The rest of the contract holds for a call that has a name: a name
    that no route resolves gives a 404 result ... *)
Lemma executeToolCall_not_registered st call context now s :
  toolNameOf call = VStr s ->
  registry st !! s = None ->
  (forall target, JS.assoc (JS.toLowerCase s) TOOL_ALIASES = Some target ->
                  registry st !! target = None) ->
  registryLowercase st !! JS.toLowerCase s = None ->
  executeToolCall st call context now
  = Ok {| id := namedCallId call now s;
          name := VStr s;
          arguments := parseArguments call;
          ok := VBool false;
          status := VNum 404;
          content := coerceString
                       (VObj [("error", VStr "tool_not_registered");
                              ("tool", VStr s);
                              ("input", parseArguments call)]);
          metadata := VObj [("registered", VBool false)];
          error := None |}.
Proof.
  intros Hname Hreg Halias Hlower.
  unfold executeToolCall. rewrite (normaliseToolCall_named _ _ _ Hname).
  cbn [bind]. cbn [nc_name nc_id nc_arguments nc_raw].
  cbn [map_get call_toLowerCase bind]. rewrite Hreg.
  cbn [bind].
  destruct (JS.assoc (JS.toLowerCase s) TOOL_ALIASES) as [target|] eqn:Ha.
  - rewrite (Halias target eq_refl). cbn [bind fst snd call_toLowerCase].
    rewrite Hlower. cbn [bind fst snd]. reflexivity.
  - cbn [bind fst snd call_toLowerCase]. rewrite Hlower. reflexivity.
Qed.

(** ... and a handler that throws an error gives a 500 result that
    carries the name of the tool and the message of the error. *)
Lemma executeToolCall_handler_throws st call context now s reg err :
  toolNameOf call = VStr s ->
  registry st !! s = Some reg ->
  (forall arg, run reg arg context = Throw err) ->
  JS.nullish err = false ->
  executeToolCall st call context now
  = Ok {| id := namedCallId call now s;
          name := VStr s;
          arguments := parseArguments call;
          ok := VBool false;
          status := VNum 500;
          content := coerceString
                       (VObj [("error", VStr "tool_execution_failed");
                              ("tool", VStr s);
                              ("message", JS.prop err "message")]);
          metadata := VObj [("registered", VBool true); ("error", VBool true)];
          error := Some err |}.
Proof.
  intros Hname Hreg Hthrow Herr.
  unfold executeToolCall. rewrite (normaliseToolCall_named _ _ _ Hname).
  cbn [nc_name nc_id nc_arguments nc_raw bind].
  cbn [map_get]. rewrite Hreg. cbn [bind fst snd].
  rewrite Hthrow. unfold JS.getProp. rewrite Herr. reflexivity.
Qed.

End WithPlatform.

(** C8. With a tool registered as [Grep] and the tool [workspace_search],
    a call named [grep] is executed by [workspace_search]: [executeToolCall]
    consults the alias table before the lowercase map, whereas [getTool]
    (exact, lowercase, alias) finds [Grep]. *)
Theorem C8_executeToolCall_alias_before_lowercase :
  exists st,
    two_tools = Ok st /\
    match getTool st (VStr "grep") with
    | Ok (Some reg) =>
        options reg = VObj [("category", VStr "custom")] /\
        run reg VNull VNull = Ok (VStr "result of Grep")
    | _ => False
    end /\
    exists r,
      @executeToolCall Demo.platform st (VObj [("name", VStr "grep")]) (VObj []) 0
      = Ok r /\
      name r = VStr "workspace_search" /\
      content r = "result of workspace_search".
Proof.
  eexists. split; [reflexivity|]. split.
  - vm_compute. split; reflexivity.
  - eexists. split; [vm_compute; reflexivity|]. split; reflexivity.
Qed.

End ToolClaims.

(** ** Workspace paths *)

Section WorkspaceClaims.
Import Workspace.

(** What the test in [resolveWorkspacePath] does ensure: the text of the
    result starts with the text of the root. *)
Lemma resolveWorkspacePath_prefix cwd configRoot targetPath resolved :
  resolveWorkspacePath cwd configRoot targetPath = Ok resolved ->
  JS.startsWith (workspaceRoot cwd configRoot) resolved = true.
Proof.
  unfold resolveWorkspacePath.
  destruct targetPath as [ | | | | p | | ]; try discriminate.
  destruct (String.eqb p ""); [discriminate|].
  destruct (JS.startsWith (workspaceRoot cwd configRoot)
              (Path.resolve cwd [workspaceRoot cwd configRoot; p])) eqn:E;
    cbn [negb]; [|discriminate].
  now intros [= <-].
Qed.

(** Paths that leave the root and its textual prefix are refused. *)
Example resolveWorkspacePath_refuses_parent :
  resolveWorkspacePath "/" "/srv/ws" (VStr "../../etc/passwd")
  = Throw (JS.Error "Access outside workspace is not permitted.") /\
  resolveWorkspacePath "/" "/srv/ws" (VStr "/etc/passwd")
  = Throw (JS.Error "Access outside workspace is not permitted.") /\
  resolveWorkspacePath "/" "/srv/ws" (VStr "src/../README.md")
  = Ok "/srv/ws/README.md".
Proof. repeat split. Qed.

(** C1. With the root [/srv/ws], the absolute path
    [/srv/ws-private/key.pem] and the relative path
    [../ws-private/key.pem] are both resolved and returned, although the
    file lies in a sibling directory of the root: the test compares texts
    with [startsWith] and the sibling's name starts with the root's. *)
Theorem C1_resolveWorkspacePath_escapes_to_sibling :
  workspaceRoot "/" "/srv/ws" = "/srv/ws" /\
  resolveWorkspacePath "/" "/srv/ws" (VStr "/srv/ws-private/key.pem")
  = Ok "/srv/ws-private/key.pem" /\
  resolveWorkspacePath "/" "/srv/ws" (VStr "../ws-private/key.pem")
  = Ok "/srv/ws-private/key.pem" /\
  within "/srv/ws" "/srv/ws-private/key.pem" = false.
Proof. repeat split. Qed.

End WorkspaceClaims.

(** ** The MCP client *)

Section McpClaims.
Import Mcp McpSpec Examples.

Section WithPlatform.
Context `{Platform}.

Lemma new_client_inv serverConfig c :
  new serverConfig = Ok c -> client_inv c.
Proof.
  unfold new.
  destruct (negb (JS.truthy serverConfig) || negb (JS.typeof_object serverConfig));
    [discriminate|].
  intros [= <-].
  split; [reflexivity|]. split; intros id [x Hx]; cbn in Hx;
    rewrite lookup_empty in Hx; discriminate.
Qed.

Lemma settle_lookup id o s j :
  settle id o s !! j
  = if decide (j = id) then Some (default o (s !! id)) else s !! j.
Proof.
  unfold settle. destruct (s !! id) as [x|] eqn:E; case_decide; subst; cbn.
  - assumption.
  - reflexivity.
  - apply lookup_insert_eq.
  - now apply lookup_insert_ne.
Qed.

Lemma request_inv c method params write_error :
  client_inv c -> client_inv (snd (request c method params write_error)).
Proof.
  intros Hinv. pose proof Hinv as (Hclosed & Hpending & Hsettled).
  unfold request.
  destruct (negb (started c)); [exact Hinv|].
  destruct (closed c) eqn:Ec; [exact Hinv|].
  assert (Hfresh : settled c !! nextId c = None).
  { destruct (settled c !! nextId c) eqn:E; [|reflexivity].
    specialize (Hsettled (nextId c) (mk_is_Some _ _ E)). lia. }
  destruct (write_failure c write_error); cbn [snd];
    unfold client_inv, with_pending;
    cbn [closed pending settled nextId]; (split; [congruence|]); split.
  - intros id [x Hx]. destruct (decide (id = nextId c)) as [->|Hne].
    + rewrite lookup_delete_eq in Hx. discriminate.
    + rewrite lookup_delete_ne, lookup_insert_ne in Hx by congruence.
      destruct (Hpending id (mk_is_Some _ _ Hx)).
      rewrite settle_lookup. case_decide; [congruence|]. split; [assumption | lia].
  - intros id [x Hx]. rewrite settle_lookup in Hx. case_decide.
    + subst. lia.
    + specialize (Hsettled id (mk_is_Some _ _ Hx)). lia.
  - intros id [x Hx]. destruct (decide (id = nextId c)) as [->|Hne].
    + split; [assumption | lia].
    + rewrite lookup_insert_ne in Hx by congruence.
      destruct (Hpending id (mk_is_Some _ _ Hx)). split; [assumption | lia].
  - intros id Hid. specialize (Hsettled id Hid). lia.
Qed.

(** The four things [handleMessage] can do. *)
Lemma handleMessage_cases c message :
  handleMessage c message = c \/
  (exists id o, is_Some (pending c !! id) /\
                handleMessage c message
                = with_pending c (nextId c) (delete id (pending c))
                    (settle id o (settled c)) (written c)) \/
  (exists id, is_Some (pending c !! id) /\
              handleMessage c message
              = with_pending c (nextId c) (delete id (pending c))
                  (settled c) (written c)) \/
  (JS.hasOwn message "id" = false /\
   handleMessage c message
   = {| server := server c; process := process c;
        readInterface := readInterface c;
        nextId := nextId c; pending := pending c;
        started := started c; closed := closed c;
        settled := settled c; written := written c;
        emitted := emitted c ++ [("notification", message)] |}).
Proof.
  unfold handleMessage.
  destruct (negb (JS.typeof_object message) || negb (JS.truthy message));
    [now left|].
  destruct (JS.hasOwn message "id"); [|right; right; right; now split].
  destruct (JS.prop message "id") as [ | | | id | | | ]; try now left.
  destruct (pending c !! id) as [u|] eqn:Ep; [|now left].
  destruct (JS.hasOwn message "error" && JS.truthy (JS.prop message "error")).
  - destruct (normaliseError (JS.prop message "error")) as [err|e].
    + right; left. exists id, (Rejected err). rewrite Ep. eauto.
    + right; right; left. exists id. rewrite Ep. eauto.
  - right; left. exists id, (Resolved (JS.prop message "result")).
    rewrite Ep. eauto.
Qed.

Lemma handleMessage_inv c message :
  client_inv c -> client_inv (handleMessage c message).
Proof.
  intros Hinv. pose proof Hinv as (Hclosed & Hpending & Hsettled).
  destruct (handleMessage_cases c message)
    as [-> | [(id & o & Hid & ->) | [(id & Hid & ->) | [_ ->]]]];
    [assumption | | | exact Hinv];
    unfold client_inv, with_pending; cbn [closed pending settled nextId];
    (split; [|split]).
  - intros Hc. rewrite (Hclosed Hc), lookup_empty in Hid. now destruct Hid.
  - intros j [x Hx]. destruct (decide (j = id)) as [->|Hne].
    + rewrite lookup_delete_eq in Hx. discriminate.
    + rewrite lookup_delete_ne in Hx by congruence.
      destruct (Hpending j (mk_is_Some _ _ Hx)).
      rewrite settle_lookup. case_decide; [congruence|]. now split.
  - intros j [x Hx]. rewrite settle_lookup in Hx. case_decide.
    + subst. now destruct (Hpending id Hid).
    + exact (Hsettled j (mk_is_Some _ _ Hx)).
  - intros Hc. rewrite (Hclosed Hc), lookup_empty in Hid. now destruct Hid.
  - intros j [x Hx]. destruct (decide (j = id)) as [->|Hne].
    + rewrite lookup_delete_eq in Hx. discriminate.
    + rewrite lookup_delete_ne in Hx by congruence.
      exact (Hpending j (mk_is_Some _ _ Hx)).
  - exact Hsettled.
Qed.

Lemma close_inv c err : client_inv c -> client_inv (close c err).
Proof.
  intros Hinv. pose proof Hinv as (Hclosed & Hpending & Hsettled).
  unfold close. destruct (closed c); [assumption|].
  unfold client_inv; cbn [closed pending settled nextId].
  split; [reflexivity|]. split.
  - intros id [x Hx]. rewrite lookup_empty in Hx. discriminate.
  - intros id [x Hx]. apply lookup_union_Some_raw in Hx as [Hx | [_ Hx]].
    + exact (Hsettled id (mk_is_Some _ _ Hx)).
    + rewrite lookup_fmap in Hx.
      destruct (pending c !! id) eqn:Ep; [|discriminate].
      now destruct (Hpending id (mk_is_Some _ _ Ep)).
Qed.

Lemma start_inv c spawn_error write_error :
  client_inv c -> client_inv (snd (start c spawn_error write_error)).
Proof.
  intros Hinv. unfold start.
  destruct (started c); [assumption|].
  destruct (negb (JS.truthy (JS.prop (server c) "command"))); [assumption|].
  destruct spawn_error; [assumption|].
  cbn [snd]. unfold initialize. apply request_inv.
  destruct Hinv as (Hclosed & Hpending & Hsettled).
  repeat split; cbn [closed pending settled nextId]; try assumption;
    intros; now apply Hpending.
Qed.

Lemma notify_inv c method params write_error :
  client_inv c -> client_inv (notify c method params write_error).
Proof.
  intros Hinv. unfold notify.
  destruct (negb (started c) || closed c); [assumption|].
  destruct (write_failure c write_error); assumption.
Qed.

Lemma step_inv c e : client_inv c -> client_inv (step c e).
Proof.
  destruct e; cbn [step].
  - apply start_inv.
  - apply request_inv.
  - apply notify_inv.
  - apply handleMessage_inv.
  - apply close_inv.
Qed.

Lemma run_inv es : forall c, client_inv c -> client_inv (run c es).
Proof.
  induction es as [|e es IH]; intros c Hinv; [assumption|].
  cbn [run fold_left]. apply IH. now apply step_inv.
Qed.

(** On a closed client [request] throws, whatever else is true of it. *)
Lemma request_closed c method params write_error :
  closed c = true ->
  exists e, request c method params write_error = (Throw e, c).
Proof.
  intros Hc. unfold request.
  destruct (negb (started c)); [eauto|]. rewrite Hc. eauto.
Qed.

Lemma step_frozen c0 c e : frozen c0 c -> frozen c0 (step c e).
Proof.
  intros (Hc & Hp & Hs & Hn). destruct e; cbn [step].
  - unfold start. destruct (started c); [now repeat split|].
    destruct (negb (JS.truthy (JS.prop (server c) "command")));
      [now repeat split|].
    destruct spawn_error; [now repeat split|].
    cbn [snd]. unfold initialize, request.
    cbn [started closed negb]. rewrite Hc. now repeat split.
  - destruct (request_closed c method params write_error Hc) as [x ->].
    now repeat split.
  - unfold notify. rewrite Hc, orb_true_r. now repeat split.
  - destruct (handleMessage_cases c message)
      as [-> | [(id & o & Hid & _) | [(id & Hid & _) | [_ ->]]]];
      try now repeat split.
    + rewrite Hp, lookup_empty in Hid. now destruct Hid.
    + rewrite Hp, lookup_empty in Hid. now destruct Hid.
  - unfold close. rewrite Hc. now repeat split.
Qed.

Lemma run_frozen es : forall c0 c, frozen c0 c -> frozen c0 (run c es).
Proof.
  induction es as [|e es IH]; intros c0 c Hf; [assumption|].
  cbn [run fold_left]. apply IH. now apply step_frozen.
Qed.

(** C6. Take a client after any history of calls and messages and close
    it.  Every request that was pending is rejected with the error given
    to [close] (or the default one), nothing is pending any more, and from
    then on, whatever else happens, [request] throws, no promise is settled
    (so none is resolved) and no request id is issued. *)
Theorem C6_close_rejects_pending_and_stops_requests
    (serverConfig : value) (c0 : client) (history : list event) (err : value) :
  new serverConfig = Ok c0 ->
  let c := run c0 history in
  let c' := close c err in
  (forall id, is_Some (pending c !! id) ->
     settled c' !! id
     = Some (Rejected (JS.coalesce err (JS.Error "MCP connection closed")))) /\
  pending c' = ∅ /\
  closed c' = true /\
  forall (later : list event) (method params : value) (write_error : option value),
    let c'' := run c' later in
    (exists e, request c'' method params write_error = (Throw e, c'')) /\
    closed c'' = true /\
    pending c'' = ∅ /\
    settled c'' = settled c' /\
    nextId c'' = nextId c'.
Proof.
  intros Hnew c c'.
  assert (Hinv : client_inv c).
  { apply run_inv. eapply new_client_inv. exact Hnew. }
  destruct Hinv as (Hclosed & Hpending & _).
  assert (Hc' : closed c' = true /\ pending c' = ∅).
  { subst c'. unfold close. destruct (closed c) eqn:Ec; [auto|].
    cbn [closed pending]. auto. }
  destruct Hc' as [Hcl Hpe].
  split; [|split; [assumption|split; [assumption|]]].
  - intros id Hid. subst c'. unfold close.
    destruct (closed c) eqn:Ec.
    + rewrite (Hclosed eq_refl), lookup_empty in Hid. now destruct Hid.
    + cbn [settled]. destruct (Hpending id Hid) as [Hs _].
      rewrite lookup_union_r by assumption.
      rewrite lookup_fmap. destruct Hid as [u ->]. reflexivity.
  - intros later method params write_error c''.
    assert (Hf : frozen c' c'').
    { apply run_frozen. now repeat split. }
    destruct Hf as (Hc & Hp & Hs & Hn).
    split; [now apply request_closed|]. now repeat split.
Qed.

End WithPlatform.

Lemma C6_close_rejects_pending_and_stops_requests_witness :
  exists c0,
    new demo_server = Ok c0 /\
    let c := @run Demo.platform c0 client_history in
    is_Some (pending c !! 3) /\
    settled (close c VUndefined) !! 3
    = Some (Rejected (JS.Error "MCP connection closed")) /\
    exists e, @request Demo.platform (close c VUndefined)
                (VStr "tools/list") (VObj []) None
              = (Throw e, close c VUndefined).
Proof.
  eexists. split; [reflexivity|]. cbv zeta.
  pose proof (@C6_close_rejects_pending_and_stops_requests Demo.platform
                demo_server _ client_history VUndefined eq_refl)
    as (Hrejected & _ & _ & Hlater).
  split; [vm_compute; eexists; reflexivity|]. split.
  - apply (Hrejected 3). vm_compute. eexists. reflexivity.
  - exact (proj1 (Hlater [] (VStr "tools/list") (VObj []) None)).
Defined.

End McpClaims.

(* ===================================================================== *)
(** * Further properties *)
(* ===================================================================== *)

(** ** More on the prompt cache: round trips and expiry *)

Section CacheRoundTrips.
Import PromptCache CacheSpec Examples.

Lemma map_get_filter_keep {A} (f : string * A -> bool) k v (m : list (string * A)) :
  map_get k m = Some v -> f (k, v) = true ->
  map_get k (List.filter f m) = Some v.
Proof.
  unfold map_get.
  induction m as [|[k' v'] m IH]; cbn; [discriminate|].
  destruct (String.eqb k k') eqn:E.
  - apply String.eqb_eq in E. subst k'. intros [= ->] Hf.
    rewrite Hf. cbn. now rewrite String.eqb_refl.
  - intros Hg Hf. destruct (f (k', v')); cbn; [rewrite E|]; auto.
Qed.

Lemma map_get_filter_drop {A} (f : string * A -> bool) k v (m : list (string * A)) :
  NoDup (map fst m) ->
  map_get k m = Some v -> f (k, v) = false ->
  map_get k (List.filter f m) = None.
Proof.
  intros Hnd Hg Hf. apply map_get_None_notin.
  induction m as [|[k' v'] m IH]; cbn in *; [discriminate|].
  apply NoDup_cons in Hnd as [Hn Hnd].
  unfold map_get in Hg. cbn in Hg.
  destruct (String.eqb k k') eqn:E.
  - apply String.eqb_eq in E. subst k'. injection Hg as ->.
    rewrite Hf. intros Hin. apply Hn. eapply filter_keys_incl. exact Hin.
  - apply String.eqb_neq in E.
    destruct (f (k', v')); cbn; [apply not_elem_of_cons; split; [exact E|]|];
      now apply IH.
Qed.

Section WithPlatform.
Context `{Platform}.

(** After a store the entry is in the store, under the returned key. *)
Lemma storeResponse_holds c p r t1 t2 t3 k :
  cache_inv c ->
  fst (storeResponse c p r t1 t2 t3) = Some k ->
  map_get k (store (snd (storeResponse c p r t1 t2 t3)))
  = Some {| cached := r; createdAt := t2;
            expiresAt := if 0 <? ttlMs c then Some (t3 + ttlMs c) else None |}.
Proof.
  intros Hinv Hf.
  destruct (storeResponse_stores _ _ _ _ _ _ _ Hinv Hf) as (_ & _ & _ & Hs).
  cbv zeta in Hs. rewrite Hs.
  pose proof (pruneExpired_inv c t1 Hinv) as (Hnd & _ & Hlen).
  destruct (pruneExpired_params c t1) as (_ & Hm & _).
  destruct Hinv as (_ & Hmax & _).
  rewrite evict_skipn by lia.
  set (s := map_delete k (store (pruneExpired c t1))).
  assert (Hfresh : k ∉ map fst s).
  { apply map_get_None_notin. now apply map_delete_gone. }
  pose proof (map_delete_length_le k (store (pruneExpired c t1))) as Hle.
  rewrite skipn_app.
  replace (length (s ++ [(k, _)]) - Z.to_nat (maxEntries c) - length s)%nat
    with 0%nat by (rewrite length_app; cbn; lia).
  cbn [skipn]. apply map_get_app_fresh.
  intros Hin. apply Hfresh. eapply skipn_keys_incl. exact Hin.
Qed.

(** X1. Store, then fetch before the entry expires: the response comes back
    under the key that the store returned, and the entry is the most
    recently used one. *)
Theorem store_then_fetch c p r t1 t2 t3 u1 u2 k :
  cache_inv c ->
  fst (storeResponse c p r t1 t2 t3) = Some k ->
  u1 < t3 + ttlMs c -> u2 < t3 + ttlMs c ->
  let c' := snd (storeResponse c p r t1 t2 t3) in
  fst (fetch c' (VStr k) u1 u2) = Some (Some k, r) /\
  exists e, last (store (snd (fetch c' (VStr k) u1 u2))) = Some (k, e) /\
            cached e = r.
Proof.
  intros Hinv Hf Hu1 Hu2 c'.
  pose proof (storeResponse_holds _ _ _ _ _ _ _ Hinv Hf) as Hget.
  destruct (storeResponse_stores _ _ _ _ _ _ _ Hinv Hf) as (En & _ & Hk & _).
  destruct (storeResponse_params c p r t1 t2 t3) as (En' & _ & Ht').
  pose proof (storeResponse_inv c p r t1 t2 t3 Hinv) as Hinv'.
  fold c' in Hget, En', Ht', Hinv'.
  set (e := {| cached := r; createdAt := t2;
               expiresAt := if 0 <? ttlMs c then Some (t3 + ttlMs c) else None |})
    in *.
  assert (Hfresh : forall u, u < t3 + ttlMs c -> expired u e = false).
  { intros u Hu. unfold expired, e. cbn [expiresAt].
    destruct (0 <? ttlMs c); [|reflexivity].
    apply andb_false_iff. right. now apply Z.leb_gt. }
  assert (Hpruned : map_get k (store (pruneExpired c' u1)) = Some e).
  { destruct (pruneExpired_store_eq c' u1) as [-> | ->]; [assumption|].
    apply map_get_filter_keep; [assumption|]. cbn [snd].
    now rewrite Hfresh. }
  unfold fetch, lookup. rewrite En', En. cbn [negb].
  rewrite (keyOf_string c' k (keyOf_nonempty _ _ _ Hk)).
  rewrite Hpruned, (Hfresh u2 Hu2). cbn [found key fst snd cloneValue cached e].
  split; [reflexivity|].
  exists e. split; [|reflexivity].
  cbn [store with_store].
  pose proof (pruneExpired_inv c' u1 Hinv') as (Hnd & _ & _).
  rewrite map_set_absent by (now apply map_delete_gone).
  apply last_snoc.
Qed.

(** X2. Once the clock has reached the expiry of an entry, a lookup of its key
    misses and the entry is gone from the store. *)
Theorem lookup_after_expiry c p r t1 t2 t3 u1 u2 k :
  cache_inv c ->
  fst (storeResponse c p r t1 t2 t3) = Some k ->
  0 < ttlMs c -> t3 + ttlMs c <> 0 ->
  u1 <= u2 -> t3 + ttlMs c <= u2 ->
  let c' := snd (storeResponse c p r t1 t2 t3) in
  fst (lookup c' (VStr k) u1 u2) = {| key := Some k; found := None |} /\
  k ∉ map fst (store (snd (lookup c' (VStr k) u1 u2))).
Proof.
  intros Hinv Hf Httl Hnz Hu Hexp c'.
  pose proof (storeResponse_holds _ _ _ _ _ _ _ Hinv Hf) as Hget.
  destruct (storeResponse_stores _ _ _ _ _ _ _ Hinv Hf) as (En & _ & Hk & _).
  destruct (storeResponse_params c p r t1 t2 t3) as (En' & _ & Ht').
  pose proof (storeResponse_inv c p r t1 t2 t3 Hinv) as Hinv'.
  fold c' in Hget, En', Ht', Hinv'.
  apply Z.ltb_lt in Httl. rewrite Httl in Hget. apply Z.ltb_lt in Httl.
  set (e := {| cached := r; createdAt := t2;
               expiresAt := Some (t3 + ttlMs c) |}) in *.
  assert (Hex : forall u, t3 + ttlMs c <= u -> expired u e = true).
  { intros u Hu'. unfold expired, e. cbn [expiresAt].
    apply andb_true_iff. split.
    - apply negb_true_iff. now apply Z.eqb_neq.
    - now apply Z.leb_le. }
  unfold lookup. rewrite En', En. cbn [negb].
  rewrite (keyOf_string c' k (keyOf_nonempty _ _ _ Hk)).
  pose proof (pruneExpired_inv c' u1 Hinv') as (Hnd & _ & _).
  destruct (map_get k (store (pruneExpired c' u1))) as [e'|] eqn:Hg.
  - assert (e' = e) as ->.
    { destruct (pruneExpired_store_eq c' u1) as [Hs | Hs]; rewrite Hs in Hg.
      - congruence.
      - destruct (expired u1 e) eqn:E1.
        + rewrite (map_get_filter_drop _ k e) in Hg; try assumption;
            [discriminate | now destruct Hinv' | cbn [snd]; now rewrite E1].
        + rewrite (map_get_filter_keep _ k e) in Hg; try assumption;
            [congruence | cbn [snd]; now rewrite E1]. }
    rewrite (Hex u2 Hexp). cbn [fst snd store with_store].
    split; [reflexivity|].
    apply map_get_None_notin. now apply map_delete_gone.
  - cbn [fst snd]. split; [reflexivity|]. now apply map_get_None_notin.
Qed.

(** X3. A lookup never adds a key to the store, and a store adds at most the
    key it returns. *)
Theorem cache_keys_only_shrink_or_gain_stored c p r t1 t2 t3 :
  cache_inv c ->
  (forall x, x ∈ map fst (store (snd (lookup c p t1 t2))) ->
             x ∈ map fst (store c)) /\
  (forall x, x ∈ map fst (store (snd (storeResponse c p r t1 t2 t3))) ->
             x ∈ map fst (store c) \/
             fst (storeResponse c p r t1 t2 t3) = Some x).
Proof.
  intros Hinv.
  assert (Hprune : forall u x, x ∈ map fst (store (pruneExpired c u)) ->
                               x ∈ map fst (store c)).
  { intros u x. destruct (pruneExpired_store_eq c u) as [-> | ->]; [auto|].
    apply filter_keys_incl. }
  split.
  - intros x. unfold lookup.
    destruct (negb (enabled c)); [auto|].
    destruct (keyOf c p) as [k|]; [|auto].
    destruct (map_get k (store (pruneExpired c t1))) as [e|] eqn:Hg;
      cbn [snd]; [|apply Hprune].
    destruct (expired t2 e); cbn [snd store with_store].
    + intros Hin. eapply Hprune, map_delete_keys_incl, Hin.
    + pose proof (pruneExpired_inv c t1 Hinv) as (Hnd & _ & _).
      rewrite map_set_absent by (now apply map_delete_gone).
      rewrite map_app, elem_of_app. cbn. intros [Hin | Hin].
      * eapply Hprune, map_delete_keys_incl, Hin.
      * apply list_elem_of_singleton in Hin. subst x.
        eapply Hprune, map_get_Some_in, Hg.
  - intros x Hin.
    destruct (fst (storeResponse c p r t1 t2 t3)) as [k|] eqn:Hf.
    + destruct (storeResponse_stores _ _ _ _ _ _ _ Hinv Hf) as (_ & _ & _ & Hs).
      cbv zeta in Hs. rewrite Hs in Hin.
      destruct Hinv as (_ & Hmax & _).
      rewrite evict_skipn in Hin by lia.
      apply skipn_keys_incl in Hin.
      rewrite map_app, elem_of_app in Hin. cbn in Hin.
      destruct Hin as [Hin | Hin].
      * left. eapply Hprune, map_delete_keys_incl, Hin.
      * apply list_elem_of_singleton in Hin. subst x. now right.
    + rewrite (storeResponse_rejects _ _ _ _ _ _ Hf) in Hin. now left.
Qed.

End WithPlatform.

Lemma store_then_fetch_witness :
  cache_inv cache_on /\
  fst (@fetch Demo.platform
         (snd (@storeResponse Demo.platform cache_on (VStr "key-1")
                 response_text 1000 1000 1000))
         (VStr "key-1") 2000 2000)
  = Some (Some "key-1", response_text).
Proof.
  assert (Hinv : cache_inv cache_on).
  { split; [constructor | split; [reflexivity | discriminate]]. }
  split; [exact Hinv|].
  apply (@store_then_fetch Demo.platform cache_on (VStr "key-1") response_text
           1000 1000 1000 2000 2000 "key-1" Hinv).
  - reflexivity.
  - reflexivity.
  - reflexivity.
Defined.

Lemma lookup_after_expiry_witness :
  cache_inv cache_on /\
  fst (@lookup Demo.platform
         (snd (@storeResponse Demo.platform cache_on (VStr "key-1")
                 response_text 1000 1000 1000))
         (VStr "key-1") 301000 301000)
  = {| key := Some "key-1"; found := None |}.
Proof.
  assert (Hinv : cache_inv cache_on).
  { split; [constructor | split; [reflexivity | discriminate]]. }
  split; [exact Hinv|].
  apply (@lookup_after_expiry Demo.platform cache_on (VStr "key-1") response_text
           1000 1000 1000 301000 301000 "key-1" Hinv).
  - reflexivity.
  - reflexivity.
  - discriminate.
  - discriminate.
  - discriminate.
Defined.

Lemma cache_keys_only_shrink_or_gain_stored_witness :
  cache_inv cache_on /\
  forall x,
    x ∈ map fst (store (snd (@lookup Demo.platform cache_on (VStr "key-1")
                               1000 1000))) ->
    x ∈ map fst (store cache_on).
Proof.
  assert (Hinv : cache_inv cache_on).
  { split; [constructor | split; [reflexivity | discriminate]]. }
  split; [exact Hinv|].
  exact (proj1 (@cache_keys_only_shrink_or_gain_stored Demo.platform cache_on
                  (VStr "key-1") response_text 1000 1000 1000 Hinv)).
Defined.

End CacheRoundTrips.

(** ** More on the policy engine *)

Section RegexFacts.
Import Regex RegexSpec.

Lemma in_all_code_units c : In c all_code_units.
Proof.
  unfold all_code_units. rewrite <- (ascii_nat_embedding c).
  apply in_map, in_seq. pose proof (nat_ascii_bounded c). lia.
Qed.

Lemma blind_literal_spec test_on c :
  blind_literal test_on = true -> test_on (JS.lower_code_unit c) = test_on c.
Proof.
  unfold blind_literal. rewrite forallb_forall. intros Hall.
  apply Bool.eqb_prop, Hall, in_all_code_units.
Qed.

Lemma is_space_lower c : JS.is_space (JS.lower_code_unit c) = JS.is_space c.
Proof. destruct c as [[] [] [] [] [] [] [] []]; reflexivity. Qed.

Lemma is_word_lower c : is_word (JS.lower_code_unit c) = is_word c.
Proof. destruct c as [[] [] [] [] [] [] [] []]; reflexivity. Qed.

Lemma seq'_case_blind a b :
  case_blind a = true -> case_blind b = true -> case_blind (seq' a b) = true.
Proof.
  intros Ha Hb. destruct a, b; cbn [seq' case_blind] in *;
    rewrite ?Ha, ?Hb; reflexivity.
Qed.

Lemma alt'_case_blind a b :
  case_blind a = true -> case_blind b = true -> case_blind (alt' a b) = true.
Proof.
  intros Ha Hb. destruct a, b; cbn [alt' case_blind] in *;
    rewrite ?Ha, ?Hb; reflexivity.
Qed.

Lemma deriv_case_blind c r :
  case_blind r = true -> case_blind (deriv c r) = true.
Proof.
  induction r as [ | | a | a | | | | a IHa b IHb | a IHa b IHb | a IHa];
    cbn [deriv case_blind]; intros Hr; try reflexivity.
  - now destruct (Ascii.eqb a c).
  - now destruct (Ascii.eqb (JS.lower_ascii a) (JS.lower_ascii c)).
  - now destruct (JS.is_space c).
  - now destruct (is_word c).
  - apply andb_true_iff in Hr as [Ha Hb].
    apply alt'_case_blind.
    + apply seq'_case_blind; auto.
    + destruct (nullable false a); auto.
  - apply andb_true_iff in Hr as [Ha Hb]. apply alt'_case_blind; auto.
  - apply seq'_case_blind; auto.
Qed.

Lemma deriv_lower c r :
  case_blind r = true -> deriv (JS.lower_code_unit c) r = deriv c r.
Proof.
  induction r as [ | | a | a | | | | a IHa b IHb | a IHa b IHb | a IHa];
    cbn [deriv case_blind]; intros Hr; try reflexivity.
  - now rewrite (blind_literal_spec (Ascii.eqb a) c Hr).
  - now rewrite (blind_literal_spec
                   (fun c => Ascii.eqb (JS.lower_ascii a) (JS.lower_ascii c)) c Hr).
  - now rewrite is_space_lower.
  - now rewrite is_word_lower.
  - apply andb_true_iff in Hr as [Ha Hb]. now rewrite IHa, IHb.
  - apply andb_true_iff in Hr as [Ha Hb]. now rewrite IHa, IHb.
  - now rewrite IHa.
Qed.

Lemma match_here_lower s : forall r,
  case_blind r = true -> match_here r (JS.toLowerCase s) = match_here r s.
Proof.
  induction s as [|c s IH]; intros r Hr; [reflexivity|].
  cbn [JS.toLowerCase match_here].
  rewrite (deriv_lower c r Hr), IH; [reflexivity|].
  now apply deriv_case_blind.
Qed.

Lemma test_lower r s :
  case_blind r = true -> test r (JS.toLowerCase s) = test r s.
Proof.
  intros Hr. induction s as [|c s IH]; [reflexivity|].
  cbn [JS.toLowerCase test]. rewrite IH. f_equal.
  exact (match_here_lower (String c s) r Hr).
Qed.

Lemma seq'_anchor_free a b :
  anchor_free a = true -> anchor_free b = true -> anchor_free (seq' a b) = true.
Proof.
  intros Ha Hb. destruct a, b; cbn [seq' anchor_free] in *;
    rewrite ?Ha, ?Hb; try reflexivity; discriminate.
Qed.

Lemma alt'_anchor_free a b :
  anchor_free a = true -> anchor_free b = true -> anchor_free (alt' a b) = true.
Proof.
  intros Ha Hb. destruct a, b; cbn [alt' anchor_free] in *;
    rewrite ?Ha, ?Hb; try reflexivity; discriminate.
Qed.

Lemma deriv_anchor_free c r :
  anchor_free r = true -> anchor_free (deriv c r) = true.
Proof.
  induction r as [ | | a | a | | | | a IHa b IHb | a IHa b IHb | a IHa];
    cbn [deriv anchor_free]; intros Hr; try reflexivity.
  - now destruct (Ascii.eqb a c).
  - now destruct (Ascii.eqb (JS.lower_ascii a) (JS.lower_ascii c)).
  - now destruct (JS.is_space c).
  - now destruct (is_word c).
  - apply andb_true_iff in Hr as [Ha Hb].
    apply alt'_anchor_free.
    + apply seq'_anchor_free; auto.
    + destruct (nullable false a); auto.
  - apply andb_true_iff in Hr as [Ha Hb]. apply alt'_anchor_free; auto.
  - apply seq'_anchor_free; auto.
Qed.

Lemma nullable_anchor_free r :
  anchor_free r = true -> nullable true r = nullable false r.
Proof.
  induction r as [ | | a | a | | | | a IHa b IHb | a IHa b IHb | a IHa];
    cbn [nullable anchor_free]; intros Hr; try reflexivity; try discriminate.
  - apply andb_true_iff in Hr as [Ha Hb]. now rewrite IHa, IHb.
  - apply andb_true_iff in Hr as [Ha Hb]. now rewrite IHa, IHb.
Qed.

Lemma match_here_app s post : forall r,
  anchor_free r = true ->
  match_here r s = true -> match_here r (s +:+ post) = true.
Proof.
  induction s as [|c s IH]; intros r Hr Hm.
  - change (match_here r post = true). cbn [match_here] in Hm.
    destruct post as [|d post]; [exact Hm|].
    cbn [match_here]. rewrite <- (nullable_anchor_free r Hr), Hm. reflexivity.
  - change (match_here r (String c (s +:+ post)) = true).
    cbn [match_here] in *.
    apply orb_true_iff in Hm as [Hm | Hm]; [now rewrite Hm|].
    rewrite (IH (deriv c r)); [apply orb_true_r | | assumption].
    now apply deriv_anchor_free.
Qed.

Lemma test_app_r r s post :
  anchor_free r = true -> test r s = true -> test r (s +:+ post) = true.
Proof.
  intros Hr. induction s as [|c s IH]; intros Ht.
  - cbn [test] in Ht. rewrite orb_false_r in Ht.
    change (test r post = true).
    pose proof (match_here_app "" post r Hr Ht) as Hm.
    change (match_here r post = true) in Hm.
    destruct post; cbn [test]; now rewrite Hm.
  - cbn [test] in Ht. change (test r (String c (s +:+ post)) = true).
    cbn [test].
    apply orb_true_iff in Ht as [Ht | Ht].
    + change (String c (s +:+ post)) with (String c s +:+ post).
      now rewrite (match_here_app (String c s) post r Hr Ht).
    + rewrite (IH Ht). apply orb_true_r.
Qed.

Lemma test_app_l r pre s :
  test r s = true -> test r (pre +:+ s) = true.
Proof.
  intros Ht. induction pre as [|c pre IH]; [exact Ht|].
  change (test r (String c (pre +:+ s)) = true).
  cbn [test]. rewrite IH. apply orb_true_r.
Qed.

End RegexFacts.

Section PolicyExtras.
Import Policy PolicySpec PolicyMoreSpec Examples MoreExamples Regex RegexSpec.

Lemma existsb_test_lower (patterns : list Regex.t) (s : string) :
  forallb case_blind patterns = true ->
  existsb (fun regex => test regex (JS.toLowerCase s)) patterns
  = existsb (fun regex => test regex s) patterns.
Proof.
  induction patterns as [|r l IH]; cbn [forallb existsb]; [reflexivity|].
  intros Hall. apply andb_true_iff in Hall as [Hr Hl].
  now rewrite (test_lower r s Hr), IH.
Qed.

(** X4. On text of code units below 256, which is the text of the model,
    both blocklists ignore case: a command or a piece of code is matched
    exactly when its lower-cased form is.  (Beyond that range the two can
    differ: [toLowerCase] maps the Kelvin sign to [k], which no pattern
    matches before the conversion.) *)
Theorem blocklists_ignore_case (text : string) :
  matchesAny SHELL_BLOCKLIST_PATTERNS (VStr (JS.toLowerCase text))
  = matchesAny SHELL_BLOCKLIST_PATTERNS (VStr text) /\
  matchesAny PYTHON_BLOCKLIST_PATTERNS (VStr (JS.toLowerCase text))
  = matchesAny PYTHON_BLOCKLIST_PATTERNS (VStr text).
Proof.
  unfold matchesAny. split; apply existsb_test_lower; vm_compute; reflexivity.
Qed.

(** X5. A blocked command stays blocked when text is put in front of it, and,
    for the patterns other than the deletion of the root, also when text
    follows it. *)
Theorem blocked_command_in_context (pre command post : string) :
  (matchesAny SHELL_BLOCKLIST_PATTERNS (VStr command) = true ->
   matchesAny SHELL_BLOCKLIST_PATTERNS (VStr (pre +:+ command)) = true) /\
  (matchesAny (tl SHELL_BLOCKLIST_PATTERNS) (VStr command) = true ->
   matchesAny SHELL_BLOCKLIST_PATTERNS (VStr (pre +:+ command +:+ post)) = true).
Proof.
  unfold matchesAny. split; intros Hm.
  - apply existsb_exists in Hm as (r & Hin & Ht).
    apply existsb_exists. exists r. split; [assumption|].
    now apply test_app_l.
  - apply existsb_exists in Hm as (r & Hin & Ht).
    apply existsb_exists. exists r. split; [now right|].
    apply test_app_l, test_app_r; [|assumption].
    assert (Hall : forallb anchor_free (tl SHELL_BLOCKLIST_PATTERNS) = true)
      by (vm_compute; reflexivity).
    rewrite forallb_forall in Hall. now apply Hall.
Qed.

Lemma blocked_command_in_context_witness :
  matchesAny (tl SHELL_BLOCKLIST_PATTERNS) (VStr "reboot") = true /\
  matchesAny SHELL_BLOCKLIST_PATTERNS (VStr ("sudo " +:+ "reboot" +:+ " now"))
  = true.
Proof.
  split; [vm_compute; reflexivity|].
  apply (proj2 (blocked_command_in_context "sudo " "reboot" " now")).
  vm_compute. reflexivity.
Defined.

Section WithPlatform.
Context `{Platform}.

Lemma join_elements_throws l :
  (exists e, JS.join_elements l = Throw e) <-> Exists unprintable l.
Proof.
  unfold unprintable. induction l as [|x l IH]; cbn [JS.join_elements].
  - split; [intros [e He]; discriminate | intros Hex; inversion Hex].
  - destruct (JS.nullish x) eqn:En; cbn [bind].
    + destruct (JS.join_elements l) as [rest|e]; cbn [bind].
      * split; [intros [e He]; discriminate|].
        intros Hex. apply Exists_cons in Hex as [[Hf _]|Hl]; [congruence|].
        apply IH in Hl as [e He]. discriminate.
      * split; [intros _; apply Exists_cons_tl, IH; eauto | eauto].
    + destruct (JS.toString x) as [s|e] eqn:Es; cbn [bind].
      * destruct (JS.join_elements l) as [rest|e]; cbn [bind].
        -- split; [intros [e He]; discriminate|].
           intros Hex. apply Exists_cons in Hex as [[_ [e He]]|Hl];
             [congruence|].
           apply IH in Hl as [e He]. discriminate.
        -- split; [intros _; apply Exists_cons_tl, IH; eauto | eauto].
      * split; [intros _; apply Exists_cons_hd; eauto | eauto].
Qed.

Lemma array_join_throws sep l :
  (exists e, JS.array_join sep l = Throw e) <-> Exists unprintable l.
Proof.
  rewrite <- join_elements_throws. unfold JS.array_join.
  destruct (JS.join_elements l); cbn [bind]; split; eauto;
    intros [e He]; discriminate.
Qed.

(** The command of the policy cannot be computed exactly when the array
    it joins has an element that cannot be converted to a string. *)
Lemma shellCommand_throws args :
  (exists e, shellCommand args = Throw e) <->
  exists l, joined_array args = Some l /\ Exists unprintable l.
Proof.
  unfold shellCommand, joined_array.
  destruct (JS.prop args "command"); destruct (JS.prop args "cmd");
    destruct (JS.prop args "run");
    first
      [ split; [intros [e He]; discriminate
               | intros (l0 & Hl & _); discriminate]
      | rewrite array_join_throws; split;
        [intros Hex; eauto | intros (l0 & [= <-] & Hex); assumption]
      | destruct (JS.prop args "args");
        first
          [ split; [intros [e He]; discriminate
                   | intros (l0 & Hl & _); discriminate]
          | rewrite array_join_throws; split;
            [intros Hex; eauto | intros (l0 & [= <-] & Hex); assumption] ] ].
Qed.

(** X6. The verdict on a [shell] call that passes the disallow list and the
    quota and has arguments other than [null]: when the policy can compute
    the command, the call is denied with 403 exactly when the command
    matches the blocklist; when joining an array command throws, so does
    [evaluateToolCall]. *)
Theorem shell_verdict (cfg : config) (call : value) (toolCallsExecuted : Z) :
  toolNameOf call = VStr "shell" ->
  isToolAllowed cfg (toolNameOf call) = true ->
  toolCallsExecuted < maxToolCallsPerTurn cfg ->
  JS.nullish (parseArguments call) = false ->
  evaluateToolCall cfg call toolCallsExecuted
  = match shellCommand (parseArguments call) with
    | Ok command =>
        Ok (if matchesAny SHELL_BLOCKLIST_PATTERNS (VStr command)
            then {| allowed := false;
                    reason := Some "Command matched restricted pattern";
                    status := Some 403;
                    code := Some "unsafe_shell_command" |}
            else allow)
    | Throw e => Throw e
    end.
Proof.
  intros Hname Hallowed Hquota Hargs.
  unfold evaluateToolCall. rewrite Hallowed. cbn [negb].
  apply Z.leb_gt in Hquota. rewrite Hquota, Hname.
  cbn [JS.truthy String.eqb Ascii.eqb negb]. cbn [bind].
  change (JS.startsWith "workspace_git_" "shell") with false. cbn [bind].
  change (is_str (VStr "shell") "shell") with true. cbv iota.
  change (is_str (VStr "shell") "python_exec") with false.
  unfold evaluateShellCall, JS.getProp. rewrite Hargs. cbn [bind].
  destruct (shellCommand (parseArguments call)) as [command|e]; cbn [bind];
    [|reflexivity].
  cbn [JS.truthy].
  destruct (String.eqb command "") eqn:E.
  - apply String.eqb_eq in E. rewrite E. reflexivity.
  - cbn [negb].
    destruct (matchesAny SHELL_BLOCKLIST_PATTERNS (VStr command)); reflexivity.
Qed.

(** The same for [python_exec] and the code it is given. *)
Theorem python_verdict (cfg : config) (call : value) (toolCallsExecuted : Z) :
  toolNameOf call = VStr "python_exec" ->
  isToolAllowed cfg (toolNameOf call) = true ->
  toolCallsExecuted < maxToolCallsPerTurn cfg ->
  JS.nullish (parseArguments call) = false ->
  evaluateToolCall cfg call toolCallsExecuted
  = Ok (if matchesAny PYTHON_BLOCKLIST_PATTERNS
             (VStr (pythonCode (parseArguments call)))
        then {| allowed := false;
                reason := Some "Python code matched restricted pattern";
                status := Some 403;
                code := Some "unsafe_python_code" |}
        else allow).
Proof.
  intros Hname Hallowed Hquota Hargs.
  unfold evaluateToolCall. rewrite Hallowed. cbn [negb].
  apply Z.leb_gt in Hquota. rewrite Hquota, Hname.
  cbn [JS.truthy String.eqb Ascii.eqb negb]. cbn [bind].
  change (JS.startsWith "workspace_git_" "python_exec") with false. cbn [bind].
  change (is_str (VStr "python_exec") "shell") with false. cbv iota. cbn [bind].
  change (is_str (VStr "python_exec") "python_exec") with true. cbv iota.
  unfold evaluatePythonCall, JS.getProp. rewrite Hargs. cbn [bind].
  cbn [JS.truthy].
  destruct (String.eqb (pythonCode (parseArguments call)) "") eqn:E.
  - apply String.eqb_eq in E. rewrite E. reflexivity.
  - cbn [negb].
    destruct (matchesAny PYTHON_BLOCKLIST_PATTERNS
                (VStr (pythonCode (parseArguments call)))); reflexivity.
Qed.

(** The three git tools that the policy gates: each is denied with 403
    unless its flag is set, whatever its arguments. *)
Theorem git_policy_gates (cfg : config) (call : value) (toolCallsExecuted : Z) :
  isToolAllowed cfg (toolNameOf call) = true ->
  toolCallsExecuted < maxToolCallsPerTurn cfg ->
  (toolNameOf call = VStr "workspace_git_push" ->
   evaluateToolCall cfg call toolCallsExecuted
   = Ok (if allowPush (git cfg) then allow
         else deny "Git push is disabled by policy." 403 "git_push_disabled")) /\
  (toolNameOf call = VStr "workspace_git_pull" ->
   evaluateToolCall cfg call toolCallsExecuted
   = Ok (if allowPull (git cfg) then allow
         else deny "Git pull is disabled by policy." 403 "git_pull_disabled")) /\
  (toolNameOf call = VStr "workspace_git_commit" ->
   evaluateToolCall cfg call toolCallsExecuted
   = Ok (if allowCommit (git cfg) then allow
         else deny "Git commit is disabled by policy." 403 "git_commit_disabled")).
Proof.
  intros Hallowed Hquota. apply Z.leb_gt in Hquota.
  repeat split; intros Hname; unfold evaluateToolCall;
    rewrite Hallowed, Hquota, Hname; cbn [negb];
    [destruct (allowPush (git cfg)) | destruct (allowPull (git cfg))
     | destruct (allowCommit (git cfg))]; reflexivity.
Qed.

Lemma evaluateToolCall_same_gate cfg cfg' call n :
  maxToolCallsPerTurn cfg' = maxToolCallsPerTurn cfg ->
  git cfg' = git cfg ->
  isToolAllowed cfg' (toolNameOf call) = isToolAllowed cfg (toolNameOf call) ->
  evaluateToolCall cfg' call n = evaluateToolCall cfg call n.
Proof.
  intros Hmax Hgit Hgate. unfold evaluateToolCall.
  now rewrite Hmax, Hgit, Hgate.
Qed.

(** X7. The disallow list is monotone: with a shorter list, a call that was
    allowed gets the same verdict; with a longer list, a call that was
    denied is denied. *)
Theorem disallow_list_monotone (cfg cfg' : config) (call : value) (n : Z) :
  maxToolCallsPerTurn cfg' = maxToolCallsPerTurn cfg ->
  git cfg' = git cfg ->
  (forall tool, tool ∈ disallowedTools cfg' -> tool ∈ disallowedTools cfg) ->
  (forall d, evaluateToolCall cfg call n = Ok d -> allowed d = true ->
             evaluateToolCall cfg' call n = Ok d) /\
  (forall d', evaluateToolCall cfg' call n = Ok d' -> allowed d' = false ->
              exists d, evaluateToolCall cfg call n = Ok d /\ allowed d = false).
Proof.
  intros Hmax Hgit Hsub.
  destruct (isToolAllowed cfg (toolNameOf call)) eqn:Hgate.
  - assert (Hgate' : isToolAllowed cfg' (toolNameOf call) = true).
    { unfold isToolAllowed in *.
      destruct (negb (JS.truthy (toolNameOf call))); [reflexivity|].
      destruct (toolNameOf call) as [ | | | | s | | ]; try reflexivity.
      apply negb_true_iff in Hgate. apply negb_true_iff.
      apply not_true_is_false. intros He. apply existsb_eqb_elem in He.
      apply Hsub, existsb_eqb_elem in He. congruence. }
    rewrite (evaluateToolCall_same_gate cfg cfg' call n Hmax Hgit)
      by congruence.
    split; [auto | eauto].
  - assert (Hd : exists shown,
                 evaluateToolCall cfg call n
                 = Ok (deny ("Tool " +:+ shown +:+ " is disallowed by policy")
                            403 "tool_disallowed")).
    { unfold evaluateToolCall. rewrite Hgate. unfold isToolAllowed in Hgate.
      destruct (negb (JS.truthy (toolNameOf call))); [discriminate|].
      destruct (toolNameOf call) as [ | | | | s | | ]; try discriminate.
      exists s. reflexivity. }
    destruct Hd as [shown Hd].
    split.
    + intros d Hev Hal. rewrite Hd in Hev. injection Hev as <-. discriminate.
    + intros d' _ _. eexists. split; [exact Hd | reflexivity].
Qed.

(** X8. [evaluateToolCall] throws in three cases only, all past the
    disallow list and the quota: a name that is truthy and not a string; a
    [shell] or [python_exec] call whose arguments parse to [null]; and a
    [shell] call for which the policy joins an array that has an element
    that cannot be converted to a string. *)
Theorem evaluateToolCall_throws_iff (cfg : config) (call : value) (n : Z) :
  (exists e, evaluateToolCall cfg call n = Throw e) <->
  isToolAllowed cfg (toolNameOf call) = true /\
  n < maxToolCallsPerTurn cfg /\
  match toolNameOf call with
  | VStr s =>
      ((s = "shell" \/ s = "python_exec") /\
       JS.nullish (parseArguments call) = true) \/
      (s = "shell" /\ JS.nullish (parseArguments call) = false /\
       exists l, joined_array (parseArguments call) = Some l /\
                 Exists unprintable l)
  | v => JS.truthy v = true
  end.
Proof.
  unfold evaluateToolCall.
  destruct (isToolAllowed cfg (toolNameOf call)) eqn:Hgate; cbn [negb].
  2:{ split; [|intros (Hf & _); discriminate].
      intros [e He]. exfalso. unfold isToolAllowed in Hgate.
      destruct (negb (JS.truthy (toolNameOf call))); [discriminate|].
      destruct (toolNameOf call); discriminate. }
  destruct (maxToolCallsPerTurn cfg <=? n) eqn:Hq;
    [apply Z.leb_le in Hq; split;
       [intros [e He]; discriminate | intros (_ & Hlt & _); lia]|].
  apply Z.leb_gt in Hq.
  destruct (toolNameOf call) as [ | | b | z | s | l | fs ].
  1-2: cbn; split; [intros [e He]; discriminate | intros (_ & _ & Hf); discriminate].
  - destruct b; cbn; split; eauto; try (intros [e He]; discriminate);
      intros (_ & _ & Hf); discriminate.
  - cbn. destruct (z =? 0); cbn; split; eauto; try (intros [e He]; discriminate);
      intros (_ & _ & Hf); discriminate.
  - destruct (String.eqb s "shell") eqn:Es.
    { apply String.eqb_eq in Es. subst s.
      cbn [JS.truthy String.eqb Ascii.eqb negb]. cbn [bind].
      change (JS.startsWith "workspace_git_" "shell") with false. cbn [bind].
      change (is_str (VStr "shell") "shell") with true. cbv iota.
      change (is_str (VStr "shell") "python_exec") with false.
      unfold evaluateShellCall, JS.getProp.
      destruct (JS.nullish (parseArguments call)) eqn:En; cbn [bind].
      - split; [|eauto]. intros _. split; [reflexivity|]. split; [assumption|].
        left. split; [now left|reflexivity].
      - destruct (shellCommand (parseArguments call)) as [command|e] eqn:Ec;
          cbn [bind].
        + split.
          * intros [e He]. repeat case_match; discriminate.
          * intros (_ & _ & [[_ Hf] | (_ & _ & Hex)]); [discriminate|].
            apply shellCommand_throws in Hex as [e He]. congruence.
        + split; [|eauto]. intros _. split; [reflexivity|].
          split; [assumption|]. right. split; [reflexivity|].
          split; [reflexivity|]. apply shellCommand_throws. eauto. }
    destruct (String.eqb s "python_exec") eqn:Ep.
    { apply String.eqb_eq in Ep. subst s.
      cbn [JS.truthy String.eqb Ascii.eqb negb]. cbn [bind].
      change (JS.startsWith "workspace_git_" "python_exec") with false.
      cbn [bind].
      change (is_str (VStr "python_exec") "shell") with false. cbv iota.
      cbn [bind].
      change (is_str (VStr "python_exec") "python_exec") with true. cbv iota.
      unfold evaluatePythonCall, JS.getProp.
      destruct (JS.nullish (parseArguments call)); cbn [bind].
      - split; [|eauto]. intros _. split; [reflexivity|]. split; [assumption|].
        left. split; [now right|reflexivity].
      - split.
        + intros [e He]. repeat case_match; discriminate.
        + intros (_ & _ & [[_ Hf] | (Hf & _)]); discriminate. }
    split.
    + intros [e He]. exfalso. unfold is_str in He. rewrite Es, Ep in He.
      cbn [bind] in He. repeat case_match; discriminate.
    + apply String.eqb_neq in Es, Ep.
      intros (_ & _ & [[[Hs | Hs] _] | (Hs & _)]); congruence.
  - cbn. split; eauto.
  - cbn. split; eauto.
Qed.

End WithPlatform.

Lemma shell_verdict_witness :
  @evaluateToolCall Demo.platform policy_default shell_call_string 0
  = Ok {| allowed := false;
          reason := Some "Command matched restricted pattern";
          status := Some 403;
          code := Some "unsafe_shell_command" |} /\
  @evaluateToolCall Demo.platform policy_default shell_call_ls 0 = Ok allow /\
  @evaluateToolCall Demo.platform policy_default shell_call_unprintable 0
  = Throw JS.cannot_convert.
Proof.
  split; [|split].
  - apply (@shell_verdict Demo.platform policy_default shell_call_string 0);
      reflexivity.
  - apply (@shell_verdict Demo.platform policy_default shell_call_ls 0);
      reflexivity.
  - apply (@shell_verdict Demo.platform policy_default shell_call_unprintable 0);
      reflexivity.
Defined.

Lemma python_verdict_witness :
  @evaluateToolCall Demo.platform policy_default python_call 0
  = Ok {| allowed := false;
          reason := Some "Python code matched restricted pattern";
          status := Some 403;
          code := Some "unsafe_python_code" |}.
Proof.
  apply (@python_verdict Demo.platform policy_default python_call 0);
    reflexivity.
Defined.

Lemma git_policy_gates_witness :
  @evaluateToolCall Demo.platform policy_default git_push_call 0
  = Ok (deny "Git push is disabled by policy." 403 "git_push_disabled").
Proof.
  apply (proj1 (@git_policy_gates Demo.platform policy_default git_push_call 0
                  eq_refl eq_refl)).
  reflexivity.
Defined.

Lemma disallow_list_monotone_witness :
  @evaluateToolCall Demo.platform policy_default git_push_call 0
  = Ok (deny "Git push is disabled by policy." 403 "git_push_disabled") /\
  exists d, @evaluateToolCall Demo.platform policy_no_shell git_push_call 0 = Ok d
            /\ allowed d = false.
Proof.
  split; [reflexivity|].
  apply (proj2 (@disallow_list_monotone Demo.platform policy_no_shell
                  policy_default git_push_call 0 eq_refl eq_refl
                  (fun tool Hin => False_ind _ (proj1 (elem_of_nil tool) Hin)))
           (deny "Git push is disabled by policy." 403 "git_push_disabled")).
  - reflexivity.
  - reflexivity.
Defined.

Lemma evaluateToolCall_throws_iff_witness :
  (exists e, @evaluateToolCall Demo.platform policy_default shell_call_null 0
             = Throw e) /\
  (exists e, @evaluateToolCall Demo.platform policy_default
               shell_call_unprintable 0 = Throw e).
Proof.
  split.
  - apply (proj2 (@evaluateToolCall_throws_iff Demo.platform policy_default
                    shell_call_null 0)).
    split; [reflexivity|]. split; [reflexivity|].
    left. split; [left; reflexivity | reflexivity].
  - apply (proj2 (@evaluateToolCall_throws_iff Demo.platform policy_default
                    shell_call_unprintable 0)).
    split; [reflexivity|]. split; [reflexivity|].
    right. split; [reflexivity|]. split; [reflexivity|].
    eexists. split; [reflexivity|].
    apply Exists_cons_tl, Exists_cons_hd. split; [reflexivity|].
    eexists. reflexivity.
Defined.

End PolicyExtras.

(** ** More on the tool registry *)

Section ToolExtras.
Import Tools ToolsSpec Examples MoreExamples.

Lemma assoc_in_keys_of (k v : string) (l : list (string * string)) :
  JS.assoc k l = Some v ->
  In k (map fst (List.filter (fun kv => String.eqb (snd kv) v) l)).
Proof.
  induction l as [|[k' v'] l IH]; cbn [JS.assoc]; [discriminate|].
  destruct (String.eqb k k') eqn:E.
  - apply String.eqb_eq in E. subst k'. intros [= ->].
    cbn [List.filter snd]. rewrite String.eqb_refl. now left.
  - intros Ha. cbn [List.filter snd].
    destruct (String.eqb v' v); [right|]; now apply IH.
Qed.

Lemma empty_registry_inv : registry_inv Tools.empty.
Proof.
  split.
  - intros name [x Hx]. cbn in Hx. rewrite lookup_empty in Hx. discriminate.
  - intros k e He. cbn in He. rewrite lookup_empty in He. discriminate.
Qed.

Lemma registerTool_inv st name h opts st' :
  registry_inv st -> registerTool st name h opts = Ok st' -> registry_inv st'.
Proof.
  intros [Hall Hinv]. unfold registerTool.
  destruct (String.eqb name ""); [discriminate|]. intros [= <-].
  split; cbn [registry registryLowercase].
  - intros k Hk.
    destruct (decide (JS.toLowerCase k = JS.toLowerCase name)) as [->|Hne].
    + rewrite lookup_insert_eq. eauto.
    + rewrite lookup_insert_ne by congruence. apply Hall.
      rewrite lookup_insert_ne in Hk by congruence. exact Hk.
  - intros k e.
    destruct (decide (k = JS.toLowerCase name)) as [->|Hne].
    + rewrite lookup_insert_eq. intros [= <-]. cbn [original].
      split; [reflexivity|]. rewrite lookup_insert_eq. eauto.
    + rewrite lookup_insert_ne by congruence. intros He.
      destruct (Hinv k e He) as [Hk Hs]. split; [assumption|].
      destruct (decide (original e = name)) as [->|Hn].
      * rewrite lookup_insert_eq. eauto.
      * now rewrite lookup_insert_ne by congruence.
Qed.

(** X9. In a registry that [registerTool] built, the two maps agree, so
    [getTool] finds a tool for every name that equals a registered name up
    to case: the tool of that name, or the one registered last under a name
    with the same lower-cased form. *)
Theorem getTool_ignores_case st registered_name s :
  registry_inv st ->
  is_Some (registry st !! registered_name) ->
  JS.toLowerCase s = JS.toLowerCase registered_name ->
  s <> "" ->
  exists found_name found,
    getTool st (VStr s) = Ok (Some found) /\
    registry st !! found_name = Some found /\
    JS.toLowerCase found_name = JS.toLowerCase s.
Proof.
  intros [Hall Hinv] Hreg Hs Hne. unfold getTool.
  apply String.eqb_neq in Hne. cbn [JS.truthy]. rewrite Hne. cbn [negb map_get].
  destruct (registry st !! s) as [direct|] eqn:Hd; [exists s; eauto|].
  cbn [call_toLowerCase bind]. rewrite Hs.
  destruct (Hall _ Hreg) as [e He]. rewrite He.
  destruct (Hinv _ _ He) as [Hk [found Hf]]. rewrite Hf.
  exists (original e), found. split; [reflexivity|]. split; [assumption|].
  congruence.
Qed.

Section WithPlatform.
Context `{Platform}.

(** X10. Register, then look up and execute under the exact name: the handler
    that was registered is found and run, and the string it returns is the
    content of a 200 result. *)
Theorem register_then_execute st name h opts st' call context now text :
  registerTool st name h opts = Ok st' ->
  getTool st' (VStr name) = Ok (Some {| run := h; options := opts |}) /\
  hasTool st' (VStr name) = true /\
  (toolNameOf call = VStr name ->
   h (handler_call call now name name) context = Ok (VStr text) ->
   executeToolCall st' call context now
   = Ok (text_result call now name name text)).
Proof.
  unfold registerTool. destruct (String.eqb name "") eqn:En; [discriminate|].
  intros [= <-]. split; [|split].
  - unfold getTool. cbn [JS.truthy]. rewrite En. cbn [negb map_get registry].
    now rewrite lookup_insert_eq.
  - unfold hasTool. cbn [map_get registry]. now rewrite lookup_insert_eq.
  - intros Hname Hrun. unfold executeToolCall.
    rewrite (normaliseToolCall_named _ _ _ Hname). cbn [bind].
    cbn [nc_name nc_id nc_arguments nc_raw].
    cbn [map_get registry]. rewrite lookup_insert_eq.
    cbn [bind fst snd run]. unfold handler_call in Hrun.
    rewrite Hrun. reflexivity.
Qed.

(** X11. A call with a string for a name always resolves: [executeToolCall]
    does not reject, provided no handler throws [null] or [undefined]. *)
Theorem executeToolCall_resolves st call context now s :
  toolNameOf call = VStr s ->
  (forall k reg arg e, registry st !! k = Some reg ->
                       run reg arg context = Throw e -> JS.nullish e = false) ->
  exists r, executeToolCall st call context now = Ok r.
Proof.
  intros Hname Hthrow.
  unfold executeToolCall. rewrite (normaliseToolCall_named _ _ _ Hname).
  cbn [bind].
  set (nc := {| nc_id := namedCallId call now s; nc_name := VStr s;
                nc_arguments := parseArguments call; nc_raw := call |}).
  assert (Hrun : forall k reg tn,
    registry st !! k = Some reg ->
    exists r,
      match run reg (VObj [("id", nc_id nc); ("name", tn);
                           ("args", nc_arguments nc);
                           ("raw", nc_raw nc)]) context
      with
      | Ok res =>
          Ok {| id := nc_id nc; name := tn;
                arguments := nc_arguments nc;
                ok := f_ok (normalizeHandlerResult res);
                status := f_status (normalizeHandlerResult res);
                content := f_content (normalizeHandlerResult res);
                metadata :=
                  VObj (JS.obj_define
                          (spread (JS.coalesce (f_metadata (normalizeHandlerResult res))
                                               (VObj [])))
                          "registered" (VBool true));
                error := None |}
      | Throw err =>
          let* message := JS.getProp err "message" in
          Ok {| id := nc_id nc; name := tn;
                arguments := nc_arguments nc;
                ok := VBool false; status := VNum 500;
                content := coerceString
                             (VObj [("error", VStr "tool_execution_failed");
                                    ("tool", tn); ("message", message)]);
                metadata := VObj [("registered", VBool true);
                                  ("error", VBool true)];
                error := Some err |}
      end = Ok r).
  { intros k reg tn Hk.
    destruct (run reg _ context) as [res|err] eqn:Er; [eauto|].
    unfold JS.getProp. rewrite (Hthrow _ _ _ _ Hk Er). cbn [bind]. eauto. }
  assert (Hn : nc_name nc = VStr s) by reflexivity.
  rewrite Hn. cbn [map_get call_toLowerCase].
  destruct (registry st !! s) as [reg|] eqn:Hs; cbn [bind fst snd].
  - apply (Hrun s reg (VStr s) Hs).
  - destruct (JS.assoc (JS.toLowerCase s) TOOL_ALIASES) as [target|].
    + destruct (registry st !! target) as [reg|] eqn:Ht; cbn [bind fst snd].
      * apply (Hrun target reg (VStr target) Ht).
      * cbn [call_toLowerCase bind].
        destruct (registryLowercase st !! JS.toLowerCase s) as [e|];
          cbn [bind fst snd]; [|eauto].
        destruct (registry st !! original e) as [reg|] eqn:Ho; [|eauto].
        apply (Hrun (original e) reg (VStr (original e)) Ho).
    + cbn [bind fst snd call_toLowerCase].
      destruct (registryLowercase st !! JS.toLowerCase s) as [e|];
        cbn [bind fst snd]; [|eauto].
      destruct (registry st !! original e) as [reg|] eqn:Ho; [|eauto].
      apply (Hrun (original e) reg (VStr (original e)) Ho).
Qed.

(** X12. One and the same call under an alias of [shell]: the policy, which
    compares the name with [shell], allows it whatever command it carries,
    and [executeToolCall] hands it to the handler of [shell]. *)
Theorem alias_of_shell_passes_policy
    (cfg : Policy.config) (st : state) (call context : value)
    (toolCallsExecuted now : Z) (s : string) (reg : registered) (text : string) :
  toolNameOf call = VStr s ->
  JS.assoc (JS.toLowerCase s) TOOL_ALIASES = Some "shell" ->
  s <> "shell" ->
  Policy.isToolAllowed cfg (VStr s) = true ->
  toolCallsExecuted < Policy.maxToolCallsPerTurn cfg ->
  registry st !! s = None ->
  registry st !! "shell" = Some reg ->
  run reg (handler_call call now s "shell") context = Ok (VStr text) ->
  Policy.evaluateToolCall cfg call toolCallsExecuted = Ok Policy.allow /\
  executeToolCall st call context now
  = Ok (text_result call now s "shell" text).
Proof.
  intros Hname Halias Hns Hallowed Hquota Hreg Hshell Hrun.
  assert (Hlow : JS.toLowerCase s <> "" /\
                 JS.startsWith "workspace_git_" s = false /\
                 String.eqb s "python_exec" = false).
  { assert (Hcases : In (JS.toLowerCase s) ["bash"; "shell"; "sh"; "terminal"]).
    { exact (assoc_in_keys_of _ _ _ Halias). }
    assert (Hfirst : forall t, JS.startsWith "workspace_git_" t = true ->
                               exists r, JS.toLowerCase t = String "w" r).
    { intros [|c t]; cbn [JS.startsWith]; [discriminate|].
      destruct (Ascii.eqb "w" c) eqn:Ec; cbn [andb]; [|discriminate].
      apply Ascii.eqb_eq in Ec. subst c. intros _. cbn. eauto. }
    split; [|split].
    - intros He. rewrite He in Hcases. cbn in Hcases.
      repeat destruct Hcases as [Hc | Hcases]; try discriminate; tauto.
    - destruct (JS.startsWith "workspace_git_" s) eqn:Eg; [|reflexivity].
      destruct (Hfirst s Eg) as [r Hr]. rewrite Hr in Hcases. cbn in Hcases.
      repeat destruct Hcases as [Hc | Hcases]; try discriminate; tauto.
    - destruct (String.eqb s "python_exec") eqn:Ep; [|reflexivity].
      apply String.eqb_eq in Ep. subst s. cbn in Hcases.
      repeat destruct Hcases as [Hc | Hcases]; try discriminate; tauto. }
  destruct Hlow as (Hnonempty & Hgit & Hpy).
  split.
  - unfold Policy.evaluateToolCall.
    change (Policy.toolNameOf call) with (toolNameOf call).
    rewrite Hname, Hallowed. cbn [negb].
    apply Z.leb_gt in Hquota. rewrite Hquota.
    cbn [JS.truthy]. rewrite Hgit. unfold Policy.is_str. rewrite Hpy.
    apply String.eqb_neq in Hns. rewrite Hns.
    destruct (negb (String.eqb s "")); reflexivity.
  - unfold executeToolCall.
    rewrite (normaliseToolCall_named _ _ _ Hname). cbn [bind].
    cbn [nc_name nc_id nc_arguments nc_raw].
    cbn [map_get call_toLowerCase]. rewrite Hreg.
    cbn [bind]. rewrite Halias, Hshell. cbn [bind fst snd].
    unfold handler_call in Hrun. rewrite Hrun. reflexivity.
Qed.

End WithPlatform.

Lemma getTool_ignores_case_witness :
  exists found_name found,
    getTool fs_registry (VStr "FS_Read") = Ok (Some found) /\
    registry fs_registry !! found_name = Some found /\
    JS.toLowerCase found_name = "fs_read".
Proof.
  apply (getTool_ignores_case fs_registry "fs_read" "FS_Read").
  - apply (registerTool_inv Tools.empty "fs_read" handler_shell (VObj [])).
    + exact empty_registry_inv.
    + reflexivity.
  - vm_compute. eauto.
  - reflexivity.
  - discriminate.
Defined.

Lemma register_then_execute_witness :
  @executeToolCall Demo.platform shell_registry
    (VObj [("name", VStr "shell")]) (VObj []) 7
  = Ok (@text_result Demo.platform (VObj [("name", VStr "shell")]) 7
          "shell" "shell" "ran the command").
Proof.
  apply (proj2 (proj2 (@register_then_execute Demo.platform Tools.empty "shell"
                         handler_shell (VObj [("category", VStr "execution")])
                         shell_registry
                         (VObj [("name", VStr "shell")]) (VObj []) 7
                         "ran the command" eq_refl))).
  - reflexivity.
  - reflexivity.
Defined.

Lemma executeToolCall_resolves_witness :
  exists r,
    @executeToolCall Demo.platform shell_registry
      (VObj [("name", VStr "no_such_tool")]) (VObj []) 7 = Ok r.
Proof.
  apply (@executeToolCall_resolves Demo.platform shell_registry
           (VObj [("name", VStr "no_such_tool")]) (VObj []) 7 "no_such_tool").
  - reflexivity.
  - intros k reg arg e Hk.
    unfold shell_registry, registerTool, Tools.empty in Hk.
    cbn [String.eqb registry] in Hk.
    destruct (decide (k = "shell")) as [->|Hne].
    + rewrite lookup_insert_eq in Hk. injection Hk as <-. discriminate.
    + rewrite lookup_insert_ne, lookup_empty in Hk by congruence. discriminate.
Defined.

Lemma alias_of_shell_passes_policy_witness :
  @Policy.evaluateToolCall Demo.platform policy_default bash_call 0
  = Ok Policy.allow /\
  @executeToolCall Demo.platform shell_registry bash_call (VObj []) 7
  = Ok (@text_result Demo.platform bash_call 7 "Bash" "shell"
          "ran the command").
Proof.
  apply (@alias_of_shell_passes_policy Demo.platform policy_default
           shell_registry bash_call (VObj []) 0 7 "Bash"
           {| run := handler_shell;
              options := VObj [("category", VStr "execution")] |}
           "ran the command").
  - reflexivity.
  - reflexivity.
  - discriminate.
  - reflexivity.
  - reflexivity.
  - vm_compute. reflexivity.
  - vm_compute. reflexivity.
  - reflexivity.
Defined.

End ToolExtras.

(* ===================================================================== *)
(** ** The MCP client over whole histories *)

Section McpExtras.
Import Mcp McpSpec McpMoreSpec Examples MoreExamples.

Section WithPlatform.
Context `{Platform}.

(** X14. A request on a started, open client whose write succeeds returns
    the next id, writes one JSON line (with [{}] for parameters that are
    not given) and is pending.  The response that carries that id removes
    it from the pending requests and settles it: rejected with the
    normalised error when the response has a truthy [error], resolved with
    its [result] otherwise.  When the error cannot be turned into an
    [Error], the request is removed all the same and its promise is left
    unsettled.  Either way the pending map is then what it was before the
    request. *)
Theorem request_response_round_trip c method params reply :
  client_inv c ->
  started c = true -> closed c = false -> process c = true ->
  JS.typeof_object reply = true -> JS.truthy reply = true ->
  JS.hasOwn reply "id" = true ->
  JS.prop reply "id" = VNum (nextId c) ->
  let c1 := snd (request c method params None) in
  let c2 := handleMessage c1 reply in
  fst (request c method params None) = Ok (nextId c) /\
  written c1
  = written c ++
    [JSON_stringify (VObj [("jsonrpc", VStr "2.0"); ("id", VNum (nextId c));
                           ("method", method);
                           ("params", or_empty_object params)])
     +:+ newline] /\
  is_Some (pending c1 !! nextId c) /\
  settled c1 !! nextId c = None /\
  settled c2 !! nextId c = outcome_of reply /\
  pending c2 = pending c.
Proof.
  intros (Hclosed & Hpending & Hsettled) Hst Hcl Hpr Hobj Htr Hown Hid c1 c2.
  assert (Hfresh : settled c !! nextId c = None).
  { destruct (settled c !! nextId c) eqn:E; [|reflexivity].
    specialize (Hsettled (nextId c) (mk_is_Some _ _ E)). lia. }
  assert (Hnp : pending c !! nextId c = None).
  { destruct (pending c !! nextId c) eqn:E; [|reflexivity].
    destruct (Hpending (nextId c) (mk_is_Some _ _ E)). lia. }
  assert (Hc1 : request c method params None
                = (Ok (nextId c),
                   with_pending c (nextId c + 1) (<[nextId c := tt]> (pending c))
                     (settled c)
                     (written c ++
                      [JSON_stringify
                         (VObj [("jsonrpc", VStr "2.0"); ("id", VNum (nextId c));
                                ("method", method);
                                ("params", or_empty_object params)])
                       +:+ newline]))).
  { unfold request, write_failure. rewrite Hst, Hcl, Hpr. reflexivity. }
  subst c2 c1. rewrite Hc1. cbn [fst snd].
  split; [reflexivity|]. split; [reflexivity|].
  split; [cbn [with_pending pending]; rewrite lookup_insert_eq; eauto|].
  split; [exact Hfresh|].
  assert (Hdel : delete (nextId c) (<[nextId c := tt]> (pending c)) = pending c)
    by now apply delete_insert_id.
  unfold handleMessage, outcome_of. rewrite Hobj, Htr, Hown, Hid. cbn [negb orb].
  cbn [with_pending pending settled nextId written].
  rewrite lookup_insert_eq, Hdel.
  destruct (JS.hasOwn reply "error" && JS.truthy (JS.prop reply "error")).
  - destruct (normaliseError (JS.prop reply "error")) as [err|e];
      cbn [with_pending settled pending].
    + split; [|reflexivity]. rewrite settle_lookup.
      case_decide; [|congruence]. now rewrite Hfresh.
    + split; [assumption|reflexivity].
  - cbn [with_pending settled pending]. split; [|reflexivity].
    rewrite settle_lookup. case_decide; [|congruence]. now rewrite Hfresh.
Qed.

(** X15. A response is delivered once: handling the same message with an
    [id] a second time changes nothing, on any client. *)
Theorem response_delivered_once c message :
  JS.hasOwn message "id" = true ->
  handleMessage (handleMessage c message) message = handleMessage c message.
Proof.
  intros Hown. unfold handleMessage.
  destruct (negb (JS.typeof_object message) || negb (JS.truthy message)) eqn:Eg.
  { reflexivity. }
  rewrite Hown.
  destruct (JS.prop message "id") as [ | | | j | | | ] eqn:Ej;
    try reflexivity.
  destruct (pending c !! j) eqn:Ep; [|now rewrite Ep].
  destruct (JS.hasOwn message "error" && JS.truthy (JS.prop message "error"));
    [destruct (normaliseError (JS.prop message "error"))|];
    cbn [with_pending pending]; now rewrite lookup_delete_eq.
Qed.

Lemma request_nextId c m p w id :
  fst (request c m p w) = Ok id ->
  id = nextId c /\ nextId (snd (request c m p w)) = id + 1.
Proof.
  unfold request.
  destruct (negb (started c)); [discriminate|].
  destruct (closed c); [discriminate|].
  destruct (write_failure c w); cbn [fst snd with_pending nextId];
    intros [= <-]; now split.
Qed.

Lemma request_nextId_mono c m p w :
  nextId c <= nextId (snd (request c m p w)).
Proof.
  unfold request.
  destruct (negb (started c)); [cbn [snd]; lia|].
  destruct (closed c); [cbn [snd]; lia|].
  destruct (write_failure c w); cbn [snd with_pending nextId]; lia.
Qed.

Lemma handleMessage_nextId c message :
  nextId (handleMessage c message) = nextId c.
Proof.
  destruct (handleMessage_cases c message)
    as [-> | [(id & o & _ & ->) | [(id & _ & ->) | [_ ->]]]]; reflexivity.
Qed.

Lemma step_nextId_mono c e : nextId c <= nextId (step c e).
Proof.
  destruct e; cbn [step].
  - unfold start. destruct (started c); [cbn [snd]; lia|].
    destruct (negb (JS.truthy (JS.prop (server c) "command"))); [cbn [snd]; lia|].
    destruct spawn_error; [cbn [snd]; lia|].
    cbn [snd]. unfold initialize.
    etransitivity; [|apply request_nextId_mono]. cbn [nextId]. lia.
  - apply request_nextId_mono.
  - unfold notify. destruct (negb (started c) || closed c); [lia|].
    destruct (write_failure c write_error); cbn [with_pending nextId]; lia.
  - rewrite handleMessage_nextId. lia.
  - unfold close. destruct (closed c); cbn [nextId]; lia.
Qed.

Lemma run_nextId_mono es : forall c, nextId c <= nextId (run c es).
Proof.
  induction es as [|e es IH]; intros c; [cbn; lia|].
  cbn [run fold_left]. etransitivity; [apply (step_nextId_mono c e)|apply IH].
Qed.

(** X16. Request ids are never reused: of two requests that return a
    promise, the later one has the larger id, whatever happened in
    between. *)
Theorem request_ids_increase c m p w es m' p' w' id id' :
  fst (request c m p w) = Ok id ->
  fst (request (run (snd (request c m p w)) es) m' p' w') = Ok id' ->
  id < id'.
Proof.
  intros H1 H2.
  destruct (request_nextId _ _ _ _ _ H1) as [-> Hn].
  destruct (request_nextId _ _ _ _ _ H2) as [-> _].
  pose proof (run_nextId_mono es (snd (request c m p w))). lia.
Qed.

Lemma new_ids c serverConfig :
  new serverConfig = Ok c -> ids_tracked c /\ ids_complete c.
Proof.
  unfold new.
  destruct (negb (JS.truthy serverConfig) || negb (JS.typeof_object serverConfig));
    [discriminate|].
  intros [= <-]. split.
  - split; [cbn; lia|]. intros id. cbn. rewrite !lookup_empty. split.
    + intros [[x Hx]|[x Hx]]; discriminate.
    + reflexivity.
  - intros id. unfold issued. cbn. lia.
Qed.

Lemma request_fresh c :
  ids_tracked c ->
  pending c !! nextId c = None /\ settled c !! nextId c = None.
Proof.
  intros [_ Hall]. destruct (Hall (nextId c)) as [Hin _]. unfold issued in Hin.
  split.
  - destruct (pending c !! nextId c) eqn:E; [|reflexivity].
    assert (1 <= nextId c < nextId c) by (apply Hin; left; eauto). lia.
  - destruct (settled c !! nextId c) eqn:E; [|reflexivity].
    assert (1 <= nextId c < nextId c) by (apply Hin; right; eauto). lia.
Qed.

Lemma request_ids_tracked c m p w :
  ids_tracked c -> ids_tracked (snd (request c m p w)).
Proof.
  intros Hinv. destruct (request_fresh c Hinv) as [Hfp Hfs].
  pose proof Hinv as [Hone Hall]. unfold request.
  destruct (negb (started c)); [exact Hinv|].
  destruct (closed c); [exact Hinv|].
  destruct (write_failure c w); cbn [snd]; unfold ids_tracked, issued;
    cbn [with_pending pending settled nextId]; (split; [lia|]); intros id;
    destruct (Hall id) as [Hin Hexcl]; unfold issued in Hin.
  - destruct (decide (id = nextId c)) as [->|Hne].
    + rewrite lookup_delete_eq. split; [lia|]. intros [x Hx]. discriminate.
    + rewrite lookup_delete_ne, lookup_insert_ne, settle_lookup by congruence.
      case_decide; [congruence|]. split; [|assumption].
      intros Hi. specialize (Hin Hi). lia.
  - destruct (decide (id = nextId c)) as [->|Hne].
    + rewrite lookup_insert_eq. split; [lia|]. intros _. assumption.
    + rewrite lookup_insert_ne by congruence. split; [|assumption].
      intros Hi. specialize (Hin Hi). lia.
Qed.

Lemma request_ids_complete c m p w :
  ids_complete c -> ids_complete (snd (request c m p w)).
Proof.
  intros Hc. unfold request.
  destruct (negb (started c)); [exact Hc|].
  destruct (closed c); [exact Hc|].
  destruct (write_failure c w); cbn [snd]; unfold ids_complete, issued;
    cbn [with_pending pending settled nextId]; intros id Hid.
  - destruct (decide (id = nextId c)) as [->|Hne].
    + right. rewrite settle_lookup. case_decide; [eauto|congruence].
    + rewrite lookup_delete_ne, lookup_insert_ne, settle_lookup by congruence.
      case_decide; [congruence|]. apply Hc. unfold issued. lia.
  - destruct (decide (id = nextId c)) as [->|Hne].
    + left. rewrite lookup_insert_eq. eauto.
    + rewrite lookup_insert_ne by congruence. apply Hc. unfold issued. lia.
Qed.

Lemma step_ids_tracked c e : ids_tracked c -> ids_tracked (step c e).
Proof.
  intros Hinv. pose proof Hinv as [Hone Hall]. destruct e; cbn [step].
  - unfold start. destruct (started c); [assumption|].
    destruct (negb (JS.truthy (JS.prop (server c) "command"))); [assumption|].
    destruct spawn_error; [assumption|].
    cbn [snd]. unfold initialize. apply request_ids_tracked. exact Hinv.
  - now apply request_ids_tracked.
  - unfold notify. destruct (negb (started c) || closed c); [assumption|].
    destruct (write_failure c write_error); assumption.
  - destruct (handleMessage_cases c message)
      as [-> | [(j & o & Hj & ->) | [(j & Hj & ->) | [_ ->]]]];
      [assumption | | | exact Hinv];
      unfold ids_tracked, issued; cbn [with_pending pending settled nextId];
      (split; [assumption|]); intros id;
      destruct (Hall id) as [Hin Hexcl]; unfold issued in Hin.
    + rewrite settle_lookup. destruct (decide (id = j)) as [->|Hne].
      * rewrite lookup_delete_eq. split.
        -- intros _. destruct (Hall j) as [Hinj _]. apply Hinj. now left.
        -- intros [x Hx]. discriminate.
      * rewrite lookup_delete_ne by congruence. now split.
    + destruct (decide (id = j)) as [->|Hne].
      * rewrite lookup_delete_eq. split.
        -- intros _. apply Hin. now left.
        -- intros [x Hx]. discriminate.
      * rewrite lookup_delete_ne by congruence. now split.
  - unfold close. destruct (closed c); [assumption|].
    unfold ids_tracked, issued. cbn [pending settled nextId].
    split; [assumption|]. intros id.
    destruct (Hall id) as [Hin Hexcl]. unfold issued in Hin.
    rewrite lookup_empty. split.
    + intros [[x Hx]|[o Ho]]; [discriminate|].
      apply lookup_union_Some_raw in Ho as [Ho|[_ Ho]].
      * apply Hin. right. eauto.
      * rewrite lookup_fmap in Ho.
        destruct (pending c !! id) eqn:Ep; [|discriminate].
        apply Hin. left. eauto.
    + intros [x Hx]. discriminate.
Qed.

Lemma step_ids_complete c e :
  ids_tracked c -> normalisable e = true ->
  ids_complete c -> ids_complete (step c e).
Proof.
  intros Hinv Hok Hc. destruct e; cbn [step].
  - unfold start. destruct (started c); [assumption|].
    destruct (negb (JS.truthy (JS.prop (server c) "command"))); [assumption|].
    destruct spawn_error; [assumption|].
    cbn [snd]. unfold initialize. apply request_ids_complete. exact Hc.
  - now apply request_ids_complete.
  - unfold notify. destruct (negb (started c) || closed c); [assumption|].
    destruct (write_failure c write_error); assumption.
  - cbn [normalisable] in Hok. unfold handleMessage.
    destruct (negb (JS.typeof_object message) || negb (JS.truthy message));
      [assumption|].
    destruct (JS.hasOwn message "id"); [|exact Hc].
    destruct (JS.prop message "id") as [ | | | j | | | ]; try assumption.
    destruct (pending c !! j) as [u|] eqn:Ep; [|assumption].
    assert (Hgoal : forall o,
              ids_complete (with_pending c (nextId c) (delete j (pending c))
                              (settle j o (settled c)) (written c))).
    { intros o id Hid. cbn [with_pending pending settled nextId] in *.
      rewrite settle_lookup. destruct (decide (id = j)) as [->|Hne];
        [right; eauto|].
      rewrite lookup_delete_ne by congruence. now apply Hc. }
    destruct (JS.hasOwn message "error" && JS.truthy (JS.prop message "error"));
      [|apply Hgoal].
    cbn [negb orb] in Hok.
    destruct (normaliseError (JS.prop message "error")); [apply Hgoal|].
    discriminate.
  - unfold close. destruct (closed c); [assumption|].
    intros id Hid. cbn [pending settled nextId] in *. right.
    destruct (Hc id Hid) as [[u Hp]|[o Hs]].
    + destruct Hinv as [_ Hall]. destruct (Hall id) as [_ Hexcl].
      rewrite lookup_union_r by (apply Hexcl; eauto).
      rewrite lookup_fmap, Hp. eauto.
    + exists o. now apply lookup_union_Some_l.
Qed.

Lemma run_ids_tracked es : forall c, ids_tracked c -> ids_tracked (run c es).
Proof.
  induction es as [|e es IH]; intros c Hc; [assumption|].
  cbn [run fold_left]. apply IH. now apply step_ids_tracked.
Qed.

Lemma run_ids_complete es : forall c,
  ids_tracked c -> forallb normalisable es = true ->
  ids_complete c -> ids_complete (run c es).
Proof.
  induction es as [|e es IH]; intros c Ht Hok Hc; [assumption|].
  cbn [forallb] in Hok. apply andb_true_iff in Hok as [He Hes].
  cbn [run fold_left]. apply IH; [now apply step_ids_tracked|assumption|].
  now apply step_ids_complete.
Qed.

(** X17. Over any history of a client built by [new], the ids that are
    pending or settled lie between 1 and [nextId], and no id is both.  If
    every response in the history carries an error that can be turned into
    an [Error], or none, then no request is lost either: every id from 1 up
    to [nextId] is pending or settled.  (A response whose error cannot be
    converted removes its request without settling it.) *)
Theorem request_ids_partition serverConfig c0 es :
  new serverConfig = Ok c0 ->
  ids_tracked (run c0 es) /\
  (forallb normalisable es = true -> ids_complete (run c0 es)).
Proof.
  intros Hnew. apply new_ids in Hnew as [Ht Hc]. split.
  - now apply run_ids_tracked.
  - intros Hok. now apply run_ids_complete.
Qed.

Lemma start_started_or_same c s w :
  started (snd (start c s w)) = true \/ forall w', snd (start c s w') = c.
Proof.
  unfold start. destruct (started c) eqn:Es; [now left|].
  destruct (negb (JS.truthy (JS.prop (server c) "command"))); [now right|].
  destruct s; [now right|].
  left. cbn [snd]. unfold initialize, request. cbn [started closed negb].
  destruct (closed c); [reflexivity|].
  destruct (write_failure _ w); reflexivity.
Qed.

Lemma start_ok_started c s w u c' :
  start c s w = (Ok u, c') -> started c' = true.
Proof.
  unfold start. destruct (started c) eqn:Es; [now intros [= _ <-]|].
  destruct (negb (JS.truthy (JS.prop (server c) "command"))); [discriminate|].
  destruct s; [discriminate|].
  intros [= _ <-]. unfold initialize, request. cbn [started closed negb].
  destruct (closed c); [reflexivity|].
  destruct (write_failure _ w); reflexivity.
Qed.

(** [start] works once: a second call that meets the same [spawn],
    whatever the first one did, leaves the client as the first call left
    it, so [initialize] is sent at most once per successful start. *)
Theorem start_once c s w w' :
  snd (start (snd (start c s w)) s w') = snd (start c s w).
Proof.
  destruct (start_started_or_same c s w) as [Hs|Hsame].
  - set (c1 := snd (start c s w)) in *. unfold start. now rewrite Hs.
  - now rewrite !Hsame.
Qed.

Lemma step_closed c e : closed c = true -> closed (step c e) = true.
Proof.
  intros Hc. destruct e; cbn [step].
  - unfold start. destruct (started c); [assumption|].
    destruct (negb (JS.truthy (JS.prop (server c) "command"))); [assumption|].
    destruct spawn_error; [assumption|].
    cbn [snd]. unfold initialize, request. cbn [started closed negb].
    now rewrite Hc.
  - destruct (request_closed c method params write_error Hc) as [x ->].
    assumption.
  - unfold notify. now rewrite Hc, orb_true_r.
  - destruct (handleMessage_cases c message)
      as [-> | [(id & o & _ & ->) | [(id & _ & ->) | [_ ->]]]]; assumption.
  - unfold close. now rewrite Hc.
Qed.

Lemma step_written_closed c e :
  closed c = true -> written (step c e) = written c.
Proof.
  intros Hc. destruct e; cbn [step].
  - unfold start. destruct (started c); [reflexivity|].
    destruct (negb (JS.truthy (JS.prop (server c) "command"))); [reflexivity|].
    destruct spawn_error; [reflexivity|].
    cbn [snd]. unfold initialize, request. cbn [started closed negb].
    now rewrite Hc.
  - destruct (request_closed c method params write_error Hc) as [x ->].
    reflexivity.
  - unfold notify. now rewrite Hc, orb_true_r.
  - destruct (handleMessage_cases c message)
      as [-> | [(id & o & _ & ->) | [(id & _ & ->) | [_ ->]]]]; reflexivity.
  - unfold close. now rewrite Hc.
Qed.

(** X18. A closed client is silent: after [close], no request, notification
    or restart writes another line to the child. *)
Theorem closed_client_writes_nothing c err es :
  written (run (close c err) es) = written c.
Proof.
  assert (Hgen : forall es c1, closed c1 = true -> written (run c1 es) = written c1).
  { clear. induction es as [|e es IH]; intros c1 Hc; [reflexivity|].
    cbn [run fold_left]. unfold run in IH. rewrite IH by now apply step_closed.
    now apply step_written_closed. }
  rewrite Hgen.
  - unfold close. destruct (closed c); reflexivity.
  - unfold close. destruct (closed c) eqn:E; [assumption|reflexivity].
Qed.

Lemma filter_close_app (l : list (string * value)) ev :
  length (List.filter (fun ev => String.eqb (fst ev) "close") (l ++ [ev]))
  = (length (List.filter (fun ev => String.eqb (fst ev) "close") l)
     + if String.eqb (fst ev) "close" then 1 else 0)%nat.
Proof.
  rewrite List.filter_app, length_app. cbn [List.filter].
  destruct (String.eqb (fst ev) "close"); reflexivity.
Qed.

Local Ltac same_events := cbn [snd with_pending emitted closed]; auto.

(** What a step does to the number of [close] events, for any relation
    [R] between the number and what the [closed] flag allows that a first
    [close] respects. *)
Lemma step_close_events (R : nat -> nat -> Prop) c e :
  (forall err, e = EClose err -> closed c = false ->
               forall n, R n 0%nat ->
                         R (n + match close_event err with
                                | Some _ => 1 | None => 0 end)%nat 1%nat) ->
  R (close_events c) (if closed c then 1 else 0)%nat ->
  R (close_events (step c e)) (if closed (step c e) then 1 else 0)%nat.
Proof.
  intros Hfirst. unfold close_events. destruct e; cbn [step].
  - unfold start. destruct (started c); [same_events|].
    destruct (negb (JS.truthy (JS.prop (server c) "command"))); [same_events|].
    destruct spawn_error; [same_events|].
    cbn [snd]. unfold initialize, request. cbn [started closed negb].
    destruct (closed c) eqn:Ec; [cbn [snd closed]; rewrite ?Ec; auto|].
    destruct (write_failure _ write_error);
      cbn [snd with_pending emitted closed]; rewrite ?Ec; auto.
  - unfold request. destruct (negb (started c)); [same_events|].
    destruct (closed c) eqn:Ec; [cbn [snd closed]; rewrite ?Ec; auto|].
    destruct (write_failure c write_error);
      cbn [snd with_pending emitted closed]; rewrite ?Ec; auto.
  - unfold notify. destruct (negb (started c) || closed c); [same_events|].
    destruct (write_failure c write_error); same_events.
  - destruct (handleMessage_cases c message)
      as [-> | [(id & o & _ & ->) | [(id & _ & ->) | [_ ->]]]];
      try same_events.
    cbn [emitted closed]. rewrite filter_close_app. cbn.
    now rewrite Nat.add_0_r.
  - unfold close. destruct (closed c) eqn:Ec; [rewrite ?Ec; auto|].
    cbn [emitted closed]. intros Hn.
    specialize (Hfirst err eq_refl eq_refl _ Hn).
    destruct (close_event err).
    + rewrite filter_close_app. cbn [fst]. now rewrite String.eqb_refl.
    + now rewrite app_nil_r, Nat.add_0_r in *.
Qed.

Lemma run_close_events es : forall c,
  (close_events c <= if closed c then 1 else 0)%nat ->
  (close_events (run c es) <= if closed (run c es) then 1 else 0)%nat /\
  (forallb close_argument_ok es = true ->
   close_events c = (if closed c then 1 else 0)%nat ->
   close_events (run c es) = (if closed (run c es) then 1 else 0)%nat).
Proof.
  induction es as [|e es IH]; intros c Hle; [split; auto|].
  cbn [run fold_left forallb].
  assert (Hle' : (close_events (step c e)
                  <= if closed (step c e) then 1 else 0)%nat).
  { apply (step_close_events le c e); [|assumption].
    intros err _ _ n Hn. destruct (close_event err); lia. }
  destruct (IH (step c e) Hle') as [Hle'' Heq]. split; [assumption|].
  intros [He Hes]%andb_true_iff Hc. apply Heq; [assumption|].
  apply (step_close_events eq c e); [|assumption].
  intros err -> _ n Hn. cbn [close_argument_ok] in He.
  destruct (close_event err); [lia|discriminate].
Qed.

(** X19. The [close] event is emitted at most once, and only by a client
    that is closed.  Over any history of a client built by [new] in which
    every [close] is given nothing or an argument that can be turned into
    an [Error] (every call of [close] in the repository passes an [Error] or
    nothing), the number of [close] events is exactly one if the client is
    closed and zero if it is not. *)
Theorem close_emitted_once serverConfig c0 es :
  new serverConfig = Ok c0 ->
  (close_events (run c0 es) <= if closed (run c0 es) then 1 else 0)%nat /\
  (forallb close_argument_ok es = true ->
   close_events (run c0 es) = (if closed (run c0 es) then 1 else 0)%nat).
Proof.
  intros Hnew.
  assert (H0 : close_events c0 = 0%nat /\ closed c0 = false).
  { unfold new in Hnew.
    destruct (negb (JS.truthy serverConfig) || negb (JS.typeof_object serverConfig));
      [discriminate|].
    injection Hnew as <-. split; reflexivity. }
  destruct H0 as [Hz Hc].
  destruct (run_close_events es c0) as [Hle Heq]; [rewrite Hz, Hc; lia|].
  split; [assumption|]. intros Hok. apply Heq; [assumption|].
  now rewrite Hz, Hc.
Qed.

End WithPlatform.

Lemma request_response_round_trip_witness :
  let c1 := snd (@request Demo.platform started_client
                   (VStr "tools/list") VUndefined None) in
  settled (handleMessage c1 reply_two) !! 2
  = Some (Resolved (VObj [("tools", VArr [])])) /\
  settled (handleMessage c1 reply_two_error) !! 2
  = Some (Rejected (VObj [("message", VStr "Method not found");
                          ("code", VNum (-32601))])) /\
  settled (handleMessage c1 reply_two_unconvertible) !! 2 = None /\
  pending (handleMessage c1 reply_two_unconvertible) !! 2 = None.
Proof.
  assert (Hinv : client_inv started_client).
  { apply (@run_inv Demo.platform [EStart None None] demo_client).
    apply (new_client_inv demo_server). reflexivity. }
  pose proof (fun reply =>
    @request_response_round_trip Demo.platform started_client
      (VStr "tools/list") VUndefined reply Hinv eq_refl eq_refl eq_refl) as Hrt.
  destruct (Hrt reply_two eq_refl eq_refl eq_refl eq_refl)
    as (_ & _ & _ & _ & Hok & _).
  destruct (Hrt reply_two_error eq_refl eq_refl eq_refl eq_refl)
    as (_ & _ & _ & _ & Herr & _).
  destruct (Hrt reply_two_unconvertible eq_refl eq_refl eq_refl eq_refl)
    as (_ & _ & _ & _ & Hlost & Hpending).
  split; [exact Hok|]. split; [exact Herr|]. split; [exact Hlost|].
  cbv zeta in Hpending. rewrite Hpending. vm_compute. reflexivity.
Defined.

Lemma response_delivered_once_witness :
  let c := @run Demo.platform started_client
             [ERequest (VStr "tools/list") (VObj []) None] in
  handleMessage (handleMessage c reply_two) reply_two_error
  = handleMessage c reply_two /\
  handleMessage (handleMessage c reply_two) reply_two
  = handleMessage c reply_two.
Proof.
  cbv zeta. split; [vm_compute; reflexivity|].
  apply response_delivered_once. reflexivity.
Defined.

Lemma request_ids_increase_witness : 2 < 3.
Proof.
  apply (@request_ids_increase Demo.platform started_client
           (VStr "tools/list") (VObj []) None
           [EMessage reply_two; ENotify (VStr "ping") (VObj []) None]
           (VStr "tools/call") (VObj []) (Some (JS.Error "EPIPE")) 2 3).
  - reflexivity.
  - vm_compute. reflexivity.
Defined.

Lemma request_ids_partition_witness :
  ids_tracked (@run Demo.platform demo_client client_history) /\
  ids_complete (@run Demo.platform demo_client client_history).
Proof.
  destruct (@request_ids_partition Demo.platform demo_server demo_client
              client_history eq_refl) as [Ht Hc].
  split; [exact Ht|]. apply Hc. reflexivity.
Defined.

Lemma close_emitted_once_witness :
  close_events
    (@run Demo.platform demo_client
       (client_history ++ [EClose VUndefined; EClose (JS.Error "again")]))
  = 1%nat.
Proof.
  apply (proj2 (@close_emitted_once Demo.platform demo_server demo_client
                  (client_history
                   ++ [EClose VUndefined; EClose (JS.Error "again")])
                  eq_refl)).
  reflexivity.
Defined.

End McpExtras.

(* ===================================================================== *)
(** ** The sandbox permissions *)

Section PermissionExtras.
Import Permissions.

Lemma lower_code_unit_idem c :
  JS.lower_code_unit (JS.lower_code_unit c) = JS.lower_code_unit c.
Proof. destruct c as [[] [] [] [] [] [] [] []]; reflexivity. Qed.

Lemma toLowerCase_idem s : JS.toLowerCase (JS.toLowerCase s) = JS.toLowerCase s.
Proof.
  induction s as [|c s IH]; cbn; [reflexivity|].
  now rewrite lower_code_unit_idem, IH.
Qed.

Lemma trimStart_lower s :
  JS.trimStart (JS.toLowerCase s) = JS.toLowerCase (JS.trimStart s).
Proof.
  induction s as [|c s IH]; cbn; [reflexivity|].
  rewrite is_space_lower. destruct (JS.is_space c); [assumption|reflexivity].
Qed.

Lemma all_space_lower s : JS.all_space (JS.toLowerCase s) = JS.all_space s.
Proof.
  induction s as [|c s IH]; cbn; [reflexivity|].
  now rewrite is_space_lower, IH.
Qed.

Lemma trimEnd_lower s :
  JS.trimEnd (JS.toLowerCase s) = JS.toLowerCase (JS.trimEnd s).
Proof.
  induction s as [|c s IH]; [reflexivity|].
  cbn [JS.toLowerCase JS.trimEnd].
  change (String (JS.lower_code_unit c) (JS.toLowerCase s))
    with (JS.toLowerCase (String c s)).
  rewrite all_space_lower.
  destruct (JS.all_space (String c s)); [reflexivity|].
  cbn [JS.toLowerCase]. now rewrite IH.
Qed.

Lemma trimStart_idem s : JS.trimStart (JS.trimStart s) = JS.trimStart s.
Proof.
  induction s as [|c s IH]; cbn; [reflexivity|].
  destruct (JS.is_space c) eqn:E; [assumption|]. cbn. now rewrite E.
Qed.

Lemma trimEnd_head s c r :
  JS.trimEnd s = String c r -> exists r', s = String c r'.
Proof.
  destruct s as [|c' s]; cbn [JS.trimEnd]; [discriminate|].
  destruct (JS.all_space (String c' s)); [discriminate|].
  intros [= -> _]. eauto.
Qed.

Lemma trimStart_trimEnd s :
  JS.trimStart (JS.trimEnd (JS.trimStart s)) = JS.trimEnd (JS.trimStart s).
Proof.
  destruct (JS.trimEnd (JS.trimStart s)) as [|c r] eqn:E; [reflexivity|].
  destruct (trimEnd_head _ _ _ E) as [r' Hr'].
  assert (Hc : JS.is_space c = false).
  { clear E. induction s as [|c' s IH]; cbn in Hr'; [discriminate|].
    destruct (JS.is_space c') eqn:Ec; [auto|]. now injection Hr' as -> _. }
  cbn. now rewrite Hc.
Qed.

Lemma all_space_trimEnd s : JS.all_space s = true -> JS.trimEnd s = "".
Proof. destruct s; cbn [JS.trimEnd]; [reflexivity|]. now intros ->. Qed.

Lemma trimEnd_idem s : JS.trimEnd (JS.trimEnd s) = JS.trimEnd s.
Proof.
  induction s as [|c s IH]; [reflexivity|].
  cbn [JS.trimEnd]. destruct (JS.all_space (String c s)) eqn:E; [reflexivity|].
  cbn [JS.trimEnd].
  assert (Hn : JS.all_space (String c (JS.trimEnd s)) = false).
  { cbn [JS.all_space] in *. destruct (JS.is_space c); [|reflexivity].
    cbn [andb] in *. clear IH.
    induction s as [|d s IHs]; [discriminate|].
    cbn [JS.trimEnd]. destruct (JS.all_space (String d s)) eqn:Ed;
      [congruence|].
    cbn [JS.all_space] in *. destruct (JS.is_space d); [|reflexivity].
    cbn [andb] in *. now apply IHs. }
  now rewrite Hn, IH.
Qed.

Lemma trim_idem s : JS.trim (JS.trim s) = JS.trim s.
Proof.
  unfold JS.trim. now rewrite trimStart_trimEnd, trimEnd_idem.
Qed.

Lemma trim_lower s : JS.trim (JS.toLowerCase s) = JS.toLowerCase (JS.trim s).
Proof. unfold JS.trim. now rewrite trimStart_lower, trimEnd_lower. Qed.

Lemma normaliseValue_idem v :
  normaliseValue (VStr (normaliseValue v)) = normaliseValue v.
Proof.
  destruct v; try reflexivity. cbn [normaliseValue].
  now rewrite trim_lower, trim_idem, toLowerCase_idem.
Qed.

(** X20. The verdict in one formula: a command is allowed exactly when no
    deny pattern matches it, the mode is not [deny], and, in mode [require],
    an allow pattern matches it.  In every other mode the allow list has no
    part in the answer, and a deny pattern wins over any allow pattern.
    The function returns a verdict for every command that can be converted
    to a string, as every string can; for any other command it throws only
    where the verdict would have been a denial that quotes the command. *)
Theorem sandbox_verdict configured command :
  let permissions := JS.coalesce configured (VObj []) in
  let target := normaliseValue command in
  let verdict :=
    negb (existsb (fun p => matchesPattern p target) (list_of permissions "deny"))
    && negb (String.eqb (mode_of permissions) "deny")
    && (negb (String.eqb (mode_of permissions) "require")
        || existsb (fun p => matchesPattern p target)
             (list_of permissions "allow")) in
  match evaluateSandboxRequest configured command with
  | Ok v => allowed v = verdict
  | Throw e => JS.toString command = Throw e /\ verdict = false
  end /\
  (forall shown, JS.toString command = Ok shown ->
                 exists v, evaluateSandboxRequest configured command = Ok v).
Proof.
  cbv zeta. unfold evaluateSandboxRequest, quoted_command.
  destruct (existsb _ (list_of _ "deny")).
  { destruct (JS.toString command); cbn [bind].
    - split; [reflexivity|eauto].
    - split; [now split|]. intros shown [=]. }
  destruct (String.eqb (mode_of _) "deny"); [split; [reflexivity|eauto]|].
  destruct (String.eqb (mode_of _) "require"); [|split; [reflexivity|eauto]].
  destruct (list_of _ "allow") as [|a l]; [split; [reflexivity|eauto]|].
  cbn [length Nat.eqb].
  destruct (existsb _ (a :: l)); cbn [negb]; [split; [reflexivity|eauto]|].
  destruct (JS.toString command); cbn [bind].
  - split; [reflexivity|eauto].
  - split; [now split|]. intros shown [=].
Qed.

(** X21. The verdict does not see case or surrounding white space: a command
    and its trimmed, lower-cased form are allowed or denied alike, from the
    same source. *)
Theorem sandbox_verdict_normalised configured command :
  exists v v',
    evaluateSandboxRequest configured (VStr command) = Ok v /\
    evaluateSandboxRequest configured
      (VStr (JS.toLowerCase (JS.trim command))) = Ok v' /\
    allowed v' = allowed v /\ source v' = source v.
Proof.
  unfold evaluateSandboxRequest, quoted_command. cbn [JS.toString bind].
  change (JS.toLowerCase (JS.trim command))
    with (normaliseValue (VStr command)).
  rewrite normaliseValue_idem.
  destruct (existsb _ (list_of _ "deny")); [eauto 6|].
  destruct (String.eqb (mode_of _) "deny"); [eauto 6|].
  destruct (String.eqb (mode_of _) "require"); [|eauto 6].
  destruct (length (list_of _ "allow") =? 0)%nat; [eauto 6|].
  destruct (existsb _ (list_of _ "allow")); cbn [negb]; eauto 6.
Qed.

Lemma endsWith_star_app p : endsWith_star (p +:+ "*") = true.
Proof.
  induction p as [|c p IH]; [reflexivity|].
  change (String c p +:+ "*") with (String c (p +:+ "*")).
  destruct (p +:+ "*") eqn:E; [destruct p; discriminate|]. exact IH.
Qed.

Lemma slice_but_last_app p c :
  slice_but_last (p +:+ String c EmptyString) = p.
Proof.
  induction p as [|d p IH]; [reflexivity|].
  change (String d p +:+ String c EmptyString)
    with (String d (p +:+ String c EmptyString)).
  destruct (p +:+ String c EmptyString) eqn:E; [destruct p; discriminate|].
  cbn [slice_but_last] in *. now rewrite IH.
Qed.

(** X22. What a pattern means: a pattern that ends in a star matches the
    targets that start with what precedes the star, any other pattern
    that is not empty matches itself only, and the empty pattern (which
    is what an entry that is not a string becomes) matches nothing. *)
Theorem matchesPattern_meaning prefix pattern target entry :
  matchesPattern (prefix +:+ "*") target = JS.startsWith prefix target /\
  (endsWith_star pattern = false ->
   matchesPattern pattern target
   = negb (String.eqb pattern "") && String.eqb pattern target) /\
  (JS.typeof_string entry = false ->
   matchesPattern (normaliseValue entry) target = false).
Proof.
  split; [|split].
  - unfold matchesPattern.
    destruct (String.eqb (prefix +:+ "*") "") eqn:E0.
    { apply String.eqb_eq in E0. destruct prefix; discriminate. }
    destruct (String.eqb (prefix +:+ "*") "*") eqn:E1.
    { apply String.eqb_eq in E1. destruct prefix as [|c [|d p]]; try discriminate.
      reflexivity. }
    now rewrite endsWith_star_app, slice_but_last_app.
  - intros Hns. unfold matchesPattern.
    destruct (String.eqb pattern ""); [reflexivity|].
    destruct (String.eqb pattern "*") eqn:E1.
    { apply String.eqb_eq in E1. subst. discriminate. }
    now rewrite Hns.
  - destruct entry; try reflexivity. discriminate.
Qed.

Lemma matchesPattern_meaning_witness :
  matchesPattern "git *" "git status" = true /\
  matchesPattern "git" "git status" = false /\
  matchesPattern (normaliseValue (VNum 7)) "git status" = false.
Proof.
  destruct (matchesPattern_meaning "git " "git" "git status" (VNum 7))
    as (Hstar & Hplain & Hentry).
  split; [exact Hstar|]. split; [exact (Hplain eq_refl)|exact (Hentry eq_refl)].
Defined.

End PermissionExtras.

(* ===================================================================== *)
(** ** Names of remote tools *)

Section RemoteToolExtras.
Import RemoteTools RemoteToolsSpec.

Lemma all_word_replace_unsafe s : all_word (replace_unsafe s) = true.
Proof.
  induction s as [|c s IH]; [reflexivity|].
  cbn [replace_unsafe all_word]. rewrite IH, andb_true_r.
  destruct (Regex.is_word c) eqn:E; [assumption|reflexivity].
Qed.

Lemma starts_collapse_runs s :
  starts_underscore (collapse_runs s) = starts_underscore s.
Proof.
  induction s as [|c s IH]; [reflexivity|].
  cbn [collapse_runs]. destruct (is_underscore c) eqn:Ec; cbn [andb].
  - destruct (starts_underscore s) eqn:Es.
    + rewrite IH. cbn. now rewrite Ec.
    + reflexivity.
  - reflexivity.
Qed.

Lemma all_word_collapse_runs s :
  all_word s = true -> all_word (collapse_runs s) = true.
Proof.
  induction s as [|c s IH]; [reflexivity|].
  cbn [all_word collapse_runs]. intros [Hc Hs]%andb_true_iff.
  destruct (is_underscore c && starts_underscore s); [auto|].
  cbn [all_word]. now rewrite Hc, IH.
Qed.

Lemma no_run_collapse_runs s : no_run (collapse_runs s) = true.
Proof.
  induction s as [|c s IH]; [reflexivity|].
  cbn [collapse_runs].
  destruct (is_underscore c && starts_underscore s) eqn:E; [assumption|].
  cbn [no_run]. now rewrite starts_collapse_runs, E, IH.
Qed.

Lemma strip_leading_keeps s :
  all_word s = true -> no_run s = true ->
  all_word (strip_leading s) = true /\ no_run (strip_leading s) = true /\
  starts_underscore (strip_leading s) = false.
Proof.
  induction s as [|c s IH]; [now repeat split|].
  intros Hw Hn. cbn [strip_leading].
  destruct (is_underscore c) eqn:Ec.
  - cbn [all_word no_run] in Hw, Hn.
    apply andb_true_iff in Hw as [_ Hw]. apply andb_true_iff in Hn as [_ Hn].
    now apply IH.
  - repeat split; [assumption..|]. exact Ec.
Qed.

Lemma starts_strip_trailing s :
  starts_underscore (strip_trailing s) = true -> starts_underscore s = true.
Proof.
  destruct s as [|c s]; [discriminate|]. cbn [strip_trailing].
  destruct (all_underscore (String c s)); [discriminate|]. auto.
Qed.

Lemma strip_trailing_empty s :
  strip_trailing s = "" -> all_underscore s = true.
Proof.
  destruct s as [|c s]; [reflexivity|]. cbn [strip_trailing].
  destruct (all_underscore (String c s)); [reflexivity|discriminate].
Qed.

Lemma strip_trailing_keeps s :
  all_word s = true -> no_run s = true -> starts_underscore s = false ->
  all_word (strip_trailing s) = true /\ no_run (strip_trailing s) = true /\
  starts_underscore (strip_trailing s) = false /\
  ends_underscore (strip_trailing s) = false.
Proof.
  intros Hw Hn Hs. split; [|split; [|split]].
  - clear Hn Hs. induction s as [|c s IH]; [reflexivity|].
    cbn [strip_trailing]. destruct (all_underscore (String c s)); [reflexivity|].
    cbn [all_word] in *. apply andb_true_iff in Hw as [Hc Hw].
    now rewrite Hc, IH.
  - clear Hw Hs. induction s as [|c s IH]; [reflexivity|].
    cbn [strip_trailing]. destruct (all_underscore (String c s)); [reflexivity|].
    cbn [no_run] in *. apply andb_true_iff in Hn as [Hc Hn].
    rewrite IH by assumption. rewrite andb_true_r.
    destruct (starts_underscore (strip_trailing s)) eqn:E.
    + apply starts_strip_trailing in E. now rewrite E in Hc.
    + now rewrite andb_false_r.
  - destruct (starts_underscore (strip_trailing s)) eqn:E; [|reflexivity].
    apply starts_strip_trailing in E. congruence.
  - clear Hw Hn Hs. induction s as [|c s IH]; [reflexivity|].
    cbn [strip_trailing].
    destruct (all_underscore (String c s)) eqn:Ea; [reflexivity|].
    destruct (strip_trailing s) as [|d t] eqn:Et.
    + apply strip_trailing_empty in Et. cbn [all_underscore] in Ea.
      rewrite Et, andb_true_r in Ea. exact Ea.
    + exact IH.
Qed.

Lemma sanitise_is_clean s : clean (sanitise s) = true.
Proof.
  unfold sanitise, clean.
  set (a := replace_unsafe s).
  assert (Ha : all_word (collapse_runs a) = true)
    by apply all_word_collapse_runs, all_word_replace_unsafe.
  destruct (strip_leading_keeps _ Ha (no_run_collapse_runs a)) as (Hw & Hn & Hs).
  destruct (strip_trailing_keeps _ Hw Hn Hs) as (Hw' & Hn' & Hs' & He').
  now rewrite Hw', Hn', Hs', He'.
Qed.

(** X23. [sanitiseName] throws only where [String(value)] does (on an
    object with an own [toString]); whenever it returns, the name is made of
    letters, digits and single underscores, and neither starts nor ends
    with an underscore: each of the three replacements keeps what the one
    before it achieved. *)
Theorem sanitiseName_clean v :
  match sanitiseName v with
  | Ok name =>
      (exists s, JS.toString v = Ok s) /\
      all_word name = true /\ no_run name = true /\
      starts_underscore name = false /\ ends_underscore name = false
  | Throw e => JS.toString v = Throw e
  end.
Proof.
  unfold sanitiseName. destruct (JS.toString v) as [s|e]; cbn [bind];
    [|reflexivity].
  pose proof (sanitise_is_clean s) as H. unfold clean in H.
  apply andb_true_iff in H as [H He]. apply andb_true_iff in H as [H Hs].
  apply andb_true_iff in H as [Hw Hn]. apply negb_true_iff in He, Hs.
  split; [eauto|]. now repeat split.
Qed.

Lemma replace_unsafe_fixes s : all_word s = true -> replace_unsafe s = s.
Proof.
  induction s as [|c s IH]; [reflexivity|].
  cbn [all_word replace_unsafe]. intros [Hc Hw]%andb_true_iff.
  now rewrite Hc, IH.
Qed.

Lemma collapse_runs_fixes s : no_run s = true -> collapse_runs s = s.
Proof.
  induction s as [|c s IH]; [reflexivity|].
  cbn [no_run collapse_runs]. intros [Hc Hn]%andb_true_iff.
  apply negb_true_iff in Hc. now rewrite Hc, IH.
Qed.

Lemma strip_leading_fixes s : starts_underscore s = false -> strip_leading s = s.
Proof. destruct s as [|c s]; [reflexivity|]. cbn. now intros ->. Qed.

Lemma ends_not_all_underscore c s :
  ends_underscore (String c s) = false -> all_underscore (String c s) = false.
Proof.
  revert c. induction s as [|d s IH]; intros c.
  - cbn. now intros ->.
  - intros He. change (ends_underscore (String d s) = false) in He.
    cbn [all_underscore]. cbn [all_underscore] in IH. rewrite (IH d He).
    apply andb_false_r.
Qed.

Lemma strip_trailing_fixes s : ends_underscore s = false -> strip_trailing s = s.
Proof.
  induction s as [|c s IH]; [reflexivity|]. intros He.
  cbn [strip_trailing]. rewrite (ends_not_all_underscore _ _ He).
  destruct s as [|d s]; [reflexivity|].
  change (ends_underscore (String d s) = false) in He. now rewrite IH.
Qed.

(** X24. A clean name is left as it is, so sanitising a name that
    [sanitiseName] returned gives it back. *)
Theorem sanitiseName_fixes_clean s v :
  (clean s = true -> sanitiseName (VStr s) = Ok s) /\
  (forall name, sanitiseName v = Ok name -> sanitiseName (VStr name) = Ok name).
Proof.
  assert (Hfix : forall t, clean t = true -> sanitiseName (VStr t) = Ok t).
  { intros t Ht. unfold clean in Ht.
    apply andb_true_iff in Ht as [Ht He]. apply andb_true_iff in Ht as [Ht Hs].
    apply andb_true_iff in Ht as [Hw Hn].
    apply negb_true_iff in He, Hs.
    unfold sanitiseName, sanitise. cbn [JS.toString bind].
    now rewrite replace_unsafe_fixes, collapse_runs_fixes, strip_leading_fixes,
      strip_trailing_fixes. }
  split; [apply Hfix|]. intros name. unfold sanitiseName.
  destruct (JS.toString v) as [t|e]; cbn [bind]; [|discriminate].
  intros [= <-]. apply Hfix, sanitise_is_clean.
Qed.

Lemma all_word_app a b :
  all_word a = true -> all_word b = true -> all_word (a +:+ b) = true.
Proof.
  intros Ha Hb. induction a as [|c a IH]; [assumption|].
  change (String c a +:+ b) with (String c (a +:+ b)).
  cbn [all_word] in *. apply andb_true_iff in Ha as [Hc Ha].
  now rewrite Hc, IH.
Qed.

(** A remote tool is registered under a name of letters, digits and
    underscores that starts with [mcp_], whatever the server and the tool
    are called, whenever their names can be converted to strings. *)
Theorem localName_is_identifier serverId remoteName name :
  localName serverId remoteName = Ok name ->
  all_word name = true /\ JS.startsWith "mcp_" name = true.
Proof.
  unfold localName, sanitiseName.
  destruct (JS.toString serverId) as [a|]; cbn [bind]; [|discriminate].
  destruct (JS.toString remoteName) as [b|]; cbn [bind]; [|discriminate].
  intros [= <-]. split; [|reflexivity].
  assert (Hc : forall s, all_word (sanitise s) = true).
  { intros s. pose proof (sanitise_is_clean s) as H. unfold clean in H.
    apply andb_true_iff in H as [H _]. apply andb_true_iff in H as [H _].
    now apply andb_true_iff in H as [H _]. }
  repeat apply all_word_app; auto.
Qed.

Lemma sanitiseName_fixes_clean_witness :
  sanitiseName (VStr "files_v2") = Ok "files_v2" /\
  sanitiseName (VStr "@acme/files--v2!") = Ok "acme_files_v2" /\
  sanitiseName (VStr "acme_files_v2") = Ok "acme_files_v2".
Proof.
  destruct (sanitiseName_fixes_clean "files_v2" (VStr "@acme/files--v2!"))
    as [Hfix Hidem].
  split; [exact (Hfix eq_refl)|]. split; [reflexivity|].
  apply Hidem. reflexivity.
Defined.

Lemma localName_is_identifier_witness :
  RemoteToolsSpec.all_word "mcp_acme_files_list" = true /\
  JS.startsWith "mcp_" "mcp_acme_files_list" = true.
Proof.
  apply (localName_is_identifier (VStr "@acme/files") (VStr "list")).
  reflexivity.
Defined.

End RemoteToolExtras.

(* ===================================================================== *)
(** ** Buffers and timeouts of a process *)

Section ProcessExtras.
Import Process ProcessSpec.

Lemma length_append a b :
  String.length (a +:+ b) = (String.length a + String.length b)%nat.
Proof.
  induction a as [|c a IH]; [reflexivity|].
  change (String c a +:+ b) with (String c (a +:+ b)). cbn [String.length].
  now rewrite IH.
Qed.

Lemma substring_all m s :
  (String.length s <= m)%nat -> substring 0 m s = s.
Proof.
  revert m. induction s as [|c s IH]; intros [|m] Hm; cbn in *; try reflexivity.
  - lia.
  - rewrite IH by lia. reflexivity.
Qed.

Lemma substring_app_full m a b :
  (m <= String.length a)%nat -> substring 0 m (a +:+ b) = substring 0 m a.
Proof.
  revert m. induction a as [|c a IH]; intros [|m] Hm.
  - now destruct b.
  - cbn in Hm. lia.
  - reflexivity.
  - change (String c a +:+ b) with (String c (a +:+ b)).
    cbn [substring]. cbn in Hm. rewrite IH by lia. reflexivity.
Qed.

Lemma length_substring m s :
  String.length (substring 0 m s) = Nat.min m (String.length s).
Proof.
  revert m. induction s as [|c s IH]; intros [|m]; cbn; try reflexivity.
  now rewrite IH.
Qed.

Lemma append_assoc a b c : (a +:+ b) +:+ c = a +:+ (b +:+ c).
Proof.
  induction a as [|x a IH]; [reflexivity|].
  change (String x a +:+ b) with (String x (a +:+ b)).
  change (String x (a +:+ b) +:+ c) with (String x ((a +:+ b) +:+ c)).
  now rewrite IH.
Qed.

Lemma on_data_inv m seen flag chunk :
  (flag = false -> (String.length seen <= m)%nat) ->
  let st := on_data m (substring 0 m seen, flag) chunk in
  fst st = substring 0 m (seen +:+ chunk) /\
  (snd st = false -> (String.length (seen +:+ chunk) <= m)%nat).
Proof.
  intros Hflag. cbv zeta. unfold on_data, appendBuffer. cbn [fst snd].
  rewrite length_substring.
  destruct (m <=? Nat.min m (String.length seen))%nat eqn:Efull.
  - apply Nat.leb_le in Efull. cbn [value_of overflow fst snd].
    split; [|discriminate].
    symmetry. apply substring_app_full. lia.
  - apply Nat.leb_gt in Efull.
    assert (Hs : (String.length seen < m)%nat) by lia.
    rewrite (substring_all m seen) by lia.
    destruct (m <? String.length (seen +:+ chunk))%nat eqn:Eover;
      cbn [value_of overflow fst snd].
    + split; [reflexivity|discriminate].
    + apply Nat.ltb_ge in Eover. split; [|auto].
      symmetry. now apply substring_all.
Qed.

Lemma fold_on_data m chunks : forall seen flag,
  (flag = false -> (String.length seen <= m)%nat) ->
  let st := fold_left (on_data m) chunks (substring 0 m seen, flag) in
  fst st = substring 0 m (seen +:+ delivered chunks) /\
  (snd st = false -> (String.length (seen +:+ delivered chunks) <= m)%nat).
Proof.
  induction chunks as [|chunk chunks IH]; intros seen flag Hflag; cbv zeta.
  - cbn [fold_left delivered fold_right fst snd].
    assert (Hnil : seen +:+ "" = seen).
    { clear. induction seen as [|c s IHs]; [reflexivity|].
      change (String c s +:+ "") with (String c (s +:+ "")). now rewrite IHs. }
    rewrite Hnil. auto.
  - cbn [fold_left delivered fold_right]. fold (delivered chunks).
    destruct (on_data_inv m seen flag chunk Hflag) as [Hfst Hsnd].
    destruct (on_data m (substring 0 m seen, flag) chunk) as [buf flag'] eqn:E.
    cbn [fst snd] in Hfst, Hsnd. subst buf.
    rewrite <- append_assoc. now apply IH.
Qed.

(** X25. The buffer of a stream is the first [maxBuffer] code units of all the
    stream delivered, however it was cut into chunks; when the overflow
    flag is off the buffer is the whole output, and when the output is
    longer than [maxBuffer] the flag is on. *)
Theorem collect_is_prefix maxBuffer chunks :
  fst (collect maxBuffer chunks) = substring 0 maxBuffer (delivered chunks) /\
  (snd (collect maxBuffer chunks) = false ->
   fst (collect maxBuffer chunks) = delivered chunks) /\
  ((maxBuffer < String.length (delivered chunks))%nat ->
   snd (collect maxBuffer chunks) = true).
Proof.
  unfold collect.
  assert (H0 : ("", false) = (substring 0 maxBuffer "", false))
    by now destruct maxBuffer.
  rewrite H0.
  destruct (fold_on_data maxBuffer chunks "" false) as [Hfst Hsnd];
    [cbn; lia|].
  change ("" +:+ delivered chunks) with (delivered chunks) in Hfst, Hsnd.
  split; [assumption|]. split.
  - intros Hoff. rewrite Hfst. apply substring_all. auto.
  - intros Hlong.
    destruct (snd (fold_left (on_data maxBuffer) chunks
                     (substring 0 maxBuffer "", false))) eqn:E; [reflexivity|].
    specialize (Hsnd eq_refl). lia.
Qed.

(** The timeout of a process is positive and at most fifteen minutes,
    whatever was asked for, and a timeout in that range is kept. *)
Theorem normaliseTimeout_bounds timeoutMs n :
  0 < normaliseTimeout timeoutMs <= MAX_TIMEOUT_MS /\
  (0 < n <= MAX_TIMEOUT_MS -> normaliseTimeout (VNum n) = n).
Proof.
  unfold normaliseTimeout, MAX_TIMEOUT_MS, DEFAULT_TIMEOUT_MS. split.
  - destruct timeoutMs; try lia. destruct (n0 <=? 0) eqn:E; lia.
  - intros Hn. destruct (n <=? 0) eqn:E; lia.
Qed.

Lemma collect_is_prefix_witness :
  fst (collect 5 ["ab"; "cd"; "ef"; "gh"]) = "abcde" /\
  snd (collect 5 ["ab"; "cd"; "ef"; "gh"]) = true /\
  fst (collect 5 ["ab"; "c"]) = "abc".
Proof.
  destruct (collect_is_prefix 5 ["ab"; "cd"; "ef"; "gh"]) as (Hfst & _ & Hon).
  destruct (collect_is_prefix 5 ["ab"; "c"]) as (_ & Hoff & _).
  split; [exact Hfst|]. split.
  - apply Hon. apply Nat.ltb_lt. reflexivity.
  - apply Hoff. reflexivity.
Defined.

Lemma normaliseTimeout_bounds_witness :
  0 < normaliseTimeout (VNum 3600000) <= MAX_TIMEOUT_MS /\
  normaliseTimeout (VNum 20000) = 20000.
Proof.
  destruct (normaliseTimeout_bounds (VNum 3600000) 20000) as [Hb Hkeep].
  split; [exact Hb|]. apply Hkeep. unfold MAX_TIMEOUT_MS. lia.
Defined.

End ProcessExtras.

(* ===================================================================== *)
(** ** The registry of MCP servers *)

Section RegistryExtras.
Import McpRegistry RegistrySpec RegistryExamples.

Lemma normaliseServer_id entry server :
  normaliseServer entry = Ok (Some server) ->
  JS.truthy (id_of entry) = true /\
  JS.toString (id_of entry) = Ok (key_of server) /\
  JS.prop server "id" = VStr (key_of server) /\
  JS.prop server "raw" = entry.
Proof.
  unfold normaliseServer.
  destruct (negb (JS.truthy entry) || negb (JS.typeof_object entry));
    [discriminate|].
  destruct (JS.truthy (id_of entry)) eqn:Et; cbn [negb]; [|discriminate].
  destruct (JS.toString (id_of entry)) as [shown|e]; cbn [bind]; [|discriminate].
  destruct (match JS.prop entry "args" with
            | VArr l => let* strings := map_String l in Ok (VArr strings)
            | _ => Ok (VArr [])
            end) as [args|e]; cbn [bind]; [|discriminate].
  intros [= <-]. repeat split.
Qed.

Lemma registerServer_Some st entry server st' :
  registerServer st entry = (Ok (Some server), st') ->
  normaliseServer entry = Ok (Some server) /\
  st' = {| servers := <[key_of server := server]> (servers st);
           clients := clients st |}.
Proof.
  unfold registerServer.
  destruct (normaliseServer entry) as [[s|]|e]; try discriminate.
  intros [= -> <-]. now split.
Qed.

Lemma registerServer_found st entry server st' :
  registerServer st entry = (Ok (Some server), st') ->
  getServer st' (id_of entry) = Ok (Some server).
Proof.
  intros [Hn ->]%registerServer_Some.
  destruct (normaliseServer_id _ _ Hn) as (Ht & Hid & _).
  unfold getServer. cbn [servers]. rewrite Ht, Hid. cbn [negb bind].
  now rewrite lookup_insert_eq.
Qed.

(** X26. A registered server is found again under the id of its entry, and
    under the id it was given if that is not the empty string; servers
    under other ids stay as they were.  A second entry with the same id
    replaces the first. *)
Theorem register_then_get st entry server st' other :
  registerServer st entry = (Ok (Some server), st') ->
  getServer st' (id_of entry) = Ok (Some server) /\
  (JS.toString (id_of entry) <> Ok "" ->
   getServer st' (JS.prop server "id") = Ok (Some server)) /\
  (JS.toString other <> JS.toString (id_of entry) ->
   getServer st' other = getServer st other).
Proof.
  intros Hreg. split; [exact (registerServer_found _ _ _ _ Hreg)|].
  apply registerServer_Some in Hreg as [Hn ->].
  destruct (normaliseServer_id _ _ Hn) as (Ht & Hid & Hprop & _).
  rewrite Hid, Hprop. unfold getServer. cbn [servers]. split.
  - intros Hne. cbn [JS.truthy JS.toString bind].
    destruct (String.eqb (key_of server) "") eqn:E.
    + apply String.eqb_eq in E. congruence.
    + cbn [negb]. now rewrite lookup_insert_eq.
  - intros Hne. destruct (negb (JS.truthy other)); [reflexivity|].
    destruct (JS.toString other) as [key|e]; cbn [bind]; [|reflexivity].
    rewrite lookup_insert_ne by congruence. reflexivity.
Qed.

Lemma registerServer_clients st entry :
  clients (snd (registerServer st entry)) = clients st.
Proof.
  unfold registerServer. destruct (normaliseServer entry) as [[s|]|e];
    reflexivity.
Qed.

Lemma registerServer_keeps st entry id server :
  getServer st id = Ok (Some server) ->
  exists server', getServer (snd (registerServer st entry)) id = Ok (Some server').
Proof.
  unfold registerServer, getServer.
  destruct (normaliseServer entry) as [[s|]|e]; cbn [snd servers];
    [|intros Hs; exists server; exact Hs..].
  destruct (negb (JS.truthy id)); [discriminate|].
  destruct (JS.toString id) as [key|e]; cbn [bind]; [|discriminate].
  intros [= Hs].
  destruct (decide (key_of s = key)) as [->|Hne].
  - rewrite lookup_insert_eq. eauto.
  - rewrite lookup_insert_ne, Hs by assumption. eauto.
Qed.

Lemma load_entries_spec entries : forall st n,
  match load_entries st entries n with
  | (Ok count, st') =>
      Forall (fun entry => exists o, normaliseServer entry = Ok o) entries /\
      count = n + Z.of_nat (length (List.filter registers entries)) /\
      clients st' = clients st /\
      (forall id server, getServer st id = Ok (Some server) ->
                         exists server', getServer st' id = Ok (Some server')) /\
      (forall entry, In entry entries -> registers entry = true ->
                     exists server, getServer st' (id_of entry) = Ok (Some server))
  | (Throw e, st') =>
      Exists (fun entry => normaliseServer entry = Throw e) entries /\
      clients st' = clients st
  end.
Proof.
  induction entries as [|entry entries IH]; intros st n;
    cbn [load_entries List.filter].
  - repeat split; [constructor | cbn; lia | eauto | intros ? []].
  - pose proof (registerServer_clients st entry) as Hcl.
    pose proof (registerServer_keeps st entry) as Hkeep.
    destruct (registerServer st entry) as [[[server|]|e] st1] eqn:Er;
      cbn [snd] in Hcl, Hkeep.
    + pose proof (registerServer_found _ _ _ _ Er) as Hfound.
      apply registerServer_Some in Er as [Hn _].
      unfold registers at 1. rewrite Hn.
      specialize (IH st1 (n + 1)).
      destruct (load_entries st1 entries (n + 1)) as [[count|e] st'].
      * destruct IH as (Hall & Hcount & Hc & Hk & Hin).
        split; [constructor; eauto|]. split; [cbn [length]; lia|].
        split; [congruence|]. split.
        -- intros id s Hs. destruct (Hkeep id s Hs) as [s1 Hs1]. eauto.
        -- intros e [<-|He] Hr; [eauto|]. now apply Hin.
      * destruct IH as [Hex Hc]. split; [now apply Exists_cons_tl|congruence].
    + assert (Hn : normaliseServer entry = Ok None).
      { unfold registerServer in Er.
        destruct (normaliseServer entry) as [[s|]|e]; congruence. }
      unfold registers at 1. rewrite Hn.
      specialize (IH st1 n).
      destruct (load_entries st1 entries n) as [[count|e] st'].
      * destruct IH as (Hall & Hcount & Hc & Hk & Hin).
        split; [constructor; eauto|]. split; [assumption|].
        split; [congruence|]. split.
        -- intros id s Hs. destruct (Hkeep id s Hs) as [s1 Hs1]. eauto.
        -- intros e [<-|He] Hr; [|now apply Hin].
           unfold registers in Hr. rewrite Hn in Hr. discriminate.
      * destruct IH as [Hex Hc]. split; [now apply Exists_cons_tl|congruence].
    + assert (Hn : normaliseServer entry = Throw e).
      { unfold registerServer in Er.
        destruct (normaliseServer entry) as [[s|]|e']; congruence. }
      split; [now apply Exists_cons_hd|assumption].
Qed.

(** X27. When [loadServersFromEntries] returns, its count is the number of
    entries that were registered, not the number of servers: entries that
    share an id are counted each, and every entry that was counted has a
    server under its id afterwards.  It returns whenever every entry can be
    normalised; when the id or an argument of some entry cannot be
    converted to a string, it throws what that conversion throws, and
    returns no count. *)
Theorem loadServersFromEntries_counts_entries st entries :
  match loadServersFromEntries st entries with
  | (Ok count, st') =>
      Forall (fun entry => exists o, normaliseServer entry = Ok o) entries /\
      count = Z.of_nat (length (List.filter registers entries)) /\
      (forall entry, In entry entries -> registers entry = true ->
                     exists server, getServer st' (id_of entry) = Ok (Some server))
  | (Throw e, _) =>
      Exists (fun entry => normaliseServer entry = Throw e) entries
  end.
Proof.
  unfold loadServersFromEntries.
  pose proof (load_entries_spec entries st 0) as Hspec.
  destruct (load_entries st entries 0) as [[count|e] st'].
  - destruct Hspec as (Hall & Hcount & _ & _ & Hin).
    split; [assumption|]. split; [lia|assumption].
  - now destruct Hspec.
Qed.

Section WithPlatform.
Context `{Platform}.

(** X28. [ensureClient] never replaces a client: while a client is filed
    under an id, every call returns that client and changes nothing, also
    after the client was closed, when each request on it throws. *)
Theorem ensureClient_reuses st serverId client s w method params w' :
  serverId <> "" ->
  clients st !! serverId = Some client ->
  ensureClient st serverId s w = (Ok (Some serverId), st) /\
  (Mcp.closed client = true ->
   exists e, Mcp.request client method params w' = (Throw e, client)).
Proof.
  intros Hne Hc. split.
  - unfold ensureClient. apply String.eqb_neq in Hne. now rewrite Hne, Hc.
  - apply request_closed.
Qed.

(** X29. What [ensureClient] leaves behind: a call that returns [null] or
    throws leaves the registry as it was; a call that returns a client
    leaves a started client under the id, and the servers untouched. *)
Theorem ensureClient_outcomes st serverId s w r st' :
  ensureClient st serverId s w = (r, st') ->
  servers st' = servers st /\
  match r with
  | Ok (Some key) =>
      key = serverId /\
      (forall other, other <> serverId -> clients st' !! other = clients st !! other) /\
      exists client, clients st' !! serverId = Some client /\
                     (clients st !! serverId = None -> Mcp.started client = true)
  | Ok None | Throw _ => clients st' = clients st
  end.
Proof.
  unfold ensureClient.
  destruct (String.eqb serverId ""); [intros [= <- <-]; now split|].
  destruct (clients st !! serverId) as [c|] eqn:Ec.
  { intros [= <- <-]. split; [reflexivity|]. split; [reflexivity|].
    split; [reflexivity|]. exists c. split; [assumption|discriminate]. }
  destruct (getServer st (VStr serverId)) as [[server|]|e];
    [|intros [= <- <-]; now split..].
  destruct (JS.truthy (JS.prop server "transport")
            && negb (is_stdio (JS.prop server "transport")));
    [intros [= <- <-]; now split|].
  destruct (Mcp.new server) as [client|e]; [|intros [= <- <-]; now split].
  destruct (Mcp.start client s w) as [[u|e] client'] eqn:Es.
  - intros [= <- <-]. cbn [servers clients]. split; [reflexivity|].
    split; [reflexivity|]. split.
    + intros other Hne. now rewrite !lookup_insert_ne by congruence.
    + exists client'. split; [apply lookup_insert_eq|]. intros _.
      exact (start_ok_started _ _ _ _ _ Es).
  - intros [= <- <-]. cbn [servers clients]. split; [reflexivity|].
    now apply delete_insert_id.
Qed.

End WithPlatform.

Lemma register_then_get_witness :
  exists server,
    getServer registry_with_files (VStr "files") = Ok (Some server) /\
    JS.prop server "command" = VStr "./files_server" /\
    getServer registry_with_files (VStr "other")
    = getServer McpRegistry.empty (VStr "other").
Proof.
  destruct (register_then_get McpRegistry.empty entry_files
              (VObj [("id", VStr "files"); ("name", VStr "files");
                     ("description", VNull);
                     ("command", VStr "./files_server");
                     ("args", VArr []); ("env", VObj []);
                     ("transport", VStr "stdio"); ("metadata", VObj []);
                     ("raw", entry_files)])
              registry_with_files (VStr "other") eq_refl)
    as (_ & Hown & Hother).
  eexists. split; [apply Hown; discriminate|].
  split; [reflexivity|]. apply Hother. discriminate.
Defined.

Lemma loadServersFromEntries_counts_entries_witness :
  fst (loadServersFromEntries McpRegistry.empty
         [entry_files; entry_nameless; entry_files_again]) = Ok 2 /\
  (exists server,
      getServer
        (snd (loadServersFromEntries McpRegistry.empty
                [entry_files; entry_nameless; entry_files_again]))
        (VStr "files") = Ok (Some server)) /\
  fst (loadServersFromEntries McpRegistry.empty
         [entry_files; entry_unconvertible; entry_files_again])
  = Throw JS.cannot_convert.
Proof.
  pose proof (loadServersFromEntries_counts_entries McpRegistry.empty
                [entry_files; entry_nameless; entry_files_again]) as Hok.
  pose proof (loadServersFromEntries_counts_entries McpRegistry.empty
                [entry_files; entry_unconvertible; entry_files_again]) as Hthrow.
  destruct (loadServersFromEntries McpRegistry.empty
              [entry_files; entry_nameless; entry_files_again])
    as [[count|e] st'] eqn:E1; [|discriminate E1].
  destruct (loadServersFromEntries McpRegistry.empty
              [entry_files; entry_unconvertible; entry_files_again])
    as [[count2|e2] st2] eqn:E2; [discriminate E2|].
  destruct Hok as (_ & Hcount & Hin). cbn [fst snd].
  split; [now rewrite Hcount|]. split.
  - apply (Hin entry_files_again); [cbn; auto | reflexivity].
  - f_equal. apply Exists_cons in Hthrow as [Hf|Hthrow]; [discriminate Hf|].
    apply Exists_cons in Hthrow as [Hf|Hthrow]; [now injection Hf|].
    apply Exists_cons in Hthrow as [Hf|Hthrow]; [discriminate Hf|].
    inversion Hthrow.
Defined.

Lemma ensureClient_reuses_witness :
  @ensureClient Demo.platform registry_with_closed_client "files" None None
  = (Ok (Some "files"), registry_with_closed_client) /\
  exists e,
    @Mcp.request Demo.platform (Mcp.close MoreExamples.started_client VUndefined)
      (VStr "tools/list") (VObj []) None
    = (Throw e, Mcp.close MoreExamples.started_client VUndefined).
Proof.
  destruct (@ensureClient_reuses Demo.platform registry_with_closed_client
              "files" (Mcp.close MoreExamples.started_client VUndefined)
              None None (VStr "tools/list") (VObj []) None)
    as [Hsame Hthrows].
  - discriminate.
  - vm_compute. reflexivity.
  - split; [exact Hsame|]. apply Hthrows. reflexivity.
Defined.

Lemma ensureClient_outcomes_witness :
  (exists client,
      clients (snd (@ensureClient Demo.platform registry_with_files "files"
                      None None))
      !! "files" = Some client /\
      Mcp.started client = true) /\
  clients (snd (@ensureClient Demo.platform registry_with_files "files"
                  (Some (JS.Error "spawn ENOENT")) None))
  = clients registry_with_files.
Proof.
  split.
  - destruct (@ensureClient_outcomes Demo.platform registry_with_files "files"
                None None (Ok (Some "files"))
                (snd (@ensureClient Demo.platform registry_with_files "files"
                        None None)))
      as (_ & _ & _ & client & Hc & Hs).
    + vm_compute. reflexivity.
    + exists client. split; [exact Hc|]. apply Hs. vm_compute. reflexivity.
  - exact (proj2 (@ensureClient_outcomes Demo.platform registry_with_files
                    "files" (Some (JS.Error "spawn ENOENT")) None
                    (Throw (JS.Error "spawn ENOENT"))
                    (snd (@ensureClient Demo.platform registry_with_files
                            "files" (Some (JS.Error "spawn ENOENT")) None))
                    eq_refl)).
Defined.

End RegistryExtras.

(* ===================================================================== *)
(** ** What [resolveWorkspacePath] returns *)

Section WorkspaceExtras.
Import Path Workspace WorkspaceSpec.

Lemma segments_no_slash s : Forall (fun seg => has_slash seg = false) (segments s).
Proof.
  induction s as [|c s IH]; cbn [segments]; [repeat constructor|].
  destruct (is_slash c) eqn:Ec; [constructor; [reflexivity|assumption]|].
  destruct (segments s) as [|h t]; [repeat constructor; cbn; now rewrite Ec|].
  apply Forall_cons in IH as [Hh Ht]. constructor; [|assumption].
  cbn [has_slash]. now rewrite Ec, Hh.
Qed.

Lemma push_segment_plain kept seg :
  has_slash seg = false ->
  Forall plain_segment kept -> Forall plain_segment (push_segment false kept seg).
Proof.
  intros Hseg Hk. unfold push_segment.
  destruct (String.eqb seg "") eqn:E0; [assumption|].
  destruct (String.eqb seg ".") eqn:E1; [assumption|]. cbn [orb].
  destruct (String.eqb seg "..") eqn:E2.
  - destruct kept as [|top below]; [constructor|].
    apply Forall_cons in Hk as [Htop Hbelow].
    destruct (String.eqb top "..") eqn:Et; [|assumption].
    apply String.eqb_eq in Et. now destruct Htop as (_ & _ & _ & Hdd).
  - apply Forall_cons. split; [|assumption].
    apply String.eqb_neq in E0, E1, E2. now repeat split.
Qed.

Lemma fold_push_segment_plain segs : forall kept,
  Forall (fun seg => has_slash seg = false) segs ->
  Forall plain_segment kept ->
  Forall plain_segment (fold_left (push_segment false) segs kept).
Proof.
  induction segs as [|seg segs IH]; intros kept Hs Hk; [assumption|].
  apply Forall_cons in Hs as [Hseg Hs].
  cbn [fold_left]. apply IH; [assumption|]. now apply push_segment_plain.
Qed.

Lemma scan_absolute l : forall acc,
  Exists (fun p => isAbsolute p = true) l -> snd (scan l acc) = true.
Proof.
  induction l as [|p l IH]; intros acc Hex; [now apply Exists_nil in Hex|].
  cbn [scan]. destruct (String.eqb p "") eqn:E0.
  - apply String.eqb_eq in E0. subst p.
    apply Exists_cons in Hex as [Hp|Hl]; [discriminate|]. now apply IH.
  - destruct (isAbsolute p) eqn:Ea; [reflexivity|].
    apply Exists_cons in Hex as [Hp|Hl]; [congruence|]. now apply IH.
Qed.

Lemma resolve_normalised cwd args :
  isAbsolute cwd = true ->
  exists segs, resolve cwd args = "/" +:+ JS.join "/" segs /\
               Forall plain_segment segs.
Proof.
  intros Hcwd. unfold resolve.
  pose proof (scan_absolute (rev args ++ [cwd]) "") as Habs.
  destruct (scan (rev args ++ [cwd]) "") as [resolvedPath resolvedAbsolute].
  cbn [snd] in Habs. rewrite Habs.
  2:{ apply Exists_app. right. now apply Exists_cons_hd. }
  cbn [negb]. unfold normalizeString. eexists. split; [reflexivity|].
  apply Forall_rev, fold_push_segment_plain;
    [apply segments_no_slash | constructor].
Qed.

(** X30. With an absolute working directory, every path that
    [resolveWorkspacePath] returns is absolute and normalised: a slash
    followed by segments joined by slashes, none of them empty, [.] or
    [..], so what follows the workspace root in it does not climb. *)
Theorem resolved_path_is_normalised cwd configRoot targetPath resolved :
  isAbsolute cwd = true ->
  resolveWorkspacePath cwd configRoot targetPath = Ok resolved ->
  JS.startsWith (workspaceRoot cwd configRoot) resolved = true /\
  exists segs, resolved = "/" +:+ JS.join "/" segs /\
               Forall plain_segment segs.
Proof.
  intros Hcwd. unfold resolveWorkspacePath.
  destruct targetPath as [ | | | | p | | ]; try discriminate.
  destruct (String.eqb p ""); [discriminate|].
  destruct (JS.startsWith _ _) eqn:Es; cbn [negb]; [|discriminate].
  intros [= <-]. split; [assumption|]. now apply resolve_normalised.
Qed.

Lemma resolved_path_is_normalised_witness :
  exists segs,
    "/srv/workspace/src/index.js" = "/" +:+ JS.join "/" segs /\
    Forall plain_segment segs.
Proof.
  apply (resolved_path_is_normalised "/home/proxy" "/srv/workspace"
           (VStr "docs/.././src//index.js") "/srv/workspace/src/index.js").
  - reflexivity.
  - vm_compute. reflexivity.
Defined.

End WorkspaceExtras.
